(** * TeamConnectAI: the Team Shout room and round engine

    A shallow embedding of [games/teamshout/team_shout.py] and the
    properties of its round life cycle, scoring and prompt padding.

    Conventions of the embedding.
    - Python dictionaries keyed by strings whose iteration order is never
      observed ([playerSockets], [socketToPlayerId], [answers]) are finite
      maps; the room table [rooms], whose iteration order [disconnect]
      observes, is an insertion-ordered association list.
    - Python integers are [Z]; the two counters [currentRound] and
      [roundId], which start at 0 and are only ever incremented, are [nat].
    - [time.time()] is read by the environment and handed to the
      handler.  Its value is a double; from 2004 to 2038 (2^30 <= t <
      2^31 seconds) the doubles are the whole multiples of 2^-22 s, and
      a time stamp is that whole number, in [Z]: [TICKS] clock values
      make one second.  The program only stores, compares and subtracts
      time stamps, which is exact on these values.
    - A handler is one atomic step.  The blocking call to the prompt
      service inside [generate_room_prompts] never yields to the event
      loop; the only suspension points inside a handler are the awaited
      [sio.emit] calls, which are recorded in order as effects.
    - A Python string is a sequence of code points.  The embedding has
      the strings whose code points are below 256, one character per
      code point (not the bytes of an encoding); [str.lower] and
      [str.strip] are Python's on these strings. *)

From Stdlib Require Import ZArith List String Ascii Lia.
From Stdlib Require Import Sorting.Permutation Sorting.Sorted.
From stdpp Require Import base gmap strings list.

Local Open Scope Z_scope.
Local Open Scope string_scope.

(** ** Configuration constants *)

Definition DEFAULT_THEME : string := "general".
Definition DEFAULT_DIFFICULTY : string := "easy".
Definition DEFAULT_NUM_PROMPTS : Z := 10.
Definition MAX_ROUNDS : Z := 15.
Definition ROUND_TIME : Z := 10.
Definition AUTO_NEXT_DELAY : Z := 2.

(** Clock values per second: the time stamps count units of 2^-22 s. *)
Definition TICKS : Z := 4194304.

(** ** String helpers: [str.lower], [str.strip], [str.startswith] *)

Module Str.

(** [str.lower] on one code point below 256: the letters A-Z and the
    capital letters U+00C0-U+00DE (the multiplication sign U+00D7 is not
    one) move up by 32; every other code point is its own lower case. *)
Definition lower_char (c : ascii) : ascii :=
  let n := nat_of_ascii c in
  if ((65 <=? n)%nat && (n <=? 90)%nat)
     || ((192 <=? n)%nat && (n <=? 222)%nat && negb (n =? 215)%nat)
  then ascii_of_nat (n + 32) else c.

Fixpoint lower (s : string) : string :=
  match s with
  | EmptyString => EmptyString
  | String c s' => String (lower_char c) (lower s')
  end.

(** The code points below 256 that [str.strip] removes, those for which
    [str.isspace] holds: U+0009-U+000D, U+001C-U+0020, U+0085 and
    U+00A0. *)
Definition is_space (c : ascii) : bool :=
  let n := nat_of_ascii c in
  ((9 <=? n)%nat && (n <=? 13)%nat) || ((28 <=? n)%nat && (n <=? 32)%nat)
  || (n =? 133)%nat || (n =? 160)%nat.

Fixpoint lstrip (s : string) : string :=
  match s with
  | EmptyString => EmptyString
  | String c s' => if is_space c then lstrip s' else s
  end.

Fixpoint rev_onto (acc s : string) : string :=
  match s with
  | EmptyString => acc
  | String c s' => rev_onto (String c acc) s'
  end.

Definition reverse (s : string) : string := rev_onto EmptyString s.

Definition strip (s : string) : string :=
  reverse (lstrip (reverse (lstrip s))).

Definition startswith (p s : string) : bool := String.prefix p s.

(** Python truthiness of a string. *)
Definition truthy (s : string) : bool :=
  match s with EmptyString => false | _ => true end.

End Str.

(** ** Data model *)

Record Player := mkPlayer {
  p_name : string;
  p_playerId : string;
  p_score : Z }.

Record Prompt := mkPrompt {
  pr_text : string;
  pr_answers : list string }.

(** A value of the [answers] dictionary. *)
Record AnswerRec := mkAnswerRec {
  ar_answer : string;
  ar_isCorrect : bool;
  ar_ts : Z }.

(** An element of [answer_order]. *)
Record AnswerEvent := mkAnswerEvent {
  ae_playerId : string;
  ae_ts : Z;
  ae_isCorrect : bool;
  ae_answer : string }.

(** An element of the [awarded] list of a [round-ended] message. *)
Record Award := mkAward {
  aw_playerId : string;
  aw_name : string;
  aw_points : Z;
  aw_position : nat }.

(** The room dictionary.  [roundTask] only stores a task handle that is
    never read again and is left out. *)
Record Room := mkRoom {
  players : list Player;
  playerSockets : gmap string string;
  socketToPlayerId : gmap string string;
  host : option string;
  currentPrompt : option Prompt;
  prompts : list Prompt;
  prompts_ready : bool;
  answers : gmap string AnswerRec;
  answer_order : list AnswerEvent;
  gameEnded : bool;
  gameStarted : bool;
  currentRound : nat;
  roundId : nat;
  roundEnded : bool;
  roundStartTime : option Z;
  numRounds : Z;
  lastActive : Z }.

#[global] Instance Player_eq_dec : EqDecision Player.
Proof. solve_decision. Defined.
#[global] Instance Prompt_eq_dec : EqDecision Prompt.
Proof. solve_decision. Defined.
#[global] Instance AnswerEvent_eq_dec : EqDecision AnswerEvent.
Proof. solve_decision. Defined.
#[global] Instance Award_eq_dec : EqDecision Award.
Proof. solve_decision. Defined.

(** Field assignments [r["field"] = v]. *)
Definition set_players (v : list Player) (r : Room) : Room :=
  mkRoom v (playerSockets r) (socketToPlayerId r) (host r) (currentPrompt r)
    (prompts r) (prompts_ready r) (answers r) (answer_order r) (gameEnded r)
    (gameStarted r) (currentRound r) (roundId r) (roundEnded r)
    (roundStartTime r) (numRounds r) (lastActive r).
Definition set_playerSockets (v : gmap string string) (r : Room) : Room :=
  mkRoom (players r) v (socketToPlayerId r) (host r) (currentPrompt r)
    (prompts r) (prompts_ready r) (answers r) (answer_order r) (gameEnded r)
    (gameStarted r) (currentRound r) (roundId r) (roundEnded r)
    (roundStartTime r) (numRounds r) (lastActive r).
Definition set_socketToPlayerId (v : gmap string string) (r : Room) : Room :=
  mkRoom (players r) (playerSockets r) v (host r) (currentPrompt r)
    (prompts r) (prompts_ready r) (answers r) (answer_order r) (gameEnded r)
    (gameStarted r) (currentRound r) (roundId r) (roundEnded r)
    (roundStartTime r) (numRounds r) (lastActive r).
Definition set_host (v : option string) (r : Room) : Room :=
  mkRoom (players r) (playerSockets r) (socketToPlayerId r) v (currentPrompt r)
    (prompts r) (prompts_ready r) (answers r) (answer_order r) (gameEnded r)
    (gameStarted r) (currentRound r) (roundId r) (roundEnded r)
    (roundStartTime r) (numRounds r) (lastActive r).
Definition set_currentPrompt (v : option Prompt) (r : Room) : Room :=
  mkRoom (players r) (playerSockets r) (socketToPlayerId r) (host r) v
    (prompts r) (prompts_ready r) (answers r) (answer_order r) (gameEnded r)
    (gameStarted r) (currentRound r) (roundId r) (roundEnded r)
    (roundStartTime r) (numRounds r) (lastActive r).
Definition set_prompts (v : list Prompt) (r : Room) : Room :=
  mkRoom (players r) (playerSockets r) (socketToPlayerId r) (host r)
    (currentPrompt r) v (prompts_ready r) (answers r) (answer_order r)
    (gameEnded r) (gameStarted r) (currentRound r) (roundId r) (roundEnded r)
    (roundStartTime r) (numRounds r) (lastActive r).
Definition set_prompts_ready (v : bool) (r : Room) : Room :=
  mkRoom (players r) (playerSockets r) (socketToPlayerId r) (host r)
    (currentPrompt r) (prompts r) v (answers r) (answer_order r)
    (gameEnded r) (gameStarted r) (currentRound r) (roundId r) (roundEnded r)
    (roundStartTime r) (numRounds r) (lastActive r).
Definition set_answers (v : gmap string AnswerRec) (r : Room) : Room :=
  mkRoom (players r) (playerSockets r) (socketToPlayerId r) (host r)
    (currentPrompt r) (prompts r) (prompts_ready r) v (answer_order r)
    (gameEnded r) (gameStarted r) (currentRound r) (roundId r) (roundEnded r)
    (roundStartTime r) (numRounds r) (lastActive r).
Definition set_answer_order (v : list AnswerEvent) (r : Room) : Room :=
  mkRoom (players r) (playerSockets r) (socketToPlayerId r) (host r)
    (currentPrompt r) (prompts r) (prompts_ready r) (answers r) v
    (gameEnded r) (gameStarted r) (currentRound r) (roundId r) (roundEnded r)
    (roundStartTime r) (numRounds r) (lastActive r).
Definition set_gameEnded (v : bool) (r : Room) : Room :=
  mkRoom (players r) (playerSockets r) (socketToPlayerId r) (host r)
    (currentPrompt r) (prompts r) (prompts_ready r) (answers r)
    (answer_order r) v (gameStarted r) (currentRound r) (roundId r)
    (roundEnded r) (roundStartTime r) (numRounds r) (lastActive r).
Definition set_gameStarted (v : bool) (r : Room) : Room :=
  mkRoom (players r) (playerSockets r) (socketToPlayerId r) (host r)
    (currentPrompt r) (prompts r) (prompts_ready r) (answers r)
    (answer_order r) (gameEnded r) v (currentRound r) (roundId r)
    (roundEnded r) (roundStartTime r) (numRounds r) (lastActive r).
Definition set_currentRound (v : nat) (r : Room) : Room :=
  mkRoom (players r) (playerSockets r) (socketToPlayerId r) (host r)
    (currentPrompt r) (prompts r) (prompts_ready r) (answers r)
    (answer_order r) (gameEnded r) (gameStarted r) v (roundId r)
    (roundEnded r) (roundStartTime r) (numRounds r) (lastActive r).
Definition set_roundId (v : nat) (r : Room) : Room :=
  mkRoom (players r) (playerSockets r) (socketToPlayerId r) (host r)
    (currentPrompt r) (prompts r) (prompts_ready r) (answers r)
    (answer_order r) (gameEnded r) (gameStarted r) (currentRound r) v
    (roundEnded r) (roundStartTime r) (numRounds r) (lastActive r).
Definition set_roundEnded (v : bool) (r : Room) : Room :=
  mkRoom (players r) (playerSockets r) (socketToPlayerId r) (host r)
    (currentPrompt r) (prompts r) (prompts_ready r) (answers r)
    (answer_order r) (gameEnded r) (gameStarted r) (currentRound r)
    (roundId r) v (roundStartTime r) (numRounds r) (lastActive r).
Definition set_roundStartTime (v : option Z) (r : Room) : Room :=
  mkRoom (players r) (playerSockets r) (socketToPlayerId r) (host r)
    (currentPrompt r) (prompts r) (prompts_ready r) (answers r)
    (answer_order r) (gameEnded r) (gameStarted r) (currentRound r)
    (roundId r) (roundEnded r) v (numRounds r) (lastActive r).
Definition set_numRounds (v : Z) (r : Room) : Room :=
  mkRoom (players r) (playerSockets r) (socketToPlayerId r) (host r)
    (currentPrompt r) (prompts r) (prompts_ready r) (answers r)
    (answer_order r) (gameEnded r) (gameStarted r) (currentRound r)
    (roundId r) (roundEnded r) (roundStartTime r) v (lastActive r).
Definition set_lastActive (v : Z) (r : Room) : Room :=
  mkRoom (players r) (playerSockets r) (socketToPlayerId r) (host r)
    (currentPrompt r) (prompts r) (prompts_ready r) (answers r)
    (answer_order r) (gameEnded r) (gameStarted r) (currentRound r)
    (roundId r) (roundEnded r) (roundStartTime r) (numRounds r) v.

(** ** Scoring engine: [apply_scoring_from_order] *)

(** [list.sort(key=lambda x: x["ts"])] is a stable sort; the stable
    insertion sort below computes the same list. *)
Fixpoint insert_by_ts (x : AnswerEvent) (l : list AnswerEvent)
  : list AnswerEvent :=
  match l with
  | [] => [x]
  | y :: l' =>
      if (ae_ts x <=? ae_ts y)%Z then x :: l else y :: insert_by_ts x l'
  end.

Fixpoint sort_by_ts (l : list AnswerEvent) : list AnswerEvent :=
  match l with
  | [] => []
  | x :: l' => insert_by_ts x (sort_by_ts l')
  end.

Definition points : list Z := [5; 3; 2].

(** [next((p for p in r["players"] if p["playerId"] == pid), None)] *)
Fixpoint find_player (pid : string) (ps : list Player) : option Player :=
  match ps with
  | [] => None
  | p :: ps' =>
      if decide (p_playerId p = pid) then Some p else find_player pid ps'
  end.

(** [player["score"] = player.get("score", 0) + pts] on the player object
    found by [find_player], which is the first one with that id. *)
Fixpoint add_score (pid : string) (pts : Z) (ps : list Player) : list Player :=
  match ps with
  | [] => []
  | p :: ps' =>
      if decide (p_playerId p = pid)
      then mkPlayer (p_name p) (p_playerId p) (p_score p + pts) :: ps'
      else p :: add_score pid pts ps'
  end.

(** The loop [for i, item in enumerate(order[:3])], started at index [i].
    [points[i]] exists at the three indices the loop visits. *)
Fixpoint scoring_loop (i : nat) (items : list AnswerEvent)
    (ps : list Player) (awarded : list Award) : list Player * list Award :=
  match items with
  | [] => (ps, awarded)
  | item :: rest =>
      let pid := ae_playerId item in
      match find_player pid ps, points !! i with
      | Some player, Some pts =>
          scoring_loop (S i) rest (add_score pid pts ps)
            (awarded ++ [mkAward pid (p_name player) pts (S i)])
      | _, _ => scoring_loop (S i) rest ps awarded
      end
  end.

Definition correct_order (r : Room) : list AnswerEvent :=
  sort_by_ts (filter (fun a => ae_isCorrect a = true) (answer_order r)).

Definition apply_scoring_from_order (r : Room) : Room * list Award :=
  let order := correct_order r in
  let '(ps, awarded) := scoring_loop 0 (take 3 order) (players r) [] in
  (set_players ps r, awarded).

(** ** Effects of a handler *)

Inductive Target :=
  | ToRoom (room : string)
  | ToSid (sid : string).

Inductive Payload :=
  | PlayerList (ps : list Player) (hostPlayerId : option string)
  | PromptsStatus (status : string)
  | GameStart
  | NewRound (prompt : string) (round : nat) (ps : list Player) (time : Z)
  | AnswerReceived (name answer : string) (isCorrect : bool)
  | RoundEndedMsg (scoreboard : list (string * Z)) (awarded : list Award)
  | GameOver (ps : list Player).

(** Background tasks handed to [sio.start_background_task], with the
    variables their closures capture. *)
Inductive Task :=
  | RoundTimer (room : string) (local_round_id : nat)
  | DelayedNext (room : string)
  | StartRound (room : string)
  | GenerateTask (room theme difficulty : string) (num_prompts : Z)
  | Cleanup (room : string).

Inductive Effect :=
  | Emit (to : Target) (msg : Payload)
  | Spawn (t : Task)
  | EnterRoom (sid room : string).

(** What a handler hands back to its caller. *)
Inductive Reply :=
  | RNone
  | RSuccess
  | RJoined (room playerId : string)
  | RError (error : string)
  | RRaised (exn : string).

#[global] Instance Target_eq_dec : EqDecision Target.
Proof. solve_decision. Defined.
#[global] Instance Payload_eq_dec : EqDecision Payload.
Proof. solve_decision. Defined.
#[global] Instance Task_eq_dec : EqDecision Task.
Proof. solve_decision. Defined.
#[global] Instance Effect_eq_dec : EqDecision Effect.
Proof. solve_decision. Defined.

Definition is_round_ended_msg (e : Effect) : bool :=
  match e with Emit _ (RoundEndedMsg _ _) => true | _ => false end.

Definition is_broadcast (e : Effect) : bool :=
  match e with Emit _ _ => true | _ => false end.

(** ** The room table [rooms] *)

Definition Rooms := list (string * Room).

Fixpoint rooms_get (room : string) (s : Rooms) : option Room :=
  match s with
  | [] => None
  | (k, r) :: s' => if decide (k = room) then Some r else rooms_get room s'
  end.

(** [rooms.get(room)] where [room] may be [None]. *)
Definition rooms_get_opt (room : option string) (s : Rooms) : option Room :=
  match room with Some k => rooms_get k s | None => None end.

(** The room object of an existing key is mutated in place; a new key is
    appended. *)
Fixpoint rooms_set (room : string) (r : Room) (s : Rooms) : Rooms :=
  match s with
  | [] => [(room, r)]
  | (k, r0) :: s' =>
      if decide (k = room) then (k, r) :: s' else (k, r0) :: rooms_set room r s'
  end.

Fixpoint rooms_pop (room : string) (s : Rooms) : Rooms :=
  match s with
  | [] => []
  | (k, r0) :: s' =>
      if decide (k = room) then s' else (k, r0) :: rooms_pop room s'
  end.

Definition Result : Type := Rooms * list Effect * Reply.

(** ** Round life cycle: [end_round], [start_round], [round_timer] *)

Definition scoreboard_of (ps : list Player) : list (string * Z) :=
  map (fun p => (p_name p, p_score p)) ps.

(** The body of [end_round] on the room object [r]. *)
Definition end_round_room (room : string) (r : Room) : Room * list Effect :=
  if roundEnded r then (r, [])
  else
    let r1 := set_roundEnded true r in
    let '(r2, awarded) := apply_scoring_from_order r1 in
    let e1 := Emit (ToRoom room)
                (RoundEndedMsg (scoreboard_of (players r2)) awarded) in
    if (numRounds r2 <=? Z.of_nat (currentRound r2))%Z then
      let r3 := set_gameEnded true r2 in
      (r3, [e1; Emit (ToRoom room) (GameOver (players r3))])
    else (r2, [e1; Spawn (DelayedNext room)]).

Definition end_round (room : string) (s : Rooms) : Rooms * list Effect :=
  match rooms_get room s with
  | None => (s, [])
  | Some r =>
      let '(r', eff) := end_round_room room r in (rooms_set room r' s, eff)
  end.

(** The body of [start_round] on the room object [r]; the third component
    is [Some exn] when the body raises. *)
Definition start_round_room (room : string) (now : Z) (r : Room)
  : Room * list Effect * option string :=
  if (numRounds r <=? Z.of_nat (currentRound r))%Z then
    let r1 := set_gameEnded true r in
    (r1, [Emit (ToRoom room) (GameOver (players r1))], None)
  else
    let r1 := set_roundId (S (roundId r))
                (set_roundEnded false
                   (set_answer_order [] (set_answers ∅ r))) in
    let local_round_id := roundId r1 in
    match prompts r1 !! currentRound r1 with
    | None => (r1, [], Some "IndexError")
    | Some prompt =>
        let r2 := set_roundStartTime (Some now)
                    (set_currentRound (S (currentRound r1))
                       (set_currentPrompt (Some prompt) r1)) in
        (r2,
         [Emit (ToRoom room)
            (NewRound (pr_text prompt) (currentRound r2) (players r2)
               ROUND_TIME);
          Spawn (RoundTimer room local_round_id)],
         None)
    end.

Definition start_round (room : string) (now : Z) (s : Rooms) : Result :=
  match rooms_get room s with
  | None => (s, [], RRaised "KeyError")
  | Some r =>
      let '(r', eff, exn) := start_round_room room now r in
      (rooms_set room r' s, eff,
       match exn with Some e => RRaised e | None => RNone end)
  end.

(** The task [round_timer] once its sleep is over. *)
Definition round_timer (room : string) (local_round_id : nat) (s : Rooms)
  : Result :=
  match rooms_get room s with
  | None => (s, [], RNone)
  | Some rr =>
      if bool_decide (roundId rr = local_round_id) && negb (roundEnded rr)
      then let '(s', eff) := end_round room s in (s', eff, RNone)
      else (s, [], RNone)
  end.

(** The task [delayed_next] once its sleep is over. *)
Definition delayed_next (room : string) (now : Z) (s : Rooms) : Result :=
  match rooms_get room s with
  | None => (s, [], RNone)
  | Some rr => if gameEnded rr then (s, [], RNone) else start_round room now s
  end.

(** ** Socket handlers *)

(** [player_id != r["host"]], with [player_id] the result of
    [r["socketToPlayerId"].get(sid)]; both sides may be [None]. *)
Definition not_host (sid : string) (r : Room) : bool :=
  negb (bool_decide (socketToPlayerId r !! sid = host r)).

(** *** [join_room] *)

Record JoinData := mkJoinData {
  jd_room : option string;
  jd_name : string;
  jd_playerId : string;
  jd_isHost : bool }.

Definition new_room (now : Z) : Room :=
  mkRoom [] ∅ ∅ None None [] false ∅ [] false false 0 0 false None
    DEFAULT_NUM_PROMPTS now.

(** [next((i for i,p in enumerate(ps) if p["playerId"] == pid), -1)],
    with [None] for [-1]. *)
Fixpoint existing_idx (pid : string) (ps : list Player) : option nat :=
  match ps with
  | [] => None
  | p :: ps' =>
      if decide (p_playerId p = pid) then Some 0%nat
      else S <$> existing_idx pid ps'
  end.

Definition host_missing (r : Room) : bool :=
  match host r with
  | None => true
  | Some h =>
      negb (Str.truthy h) || negb (bool_decide (is_Some (playerSockets r !! h)))
  end.

Definition host_truthy (r : Room) : bool :=
  match host r with None => false | Some h => Str.truthy h end.

(** The mutations [join_room] makes to the room object [r0]. *)
Definition join_body (sid name player_id : string) (is_host_flag : bool)
    (now : Z) (r0 : Room) : Room :=
  let r1 := set_lastActive now r0 in
  let '(prev_score, r2) :=
    match existing_idx player_id (players r1) with
    | Some idx =>
        (match players r1 !! idx with
         | Some p => p_score p
         | None => 0
         end,
         set_socketToPlayerId
           (filter (fun kv => kv.2 ≠ player_id) (socketToPlayerId r1))
           (set_playerSockets (delete player_id (playerSockets r1))
              (set_players (delete idx (players r1)) r1)))
    | None => (0, r1)
    end in
  let r3 :=
    set_socketToPlayerId (<[sid := player_id]> (socketToPlayerId r2))
      (set_playerSockets (<[player_id := sid]> (playerSockets r2))
         (set_players
            (players r2 ++ [mkPlayer name player_id prev_score]) r2)) in
  if host_missing r3
  then set_host
         (if is_host_flag then Some player_id
          else if host_truthy r3 then host r3 else Some player_id)
         r3
  else r3.

(** The messages [join_room] sends once the room object is [r].  The
    remaining time is [max(0, int(ROUND_TIME - elapsed))] in seconds,
    with [elapsed] the difference of two time stamps; [int] truncates
    towards zero, as [Z.quot] does. *)
Definition join_effects (sid room : string) (now : Z) (r : Room)
  : list Effect :=
  let e_ready :=
    if prompts_ready r
    then [Emit (ToSid sid) (PromptsStatus "ready")] else [] in
  let e_round :=
    match currentPrompt r with
    | Some prompt =>
        if roundEnded r then []
        else
          let remaining :=
            match roundStartTime r with
            | Some t0 =>
                if decide (t0 = 0) then ROUND_TIME
                else Z.max 0 (Z.quot (ROUND_TIME * TICKS - (now - t0)) TICKS)
            | None => ROUND_TIME
            end in
          [Emit (ToSid sid)
             (NewRound (pr_text prompt) (currentRound r) (players r)
                remaining)]
    | None => []
    end in
  ([EnterRoom sid room;
    Emit (ToRoom room) (PlayerList (players r) (host r))]
     ++ e_ready ++ e_round)%list.

Definition join_room (sid : string) (data : JoinData) (now : Z) (s : Rooms)
  : Result :=
  match jd_room data with
  | None => (s, [], RError "Invalid room code")
  | Some room =>
      if negb (Str.truthy room) || negb (Str.startswith "shout-" room)
      then (s, [], RError "Invalid room code")
      else
        let r0 := match rooms_get room s with
                  | Some r => r
                  | None => new_room now
                  end in
        let r := join_body sid (jd_name data) (jd_playerId data)
                   (jd_isHost data) now r0 in
        (rooms_set room r s, join_effects sid room now r,
         RJoined room (jd_playerId data))
  end.

(** *** [generate_prompts_handler] and its background task *)

Record GenData := mkGenData {
  gd_room : option string;
  gd_theme : option string;
  gd_difficulty : option string;
  gd_numPrompts : option Z }.

(** [x or default] for an optional string. *)
Definition str_or (x : option string) (d : string) : string :=
  match x with
  | Some v => if Str.truthy v then v else d
  | None => d
  end.

(** [int(data.get("numPrompts") or DEFAULT_NUM_PROMPTS)] for an integer
    payload. *)
Definition requested_num_prompts (x : option Z) : Z :=
  match x with
  | Some v => if decide (v = 0) then DEFAULT_NUM_PROMPTS else v
  | None => DEFAULT_NUM_PROMPTS
  end.

(** The two [if] statements that bound [num_prompts]. *)
Definition clamp_num_prompts (num_prompts : Z) : Z :=
  let n1 := if (num_prompts <? 1)%Z then DEFAULT_NUM_PROMPTS else num_prompts in
  if (MAX_ROUNDS <? n1)%Z then MAX_ROUNDS else n1.

Definition generate_prompts_handler (sid : string) (data : GenData)
    (s : Rooms) : Result :=
  let theme := str_or (gd_theme data) DEFAULT_THEME in
  let difficulty := str_or (gd_difficulty data) DEFAULT_DIFFICULTY in
  let num_prompts := requested_num_prompts (gd_numPrompts data) in
  match gd_room data, rooms_get_opt (gd_room data) s with
  | Some room, Some r =>
      if not_host sid r
      then (s, [], RError "Only host can generate prompts")
      else
        let num_prompts := clamp_num_prompts num_prompts in
        let r' := set_numRounds num_prompts (set_prompts_ready false r) in
        (rooms_set room r' s,
         [Emit (ToRoom room) (PromptsStatus "generating");
          Spawn (GenerateTask room theme difficulty num_prompts)],
         RSuccess)
  | _, _ => (s, [], RError "Room missing")
  end.

(** How an awaited call of [generate_room_prompts] ended. *)
Inductive GenOutcome :=
  | GenReturned (ps : list Prompt)
  | GenRaised.

Definition fruit_prompt : Prompt :=
  mkPrompt "Name a fruit" ["apple"; "banana"; "orange"].

(** The background [task] of [generate_prompts_handler], from the point
    where its call of [generate_room_prompts] ended.  The closure holds
    the room object; the model finds it again under its code. *)
Definition generate_task (room : string) (num_prompts : Z)
    (outcome : GenOutcome) (s : Rooms) : Result :=
  let ps :=
    match outcome with
    | GenReturned ps => ps
    | GenRaised => replicate (Z.to_nat num_prompts) fruit_prompt
    end in
  let s' :=
    match rooms_get room s with
    | Some r => rooms_set room (set_prompts_ready true (set_prompts ps r)) s
    | None => s
    end in
  (s', [Emit (ToRoom room) (PromptsStatus "ready")], RNone).

(** *** [start_game] *)

Inductive RoomArg :=
  | ArgStr (room : string)
  | ArgDict (room roomCode : option string)
  | ArgOther.

Definition opt_truthy (x : option string) : bool :=
  match x with Some v => Str.truthy v | None => false end.

(** The room named by the payload of [start-game]. *)
Definition start_game_room (data : RoomArg) : option string :=
  match data with
  | ArgStr room => Some room
  | ArgDict room roomCode => if opt_truthy room then room else roomCode
  | ArgOther => None
  end.

Definition start_game (sid : string) (data : RoomArg) (gen : GenOutcome)
    (s : Rooms) : Result :=
  let room := start_game_room data in
  match room with
  | Some room =>
      if negb (Str.truthy room) then (s, [], RError "Missing room")
      else
        match rooms_get room s with
        | None => (s, [], RError "Room missing")
        | Some r =>
            if not_host sid r then (s, [], RError "Only host can start")
            else
              let '(r1, eff1) :=
                if negb (prompts_ready r) then
                  let ps :=
                    match gen with
                    | GenReturned ps => ps
                    | GenRaised =>
                        replicate (Z.to_nat DEFAULT_NUM_PROMPTS) fruit_prompt
                    end in
                  (set_prompts_ready true
                     (set_prompts ps
                        (set_numRounds DEFAULT_NUM_PROMPTS
                           (set_prompts_ready false r))),
                   [Emit (ToRoom room) (PromptsStatus "generating");
                    Emit (ToRoom room) (PromptsStatus "ready")])
                else (r, []) in
              if gameStarted r1
              then (rooms_set room r1 s, eff1, RError "Game already started")
              else
                let r2 :=
                  set_roundStartTime None
                    (set_roundEnded false
                       (set_roundId 0
                          (set_currentRound 0
                             (set_gameEnded false
                                (set_answer_order []
                                   (set_answers ∅
                                      (set_gameStarted true r1))))))) in
                (rooms_set room r2 s,
                 (eff1 ++ [Emit (ToRoom room) GameStart;
                           Spawn (StartRound room)])%list,
                 RSuccess)
        end
  | None => (s, [], RError "Missing room")
  end.

(** *** [submit_answer] *)

Record SubmitData := mkSubmitData {
  sd_room : option string;
  sd_answer : option string;
  sd_playerId : string }.

(** The two assignments that record a submission in the room object. *)
Definition record_answer (player_id raw : string) (is_correct : bool) (ts : Z)
    (r : Room) : Room :=
  set_answer_order
    (answer_order r ++ [mkAnswerEvent player_id ts is_correct raw])
    (set_answers
       (<[player_id := mkAnswerRec raw is_correct ts]> (answers r)) r).

Definition submit_answer (sid : string) (data : SubmitData) (ts : Z)
    (s : Rooms) : Result :=
  let raw := Str.strip (str_or (sd_answer data) "") in
  let answer := Str.lower raw in
  let player_id := sd_playerId data in
  match sd_room data, rooms_get_opt (sd_room data) s with
  | Some room, Some r =>
      match currentPrompt r with
      | None => (s, [], RNone)
      | Some prompt =>
          if roundEnded r then (s, [], RNone)
          else if bool_decide (is_Some (answers r !! player_id))
          then (s, [], RNone)
          else
            match find_player player_id (players r) with
            | None => (s, [], RNone)
            | Some player =>
                let valid_answers := map Str.lower (pr_answers prompt) in
                let is_correct := bool_decide (answer ∈ valid_answers) in
                let r1 := record_answer player_id raw is_correct ts r in
                let s1 := rooms_set room r1 s in
                let e1 := Emit (ToRoom room)
                            (AnswerReceived (p_name player) raw is_correct) in
                if bool_decide (size (answers r1) = length (players r1))
                   && negb (roundEnded r1)
                then let '(s2, eff) := end_round room s1 in
                     (s2, e1 :: eff, RNone)
                else (s1, [e1], RNone)
            end
      end
  | _, _ => (s, [], RNone)
  end.

(** *** [next_round] *)

Definition next_round_room (data : RoomArg) : option string :=
  match data with
  | ArgStr room => Some room
  | ArgDict room _ => room
  | ArgOther => None
  end.

Definition next_round (sid : string) (data : RoomArg) (now : Z) (s : Rooms)
  : Result :=
  match next_round_room data, rooms_get_opt (next_round_room data) s with
  | Some room, Some r =>
      if not_host sid r then (s, [], RNone) else start_round room now s
  | _, _ => (s, [], RNone)
  end.

(** *** [disconnect] and the [cleanup] task *)

(** One iteration of the loop over the rooms; [None] is [continue]. *)
Definition disconnect_room (sid : string) (r : Room) : option Room :=
  match socketToPlayerId r !! sid with
  | None => None
  | Some pid =>
      if negb (Str.truthy pid) then None
      else
        let r1 := set_socketToPlayerId (delete sid (socketToPlayerId r))
                    (set_playerSockets (delete pid (playerSockets r)) r) in
        Some
          (if bool_decide (host r1 = Some pid)
           then set_host
                  (p_playerId <$>
                     head (filter
                             (fun p => is_Some (playerSockets r1 !! p_playerId p))
                             (players r1)))
                  r1
           else r1)
  end.

(** The closures [cleanup] all read the loop variables [room] and [r]
    after the loop is over, when they hold the last entry of the table. *)
Definition disconnect (sid : string) (s : Rooms) : Result :=
  let last_room := default "" (last (map fst s)) in
  (map (fun kr => (kr.1, default kr.2 (disconnect_room sid kr.2))) s,
   flat_map
     (fun kr =>
        match disconnect_room sid kr.2 with
        | Some r' =>
            [Emit (ToRoom kr.1) (PlayerList (players r') (host r'));
             Spawn (Cleanup last_room)]
        | None => []
        end) s,
   RNone).

(** The task [cleanup] once its sleep is over.  The closure tests the
    room object it holds and pops the room code.  The model finds the
    room again under its code: that is the object the closure holds as
    long as the code has not been removed from the table since the
    [disconnect], which only another [cleanup] task can do.  The
    properties of [cleanup] are stated for such runs. *)
Definition cleanup (room : string) (s : Rooms) : Result :=
  match rooms_get room s with
  | Some r =>
      if bool_decide (playerSockets r = ∅) then (rooms_pop room s, [], RNone)
      else (s, [], RNone)
  | None => (s, [], RNone)
  end.

(** ** Events and the step function of the engine *)

Inductive Event :=
  | EvJoin (sid : string) (data : JoinData) (now : Z)
  | EvGeneratePrompts (sid : string) (data : GenData)
  | EvGenerateTask (room : string) (num_prompts : Z) (outcome : GenOutcome)
  | EvStartGame (sid : string) (data : RoomArg) (gen : GenOutcome)
  | EvStartRound (room : string) (now : Z)
  | EvSubmitAnswer (sid : string) (data : SubmitData) (ts : Z)
  | EvNextRound (sid : string) (data : RoomArg) (now : Z)
  | EvDisconnect (sid : string)
  | EvRoundTimer (room : string) (local_round_id : nat)
  | EvDelayedNext (room : string) (now : Z)
  | EvCleanup (room : string).

Definition step (e : Event) (s : Rooms) : Result :=
  match e with
  | EvJoin sid data now => join_room sid data now s
  | EvGeneratePrompts sid data => generate_prompts_handler sid data s
  | EvGenerateTask room n outcome => generate_task room n outcome s
  | EvStartGame sid data gen => start_game sid data gen s
  | EvStartRound room now => start_round room now s
  | EvSubmitAnswer sid data ts => submit_answer sid data ts s
  | EvNextRound sid data now => next_round sid data now s
  | EvDisconnect sid => disconnect sid s
  | EvRoundTimer room rid => round_timer room rid s
  | EvDelayedNext room now => delayed_next room now s
  | EvCleanup room => cleanup room s
  end.

(** Running a sequence of events from [s]: the final table and all effects
    in order. *)
Fixpoint run (es : list Event) (s : Rooms) : Rooms * list Effect :=
  match es with
  | [] => (s, [])
  | e :: es' =>
      let '(s1, eff1, _) := step e s in
      let '(s2, eff2) := run es' s1 in
      (s2, (eff1 ++ eff2)%list)
  end.

(** ** Prompt padding: the tail of [generate_room_prompts] *)

Definition fallback_pool : list Prompt :=
  [ mkPrompt "Name a color in the rainbow"
      ["red"; "orange"; "yellow"; "green"; "blue"; "indigo"; "violet"];
    mkPrompt "What is the largest gland in the human body?" ["liver"];
    mkPrompt "Name a fruit" ["apple"; "banana"; "orange"; "grape"; "mango"];
    mkPrompt "Name any planet in our solar system"
      ["mercury"; "venus"; "earth"; "mars"; "jupiter"; "saturn"; "uranus";
       "neptune"];
    mkPrompt "Name an animal that can fly"
      ["eagle"; "sparrow"; "bat"; "butterfly"] ].

(** The loop [while len(prompts) < num_prompts], run for at most [fuel]
    iterations; [None] when the fuel is used up before the loop exits. *)
Fixpoint pad_loop (fuel : nat) (num_prompts : Z) (prompts : list Prompt)
    (existing : gset string) (i : nat) : option (list Prompt) :=
  if (Z.of_nat (length prompts) <? num_prompts)%Z then
    match fuel with
    | O => None
    | S fuel' =>
        match fallback_pool !! (i mod length fallback_pool)%nat with
        | Some cand =>
            if decide (Str.lower (pr_text cand) ∈ existing)
            then pad_loop fuel' num_prompts prompts existing (S i)
            else pad_loop fuel' num_prompts (prompts ++ [cand])
                   ({[Str.lower (pr_text cand)]} ∪ existing) (S i)
        | None => None
        end
    end
  else Some prompts.

(** The slice [l[:n]]. *)
Definition py_prefix {A} (n : Z) (l : list A) : list A :=
  if (0 <=? n)%Z then take (Z.to_nat n) l
  else take (length l - Z.to_nat (- n)) l.

(** The loop that builds [final]. *)
Definition finalize_prompts (num_prompts : Z) (prompts : list Prompt)
  : list Prompt :=
  map (fun p =>
         let answers :=
           map Str.lower
             (List.filter
                (fun a => Str.truthy a && Str.truthy (Str.strip a))
                (pr_answers p)) in
         mkPrompt (Str.strip (pr_text p))
           (match answers with [] => ["other"] | _ => answers end))
    (py_prefix num_prompts prompts).

(** [generate_room_prompts] from the point where the entries accepted from
    the model output are in [prompts] (the empty list when the call failed
    or its output could not be parsed). *)
Definition generate_room_prompts (fuel : nat) (parsed : list Prompt)
    (num_prompts : Z) : option (list Prompt) :=
  let padded :=
    if (Z.of_nat (length parsed) <? num_prompts)%Z
    then pad_loop fuel num_prompts parsed
           (list_to_set (map (fun p => Str.lower (pr_text p)) parsed)) 0
    else Some parsed in
  finalize_prompts num_prompts <$> padded.

(** ** Notions used to state the properties *)

Definition ts_le (a b : AnswerEvent) : Prop := (ae_ts a <= ae_ts b)%Z.

Definition is_correct (a : AnswerEvent) : Prop := ae_isCorrect a = true.

Definition at_ts (t : Z) (a : AnswerEvent) : Prop := ae_ts a = t.

#[global] Instance is_correct_dec a : Decision (is_correct a).
Proof. unfold is_correct. apply _. Defined.
#[global] Instance at_ts_dec t a : Decision (at_ts t a).
Proof. unfold at_ts. apply _. Defined.

(** Position, from 0, of the submission of [pid] in an ordered list of
    submissions. *)
Fixpoint rank_of (pid : string) (order : list AnswerEvent) : option nat :=
  match order with
  | [] => None
  | a :: order' =>
      if decide (ae_playerId a = pid) then Some 0%nat
      else S <$> rank_of pid order'
  end.

(** The ranked bonus: 5, 3, 2 for the first three places, nothing else. *)
Definition bonus (rank : option nat) : Z :=
  match rank with
  | Some 0%nat => 5
  | Some 1%nat => 3
  | Some 2%nat => 2
  | _ => 0
  end.

(** The bonus handed out by the loop started at index [i]. *)
Definition loop_bonus (i : nat) (items : list AnswerEvent) (pid : string) : Z :=
  match rank_of pid items with
  | Some k => default 0 (points !! (i + k)%nat)
  | None => 0
  end.

Definition bump (pts : Z) (p : Player) : Player :=
  mkPlayer (p_name p) (p_playerId p) (p_score p + pts).

Definition player_ids (ps : list Player) : list string := map p_playerId ps.

Definition submitter_ids (l : list AnswerEvent) : list string :=
  map ae_playerId l.

(** The shape every room built by the handlers has: player ids are
    unique, the submissions of the round come from distinct players, the
    submitters are exactly the keys of [answers], and all of them are
    players of the room. *)
Definition room_wf (r : Room) : Prop :=
  NoDup (player_ids (players r))
  /\ NoDup (submitter_ids (answer_order r))
  /\ (forall pid, pid ∈ submitter_ids (answer_order r)
                  <-> is_Some (answers r !! pid))
  /\ (forall pid, is_Some (answers r !! pid) -> pid ∈ player_ids (players r)).

Definition rooms_wf (s : Rooms) : Prop := Forall (fun kr => room_wf kr.2) s.

(** A table the engine can be in: the result of some sequence of events
    from the empty table. *)
Definition reachable (s : Rooms) : Prop := exists es, (run es []).1 = s.

(** Cumulative score of player [pid] in room [room]. *)
Definition score_of (room pid : string) (s : Rooms) : option Z :=
  r ← rooms_get room s; p_score <$> find_player pid (players r).

(** The [round-ended] broadcasts to [room] among some effects. *)
Definition round_ended_for (room : string) (e : Effect) : bool :=
  match e with
  | Emit (ToRoom k) (RoundEndedMsg _ _) => bool_decide (k = room)
  | _ => false
  end.

Definition is_cleanup (e : Event) : bool :=
  match e with EvCleanup _ => true | _ => false end.

(** A player with a live socket binding. *)
Definition connected (r : Room) (pid : string) : Prop :=
  is_Some (playerSockets r !! pid).

Definition answered (r : Room) (pid : string) : Prop :=
  is_Some (answers r !! pid).

(** Events that can trigger the end of the round of [room]: its expiry
    timers and the answers submitted to it. *)
Definition is_end_trigger (room : string) (e : Event) : Prop :=
  match e with
  | EvRoundTimer k _ => k = room
  | EvSubmitAnswer _ data _ => sd_room data = Some room
  | _ => False
  end.

(** The player list after a join of [pid] under the name [name]: a player
    already listed moves to the end and keeps the score, a new one starts
    at 0. *)
Definition joined_players (name pid : string) (ps : list Player)
  : list Player :=
  match existing_idx pid ps with
  | Some idx =>
      delete idx ps
        ++ [mkPlayer name pid
              (match ps !! idx with Some p => p_score p | None => 0 end)]
  | None => ps ++ [mkPlayer name pid 0]
  end.

(** ** A small game used in the examples below *)

Module Scenario.

Definition room : string := "shout-1".

Definition color_prompt : Prompt := mkPrompt "Name a primary color" ["red"].
Definition fruit_prompt2 : Prompt := mkPrompt "Name a fruit" ["apple"].

(** A and B join, A is host; two prompts are generated; the game and its
    first round are started at time 100. *)
Definition setup : list Event :=
  [ EvJoin "sidA" (mkJoinData (Some room) "Ann" "A" true) 90;
    EvJoin "sidB" (mkJoinData (Some room) "Bob" "B" false) 91;
    EvGeneratePrompts "sidA" (mkGenData (Some room) None None (Some 2));
    EvGenerateTask room 2 (GenReturned [color_prompt; fruit_prompt2]);
    EvStartGame "sidA" (ArgStr room) GenRaised;
    EvStartRound room 100 ].

(** Round 1 is active and nobody has answered. *)
Definition round1 : Rooms := (run setup []).1.

Definition submitA : Event :=
  EvSubmitAnswer "sidA" (mkSubmitData (Some room) (Some "Red") "A") 101.
Definition submitB : Event :=
  EvSubmitAnswer "sidB" (mkSubmitData (Some room) (Some " blue ") "B") 102.

(** Both have answered: round 1 ended by the all-answered path. *)
Definition round1_done : Rooms := (run (setup ++ [submitA; submitB]) []).1.

(** Only A has answered, round 1 still active. *)
Definition round1_A : Rooms := (run (setup ++ [submitA]) []).1.

(** B has left during round 1 and nobody has answered. *)
Definition round1_B_left : Rooms :=
  (run (setup ++ [EvDisconnect "sidB"]) []).1.

(** The room object of the game in table [s]. *)
Definition the_room (s : Rooms) : Room :=
  default (new_room 0) (rooms_get room s).

End Scenario.

(** Going from table [s] to [s'] with effects [eff] keeps every score of
    [room] or raises it, and raises it only if [eff] announces the end of
    a round of [room]. *)
Definition score_kept (room : string) (s s' : Rooms) (eff : list Effect)
  : Prop :=
  forall pid sc,
    score_of room pid s = Some sc ->
    exists sc',
      score_of room pid s' = Some sc' /\ sc <= sc'
      /\ (existsb (round_ended_for room) eff = false -> sc' = sc).

(** The entries of the fallback pool whose text is not yet in
    [existing]: the only ones the padding loop can still append. *)
Definition fresh_pool (existing : gset string) : list Prompt :=
  filter (fun c => Str.lower (pr_text c) ∉ existing) fallback_pool.

(** ** Further parts of [team_shout.py] *)

(** *** [shuffle] *)

(** The assignment [a[i], a[j] = a[j], a[i]]; [None] is [IndexError]. *)
Definition swap {A} (i j : nat) (a : list A) : option (list A) :=
  x ← a !! i; y ← a !! j; Some (<[j := x]> (<[i := y]> a)).

(** The loop [for i in range(len(a) - 1, 0, -1)] from index [i] down;
    [draw i] is the value [random.randint(0, i)] returns in the iteration
    of index [i]. *)
Fixpoint shuffle_loop {A} (draw : nat -> nat) (i : nat) (a : list A)
  : option (list A) :=
  match i with
  | O => Some a
  | S i' => a' ← swap i (draw i) a; shuffle_loop draw i' a'
  end.

Definition shuffle {A} (draw : nat -> nat) (array : list A)
  : option (list A) :=
  shuffle_loop draw (length array - 1) array.

(** *** The values [json.loads] returns *)

(** A number is seen by the program only through its truth value and its
    [str()]; it is represented by the two. *)
#[local] Unset Elimination Schemes.
Inductive JSON :=
  | JNull
  | JBool (b : bool)
  | JNum (nonzero : bool) (repr : string)
  | JStr (s : string)
  | JList (l : list JSON)
  | JDict (d : list (string * JSON)).
#[local] Set Elimination Schemes.

(** Python truth value. *)
Definition py_truthy (v : JSON) : bool :=
  match v with
  | JNull => false
  | JBool b => b
  | JNum nonzero _ => nonzero
  | JStr s => Str.truthy s
  | JList l => match l with [] => false | _ => true end
  | JDict d => match d with [] => false | _ => true end
  end.

(** [d.get(key)], with [JNull] for [None]; the list holds each key once. *)
Fixpoint dict_get (key : string) (d : list (string * JSON)) : JSON :=
  match d with
  | [] => JNull
  | (k, v) :: d' => if decide (k = key) then v else dict_get key d'
  end.

(** [x or d] *)
Definition py_or (x d : JSON) : JSON := if py_truthy x then x else d.

(** [s.split(",")] *)
Fixpoint split_comma (s : string) : list string :=
  match s with
  | EmptyString => [EmptyString]
  | String c s' =>
      if decide (c = ","%char) then EmptyString :: split_comma s'
      else match split_comma s' with
           | h :: t => String c h :: t
           | [] => [String c EmptyString]
           end
  end.

(** *** [extract_json_from_text] *)

(** [text[text.find(c):]], [None] when [find] returns -1. *)
Fixpoint find_from (c : ascii) (s : string) : option string :=
  match s with
  | EmptyString => None
  | String ch s' => if decide (ch = c) then Some s else find_from c s'
  end.

Definition is_open (ch : ascii) : bool :=
  bool_decide (ch = "{"%char) || bool_decide (ch = "["%char).
Definition is_close (ch : ascii) : bool :=
  bool_decide (ch = "}"%char) || bool_decide (ch = "]"%char).

(** The loop [for i in range(start_idx, len(text))] over the characters
    [s] still to read; [seen] holds, last first, those read since
    [start_idx].  The result is the [candidate], or [None] when the loop
    breaks or runs out of characters without one. *)
Fixpoint bracket_scan (stack : list ascii) (s : string) (seen : string)
  : option string :=
  match s with
  | EmptyString => None
  | String ch s' =>
      if is_open ch then bracket_scan (ch :: stack) s' (String ch seen)
      else if is_close ch then
        match stack with
        | [] => None
        | _ :: stack' =>
            match stack' with
            | [] => Some (Str.reverse (String ch seen))
            | _ => bracket_scan stack' s' (String ch seen)
            end
        end
      else bracket_scan stack s' (String ch seen)
  end.

Section Parsing.

(** [json.loads], with [None] when it raises. *)
Variable loads : string -> option JSON.

(** [repr] of a list or dictionary. *)
Variable py_repr : JSON -> string.

(** One turn of the loop [for start_ch in ('{', '[')]. *)
Definition try_bracket (start_ch : ascii) (text : string) : option JSON :=
  match find_from start_ch text with
  | None => None
  | Some rest =>
      match bracket_scan [] rest EmptyString with
      | Some candidate => loads candidate
      | None => None
      end
  end.

(** The result is [None] for Python's [None]. *)
Definition extract_json_from_text (text : option string) : option JSON :=
  let text := Str.strip (str_or text "") in
  if negb (Str.truthy text) then None
  else
    match loads text with
    | Some v => Some v
    | None =>
        match try_bracket "{"%char text with
        | Some v => Some v
        | None => try_bracket "["%char text
        end
    end.

(** [str(a)] *)
Definition py_str (a : JSON) : string :=
  match a with
  | JStr s => s
  | JNull => "None"
  | JBool true => "True"
  | JBool false => "False"
  | JNum _ repr => repr
  | _ => py_repr a
  end.

(** [[str(a).strip().lower() for a in answers if str(a).strip()]] *)
Definition norm_answers (answers : list JSON) : list string :=
  map (fun a => Str.lower (Str.strip (py_str a)))
    (List.filter (fun a => Str.truthy (Str.strip (py_str a))) answers).

(** What one turn of the loop [for p in candidate_list] does. *)
Inductive Accepted :=
  | Skip
  | Keep (p : Prompt)
  | RaiseAttributeError.

Definition accept_candidate (p : JSON) : Accepted :=
  match p with
  | JDict pd =>
      match py_or (dict_get "text" pd) (JStr "") with
      | JStr raw_text =>
          let text := Str.strip raw_text in
          let answers :=
            match py_or (dict_get "answers" pd) (JList []) with
            | JStr s =>
                JList (map JStr
                         (List.filter Str.truthy
                            (map Str.strip (split_comma s))))
            | v => v
            end in
          match answers with
          | JList l =>
              if negb (Str.truthy text) then Skip
              else
                match norm_answers l with
                | [] => Skip
                | norm => Keep (mkPrompt text norm)
                end
          | _ => Skip
          end
      | _ => RaiseAttributeError
      end
  | _ => Skip
  end.

(** The loop over [candidate_list]; [None] when a turn raises. *)
Fixpoint accept_loop (candidate_list : list JSON) (prompts : list Prompt)
  : option (list Prompt) :=
  match candidate_list with
  | [] => Some prompts
  | p :: rest =>
      match accept_candidate p with
      | Skip => accept_loop rest prompts
      | Keep q => accept_loop rest (prompts ++ [q])
      | RaiseAttributeError => None
      end
  end.

(** The list [prompts] before padding, from the value [parsed]. *)
Definition accept_prompts (parsed : option JSON) : option (list Prompt) :=
  match parsed with
  | Some (JDict d) =>
      match d, dict_get "prompts" d with
      | _ :: _, JList candidate_list => accept_loop candidate_list []
      | _, _ => Some []
      end
  | _ => Some []
  end.

(** How a call of [generate_room_prompts] on the model output
    [chat_text] ends. *)
Inductive GenResult :=
  | GenOk (ps : list Prompt)
  | GenError
  | GenOutOfFuel.

Definition generate_from_text (fuel : nat) (chat_text : string)
    (num_prompts : Z) : GenResult :=
  match accept_prompts (extract_json_from_text (Some chat_text)) with
  | None => GenError
  | Some prompts =>
      match generate_room_prompts fuel prompts num_prompts with
      | Some final => GenOk final
      | None => GenOutOfFuel
      end
  end.

End Parsing.

(** ** Further notions *)

(** A prompt as the program wants it: some text, at least one accepted
    answer, every answer non-empty and in lower case. *)
Definition prompt_ok (p : Prompt) : Prop :=
  pr_text p ≠ EmptyString
  /\ pr_answers p ≠ []
  /\ Forall (fun a => a ≠ EmptyString /\ Str.lower a = a) (pr_answers p).

(** A candidate object whose ["text"] is true in Python's sense and is
    not a string. *)
Definition bad_text (p : JSON) : Prop :=
  exists pd, p = JDict pd
    /\ py_truthy (dict_get "text" pd) = true
    /\ forall s, dict_get "text" pd ≠ JStr s.

(** The JSON object of a prompt with text [text] and answers [answers]. *)
Definition json_prompt (text : string) (answers : list string) : JSON :=
  JDict [("text", JStr text); ("answers", JList (map JStr answers))].

(** A valid room code. *)
Definition code_valid (room : string) : Prop :=
  Str.truthy room = true /\ Str.startswith "shout-" room = true.

(** Every bound socket belongs to a listed player whose socket it is. *)
Definition sockets_wf (r : Room) : Prop :=
  forall sid pid,
    socketToPlayerId r !! sid = Some pid ->
    pid ∈ player_ids (players r) /\ playerSockets r !! pid = Some sid.

Definition host_listed (r : Room) : Prop :=
  forall h, host r = Some h -> h ∈ player_ids (players r).

Definition room_inv (r : Room) : Prop :=
  sockets_wf r /\ host_listed r /\ 1 <= numRounds r <= MAX_ROUNDS.

Definition table_inv (s : Rooms) : Prop :=
  NoDup (map fst s)
  /\ Forall (fun kr => code_valid kr.1 /\ room_inv kr.2) s.

(** One pass of the padding loop over the candidates [cands], from the
    list [prompts] and the set [existing]. *)
Fixpoint pool_pass (num_prompts : Z) (cands prompts : list Prompt)
    (existing : gset string) : list Prompt * gset string :=
  match cands with
  | [] => (prompts, existing)
  | cand :: cands' =>
      if (Z.of_nat (length prompts) <? num_prompts)%Z then
        if decide (Str.lower (pr_text cand) ∈ existing)
        then pool_pass num_prompts cands' prompts existing
        else pool_pass num_prompts cands' (prompts ++ [cand])
               ({[Str.lower (pr_text cand)]} ∪ existing)
      else (prompts, existing)
  end.

(** The [awarded] list the scoring loop builds from index [i] on, for
    submitters who are players in [ps]. *)
Fixpoint awards_from (i : nat) (items : list AnswerEvent) (ps : list Player)
  : list Award :=
  match items with
  | [] => []
  | item :: rest =>
      mkAward (ae_playerId item)
        (default EmptyString (p_name <$> find_player (ae_playerId item) ps))
        (default 0 (points !! i)) (S i)
      :: awards_from (S i) rest ps
  end.

Definition is_join (e : Event) : bool :=
  match e with EvJoin _ _ _ => true | _ => false end.

(** The lower-cased texts of some prompts. *)
Definition lower_texts (ps : list Prompt) : list string :=
  map (fun p => Str.lower (pr_text p)) ps.

(** Two rooms: Ann alone in the first, Cy alone in the second. *)
Definition two_rooms : Rooms :=
  (run [ EvJoin "sidA" (mkJoinData (Some "shout-1") "Ann" "A" true) 90;
         EvJoin "sidC" (mkJoinData (Some "shout-2") "Cy" "C" true) 91 ]
     []).1.

(** The round ids under which [round-ended] was sent to [room] during
    the run of [es] from [s], in the order of the broadcasts. *)
Fixpoint finalized_ids (room : string) (es : list Event) (s : Rooms)
  : list nat :=
  match es with
  | [] => []
  | e :: es' =>
      let res := step e s in
      ((if existsb (round_ended_for room) res.1.2
        then [default 0%nat (roundId <$> rooms_get room res.1.1)]
        else [])
       ++ finalized_ids room es' res.1.1)%list
  end.

(** The [new-round] broadcasts to [room] among some effects. *)
Definition new_round_for (room : string) (e : Effect) : bool :=
  match e with
  | Emit (ToRoom k) (NewRound _ _ _ _) => bool_decide (k = room)
  | _ => false
  end.

(** A round played in the lobby, then the game started.  Ann (host) and
    Bob join and two prompts are generated; the host sends [next-round],
    which starts a round, and both answer it; then the host sends
    [start-game]. *)
Definition lobby_round_then_start : list Event :=
  [ EvJoin "sidA" (mkJoinData (Some "shout-1") "Ann" "A" true) 90;
    EvJoin "sidB" (mkJoinData (Some "shout-1") "Bob" "B" false) 91;
    EvGeneratePrompts "sidA" (mkGenData (Some "shout-1") None None (Some 2));
    EvGenerateTask "shout-1" 2
      (GenReturned [Scenario.color_prompt; Scenario.fruit_prompt2]);
    EvNextRound "sidA" (ArgStr "shout-1") 95;
    EvSubmitAnswer "sidA" (mkSubmitData (Some "shout-1") (Some "Red") "A") 96;
    EvSubmitAnswer "sidB" (mkSubmitData (Some "shout-1") (Some "blue") "B") 97;
    EvStartGame "sidA" (ArgStr "shout-1") GenRaised ].

(** The answers of Ann and Bob, sent again after the start. *)
Definition answers_again : list Event :=
  [ EvSubmitAnswer "sidA" (mkSubmitData (Some "shout-1") (Some "Red") "A") 101;
    EvSubmitAnswer "sidB" (mkSubmitData (Some "shout-1") (Some "blue") "B")
      102 ].

(** A room whose only player has left: Ann joins and disconnects. *)
Definition abandoned : Rooms :=
  (run [ EvJoin "sidA" (mkJoinData (Some "shout-1") "Ann" "A" true) 90;
         EvDisconnect "sidA" ] []).1.

(** * Properties *)

(** ** The room table *)

Lemma rooms_get_set_eq room r s : rooms_get room (rooms_set room r s) = Some r.
Proof.
  induction s as [|[k r0] s IH]; simpl.
  - by rewrite decide_True.
  - destruct (decide (k = room)) as [->|Hne]; simpl.
    + by rewrite decide_True.
    + by rewrite decide_False.
Qed.

Lemma rooms_get_set_ne room room' r s :
  room ≠ room' -> rooms_get room' (rooms_set room r s) = rooms_get room' s.
Proof.
  intros Hne. induction s as [|[k r0] s IH]; simpl.
  - by rewrite decide_False.
  - destruct (decide (k = room)) as [->|Hk]; simpl.
    + by rewrite !decide_False.
    + destruct (decide (k = room')); [done | apply IH].
Qed.

Lemma rooms_set_id room r s : rooms_get room s = Some r -> rooms_set room r s = s.
Proof.
  induction s as [|[k r0] s IH]; simpl; [done|].
  destruct (decide (k = room)) as [->|Hk]; intros H.
  - by inversion H.
  - by rewrite IH.
Qed.

Lemma rooms_set_set room r1 r2 s :
  rooms_set room r2 (rooms_set room r1 s) = rooms_set room r2 s.
Proof.
  induction s as [|[k r0] s IH]; simpl.
  - by rewrite decide_True.
  - destruct (decide (k = room)) as [->|Hk]; simpl.
    + by rewrite decide_True.
    + by rewrite decide_False, IH.
Qed.

(** ** The sort of [apply_scoring_from_order] is a stable ascending sort *)

Lemma insert_by_ts_perm x l : Permutation (insert_by_ts x l) (x :: l).
Proof.
  induction l as [|y l IH]; simpl; [done|].
  destruct (ae_ts x <=? ae_ts y)%Z; [done|].
  rewrite IH. apply perm_swap.
Qed.

Lemma sort_by_ts_perm l : Permutation (sort_by_ts l) l.
Proof.
  induction l as [|x l IH]; simpl; [done|].
  by rewrite insert_by_ts_perm, IH.
Qed.

Lemma insert_by_ts_hd x l a :
  HdRel ts_le a l -> ts_le a x -> HdRel ts_le a (insert_by_ts x l).
Proof.
  destruct l as [|y l]; simpl; intros Hl Hx.
  - by constructor.
  - destruct (ae_ts x <=? ae_ts y)%Z; constructor; [done|].
    by inversion Hl.
Qed.

Lemma insert_by_ts_sorted x l :
  Sorted ts_le l -> Sorted ts_le (insert_by_ts x l).
Proof.
  induction 1 as [|y l Hl IH Hhd]; simpl.
  - repeat constructor.
  - destruct (Z.leb_spec (ae_ts x) (ae_ts y)) as [Hle|Hgt].
    + constructor; [by constructor | by constructor].
    + constructor; [done|].
      apply insert_by_ts_hd; [done|]. unfold ts_le. lia.
Qed.

Lemma sort_by_ts_sorted l : Sorted ts_le (sort_by_ts l).
Proof.
  induction l as [|x l IH]; simpl; [constructor|].
  by apply insert_by_ts_sorted.
Qed.

(** Entries with equal time stamps keep their relative order. *)
Lemma insert_by_ts_stable t x l :
  filter (at_ts t) (insert_by_ts x l) = filter (at_ts t) (x :: l).
Proof.
  induction l as [|y l IH]; simpl; [done|].
  destruct (Z.leb_spec (ae_ts x) (ae_ts y)) as [Hle|Hgt]; [done|].
  rewrite (filter_cons _ y), IH, !(filter_cons _ x), (filter_cons _ y).
  destruct (decide (at_ts t x)) as [Hx|Hx];
    destruct (decide (at_ts t y)) as [Hy|Hy]; try done.
  unfold at_ts in *. lia.
Qed.

Lemma sort_by_ts_stable t l :
  filter (at_ts t) (sort_by_ts l) = filter (at_ts t) l.
Proof.
  induction l as [|x l IH]; simpl; [done|].
  by rewrite insert_by_ts_stable, !filter_cons, IH.
Qed.


(** ** The scoring loop *)

Lemma bump_0 p : bump 0 p = p.
Proof. destruct p; unfold bump; simpl. f_equal. lia. Qed.

Lemma bump_bump a b p : bump b (bump a p) = bump (a + b) p.
Proof. unfold bump; simpl. f_equal. lia. Qed.

Lemma player_ids_bump (f : Player -> Z) ps :
  player_ids (map (fun p => bump (f p) p) ps) = player_ids ps.
Proof. unfold player_ids. rewrite map_map. done. Qed.

Lemma find_player_None pid ps :
  find_player pid ps = None <-> pid ∉ player_ids ps.
Proof.
  unfold player_ids. induction ps as [|p ps IH]; simpl.
  - split; [intros _; apply not_elem_of_nil | done].
  - destruct (decide (p_playerId p = pid)) as [<-|Hne].
    + split; [done | intros H; exfalso; apply H; left].
    + rewrite IH, not_elem_of_cons. split; [by intros H; split | by intros [_ H]].
Qed.

Lemma find_player_Some pid ps p :
  find_player pid ps = Some p -> p ∈ ps /\ p_playerId p = pid.
Proof.
  induction ps as [|q ps IH]; simpl; [done|].
  destruct (decide (p_playerId q = pid)) as [Heq|Hne].
  - intros [= <-]. split; [left | done].
  - intros H. destruct (IH H). split; [by right | done].
Qed.

(** With distinct player ids, updating the first player with a given id
    is updating every player with that id. *)
Lemma add_score_map pid pts ps :
  NoDup (player_ids ps) ->
  add_score pid pts ps =
  map (fun p => bump (if decide (p_playerId p = pid) then pts else 0) p) ps.
Proof.
  unfold player_ids. induction ps as [|p ps IH]; simpl; [done|].
  intros Hnd. apply NoDup_cons in Hnd as [Hp Hnd].
  destruct (decide (p_playerId p = pid)) as [Heq|Hne].
  - f_equal. symmetry. rewrite <- (map_id ps) at 2.
    apply map_ext_in. intros q Hq.
    rewrite decide_False; [apply bump_0|].
    intros Hq'. apply Hp. rewrite <- Heq in Hq'. rewrite <- Hq'.
    apply list_elem_of_In in Hq. by apply list_elem_of_fmap_2.
  - rewrite bump_0. f_equal. by apply IH.
Qed.

Lemma rank_of_None pid l : rank_of pid l = None <-> pid ∉ submitter_ids l.
Proof.
  unfold submitter_ids. induction l as [|a l IH]; simpl.
  - split; [intros _; apply not_elem_of_nil | done].
  - destruct (decide (ae_playerId a = pid)) as [<-|Hne].
    + split; [done | intros H; exfalso; apply H; left].
    + rewrite not_elem_of_cons. destruct (rank_of pid l); simpl.
      * split; [done|]. intros [_ H]. by apply IH in H.
      * split; [|done]. intros _. split; [done | by apply IH].
Qed.

Lemma loop_bonus_cons i a items pid pts :
  points !! i = Some pts ->
  loop_bonus i (a :: items) pid =
  if decide (ae_playerId a = pid) then pts else loop_bonus (S i) items pid.
Proof.
  intros Hpts. unfold loop_bonus. cbn [rank_of].
  destruct (decide (ae_playerId a = pid)) as [Heq|Hne].
  - by rewrite Nat.add_0_r, Hpts.
  - destruct (rank_of pid items) as [k|]; [|done].
    cbn [fmap option_fmap option_map].
    by replace (i + S k)%nat with (S i + k)%nat by lia.
Qed.

Lemma loop_bonus_absent i items pid :
  pid ∉ submitter_ids items -> loop_bonus i items pid = 0.
Proof. intros H. apply rank_of_None in H. unfold loop_bonus. by rewrite H. Qed.

Lemma scoring_loop_players i items ps aw :
  NoDup (player_ids ps) ->
  NoDup (submitter_ids items) ->
  (i + length items <= 3)%nat ->
  (scoring_loop i items ps aw).1 =
  map (fun p => bump (loop_bonus i items (p_playerId p)) p) ps.
Proof.
  revert i ps aw. induction items as [|a items IH]; intros i ps aw Hps Hit Hlen.
  - cbn [scoring_loop fst]. rewrite <- (map_id ps) at 1. apply map_ext.
    intros p. by rewrite bump_0.
  - cbn [length] in Hlen. unfold submitter_ids in Hit. cbn [map] in Hit.
    apply NoDup_cons in Hit as [Ha Hit].
    destruct (lookup_lt_is_Some_2 points i) as [pts Hpts].
    { unfold points. cbn [length]. lia. }
    cbn [scoring_loop].
    destruct (find_player (ae_playerId a) ps) as [pl|] eqn:Hfind.
    + rewrite Hpts. rewrite IH; [| | done | lia].
      * rewrite add_score_map by done. rewrite map_map.
        apply map_ext. intros q. rewrite bump_bump. f_equal.
        rewrite (loop_bonus_cons _ _ _ _ _ Hpts).
        change (p_playerId (bump ?x q)) with (p_playerId q).
        destruct (decide (p_playerId q = ae_playerId a)) as [Heq|Hne].
        -- rewrite decide_True by done.
           rewrite Heq, loop_bonus_absent by done. lia.
        -- rewrite decide_False by done. lia.
      * rewrite add_score_map by done. by rewrite player_ids_bump.
    + rewrite IH; [| done | done | lia].
      apply map_ext_in. intros q Hq. f_equal.
      rewrite (loop_bonus_cons _ _ _ _ _ Hpts).
      apply find_player_None in Hfind.
      rewrite decide_False; [done|].
      intros Heq. apply Hfind. rewrite Heq.
      apply list_elem_of_In in Hq. by apply list_elem_of_fmap_2.
Qed.

Lemma loop_bonus_take3 order pid :
  loop_bonus 0 (take 3 order) pid = bonus (rank_of pid order).
Proof.
  unfold loop_bonus.
  destruct order as [|a [|b [|c rest]]]; cbn [take rank_of]; try done.
  - by destruct (decide (ae_playerId a = pid)).
  - destruct (decide (ae_playerId a = pid)); [done|].
    by destruct (decide (ae_playerId b = pid)).
  - destruct (decide (ae_playerId a = pid)); [done|].
    destruct (decide (ae_playerId b = pid)); [done|].
    destruct (decide (ae_playerId c = pid)); [done|].
    by destruct (rank_of pid rest).
Qed.

Lemma correct_order_perm r :
  Permutation (correct_order r) (filter is_correct (answer_order r)).
Proof. apply sort_by_ts_perm. Qed.

Lemma correct_order_NoDup r :
  NoDup (submitter_ids (answer_order r)) ->
  NoDup (submitter_ids (correct_order r)).
Proof.
  intros Hnd. unfold submitter_ids. rewrite (correct_order_perm r).
  eapply sublist_NoDup; [exact Hnd|].
  apply fmap_sublist, sublist_filter.
Qed.

Lemma rank_of_lookup order k a :
  NoDup (submitter_ids order) ->
  order !! k = Some a -> rank_of (ae_playerId a) order = Some k.
Proof.
  unfold submitter_ids. revert k.
  induction order as [|b order IH]; intros k Hnd Hk; [done|].
  cbn [map] in Hnd. apply NoDup_cons in Hnd as [Hb Hnd].
  cbn [rank_of]. destruct k as [|k]; simpl in Hk.
  - inversion Hk; subst. by rewrite decide_True.
  - rewrite decide_False.
    + by rewrite (IH k Hnd Hk).
    + intros Heq. apply Hb. rewrite Heq.
      apply list_elem_of_fmap_2. by eapply list_elem_of_lookup_2.
Qed.

Lemma apply_scoring_players r :
  NoDup (player_ids (players r)) ->
  NoDup (submitter_ids (answer_order r)) ->
  players (apply_scoring_from_order r).1 =
  map (fun p => bump (bonus (rank_of (p_playerId p) (correct_order r))) p)
    (players r).
Proof.
  intros Hps Hao. unfold apply_scoring_from_order.
  pose proof (scoring_loop_players 0 (take 3 (correct_order r)) (players r) [])
    as Hloop.
  destruct (scoring_loop 0 (take 3 (correct_order r)) (players r) [])
    as [ps aw]. cbn [fst set_players players]. cbn [fst] in Hloop.
  rewrite Hloop.
  - apply map_ext. intros p. by rewrite loop_bonus_take3.
  - done.
  - eapply sublist_NoDup; [by apply correct_order_NoDup|].
    apply fmap_sublist, sublist_take.
  - rewrite length_take. lia.
Qed.

(** The scoring on a room with unique player ids and distinct
    submitters. *)
Lemma scoring_awards_general (r : Room) :
  NoDup (player_ids (players r)) ->
  NoDup (submitter_ids (answer_order r)) ->
  let correct := filter is_correct (answer_order r) in
  let order := correct_order r in
  Permutation order correct
  /\ Sorted ts_le order
  /\ (forall t, filter (at_ts t) order = filter (at_ts t) correct)
  /\ (forall k a, order !! k = Some a ->
        rank_of (ae_playerId a) order = Some k)
  /\ players (apply_scoring_from_order r).1 =
       map (fun p => bump (bonus (rank_of (p_playerId p) order)) p) (players r)
  /\ bonus (Some 0%nat) = 5 /\ bonus (Some 1%nat) = 3 /\ bonus (Some 2%nat) = 2
  /\ (forall k, (3 <= k)%nat -> bonus (Some k) = 0)
  /\ (forall a, a ∈ answer_order r -> ae_isCorrect a = false ->
        bonus (rank_of (ae_playerId a) order) = 0)
  /\ (forall pid, pid ∉ submitter_ids (answer_order r) ->
        bonus (rank_of pid order) = 0).
Proof.
  intros Hps Hao correct order.
  assert (Hord : NoDup (submitter_ids order)) by by apply correct_order_NoDup.
  assert (Habsent : forall pid, pid ∉ submitter_ids correct ->
                                bonus (rank_of pid order) = 0).
  { intros pid Hpid.
    assert (Hnone : rank_of pid order = None); [|by rewrite Hnone].
    apply rank_of_None. unfold submitter_ids, order.
    by rewrite (correct_order_perm r). }
  split; [apply correct_order_perm|].
  split; [apply sort_by_ts_sorted|].
  split; [intros t; apply sort_by_ts_stable|].
  split; [intros k a; by apply rank_of_lookup|].
  split; [by apply apply_scoring_players|].
  do 3 (split; [done|]).
  split; [by intros [|[|[|k]]] Hk; try lia|].
  split.
  - intros a Ha Hwrong. apply Habsent. unfold submitter_ids, correct.
    intros (b & Hid & Hb)%list_elem_of_fmap.
    apply list_elem_of_filter in Hb as [Hb1 Hb2].
    assert (a = b); [|subst b; unfold is_correct in Hb1; congruence].
    apply list_elem_of_lookup_1 in Ha as [i Hi].
    apply list_elem_of_lookup_1 in Hb2 as [j Hj].
    assert (i = j); [|congruence].
    eapply NoDup_lookup; [exact Hao | |].
    + unfold submitter_ids. by rewrite list_lookup_fmap, Hi.
    + unfold submitter_ids. rewrite list_lookup_fmap, Hj. simpl. by rewrite Hid.
  - intros pid Hpid. apply Habsent. intros Hin. apply Hpid.
    unfold submitter_ids in *.
    eapply elem_of_sublist; [exact Hin|].
    apply fmap_sublist, sublist_filter.
Qed.

(** ** Well-formed rooms *)

Lemma rooms_wf_get room r s :
  rooms_wf s -> rooms_get room s = Some r -> room_wf r.
Proof.
  unfold rooms_wf. induction s as [|[k r0] s IH]; simpl; [done|].
  intros Hwf. apply Forall_cons in Hwf as [H0 Hwf].
  destruct (decide (k = room)); [by intros [= <-] | by apply IH].
Qed.

Lemma rooms_wf_set room r s :
  rooms_wf s -> room_wf r -> rooms_wf (rooms_set room r s).
Proof.
  unfold rooms_wf. intros Hwf Hr.
  induction s as [|[k r0] s IH]; simpl.
  - by constructor.
  - apply Forall_cons in Hwf as [H0 Hwf].
    destruct (decide (k = room)); constructor; auto.
Qed.

Lemma rooms_wf_pop room s : rooms_wf s -> rooms_wf (rooms_pop room s).
Proof.
  unfold rooms_wf. induction s as [|[k r0] s IH]; simpl; [done|].
  intros Hwf. apply Forall_cons in Hwf as [H0 Hwf].
  destruct (decide (k = room)); [done | constructor; auto].
Qed.

(** [room_wf] only reads three fields. *)
Lemma room_wf_ext r r' :
  players r' = players r -> answers r' = answers r ->
  answer_order r' = answer_order r -> room_wf r -> room_wf r'.
Proof. unfold room_wf. by intros -> -> ->. Qed.

(** A room whose player ids are those of a well-formed room and whose
    round has just been reset is well formed. *)
Lemma room_wf_reset r r' :
  player_ids (players r') = player_ids (players r) ->
  answers r' = ∅ -> answer_order r' = [] -> room_wf r -> room_wf r'.
Proof.
  unfold room_wf. intros -> -> -> (Hps & _). split; [done|].
  split; [constructor|]. split.
  - intros pid. rewrite lookup_empty. split.
    + by intros ?%elem_of_nil.
    + by intros ?%is_Some_None.
  - intros pid. rewrite lookup_empty. by intros ?%is_Some_None.
Qed.

Lemma room_wf_new now : room_wf (new_room now).
Proof.
  unfold room_wf, new_room; simpl. split; [constructor|].
  split; [constructor|]. split.
  - intros pid. rewrite lookup_empty. split.
    + by intros ?%elem_of_nil.
    + by intros ?%is_Some_None.
  - intros pid. rewrite lookup_empty. by intros ?%is_Some_None.
Qed.

Lemma add_score_ids pid pts ps :
  player_ids (add_score pid pts ps) = player_ids ps.
Proof.
  unfold player_ids. induction ps as [|p ps IH]; simpl; [done|].
  destruct (decide (p_playerId p = pid)); simpl; [done | by rewrite IH].
Qed.

Lemma scoring_loop_ids i items ps aw :
  player_ids (scoring_loop i items ps aw).1 = player_ids ps.
Proof.
  revert i ps aw. induction items as [|a items IH]; intros i ps aw; [done|].
  cbn [scoring_loop].
  destruct (find_player (ae_playerId a) ps); [|apply IH].
  destruct (points !! i); [|apply IH].
  by rewrite IH, add_score_ids.
Qed.

Lemma apply_scoring_ids r :
  player_ids (players (apply_scoring_from_order r).1) = player_ids (players r).
Proof.
  unfold apply_scoring_from_order.
  pose proof (scoring_loop_ids 0 (take 3 (correct_order r)) (players r) [])
    as H.
  by destruct (scoring_loop 0 (take 3 (correct_order r)) (players r) []).
Qed.

Lemma apply_scoring_fields r :
  let r' := (apply_scoring_from_order r).1 in
  answers r' = answers r /\ answer_order r' = answer_order r
  /\ roundEnded r' = roundEnded r /\ roundId r' = roundId r
  /\ currentRound r' = currentRound r /\ numRounds r' = numRounds r.
Proof.
  unfold apply_scoring_from_order.
  by destruct (scoring_loop 0 (take 3 (correct_order r)) (players r) []).
Qed.

(** Changing scores keeps a room well formed. *)
Lemma room_wf_rescore r r' :
  player_ids (players r') = player_ids (players r) ->
  answers r' = answers r -> answer_order r' = answer_order r ->
  room_wf r -> room_wf r'.
Proof. unfold room_wf. by intros -> -> ->. Qed.

Lemma end_round_room_wf room r : room_wf r -> room_wf (end_round_room room r).1.
Proof.
  intros Hwf. unfold end_round_room.
  destruct (roundEnded r); [done|].
  pose proof (apply_scoring_ids (set_roundEnded true r)) as Hids.
  pose proof (apply_scoring_fields (set_roundEnded true r)) as (Ha & Ho & _).
  destruct (apply_scoring_from_order (set_roundEnded true r)) as [r2 aw].
  cbn [fst] in *.
  destruct (numRounds r2 <=? Z.of_nat (currentRound r2))%Z; cbn [fst];
    by apply (room_wf_rescore r).
Qed.

Lemma start_round_room_wf room now r :
  room_wf r -> room_wf (start_round_room room now r).1.1.
Proof.
  intros Hwf. unfold start_round_room.
  destruct (numRounds r <=? Z.of_nat (currentRound r))%Z; cbn [fst].
  - by apply (room_wf_ext r).
  - destruct (prompts _ !! currentRound _); cbn [fst];
      by apply (room_wf_reset r).
Qed.

(** ** Joining *)

Lemma join_body_fields sid name pid flag now r :
  let r' := join_body sid name pid flag now r in
  players r' = joined_players name pid (players r)
  /\ answers r' = answers r /\ answer_order r' = answer_order r
  /\ roundEnded r' = roundEnded r /\ roundId r' = roundId r
  /\ currentRound r' = currentRound r /\ currentPrompt r' = currentPrompt r
  /\ numRounds r' = numRounds r /\ gameStarted r' = gameStarted r.
Proof.
  unfold join_body, joined_players. cbn [players set_lastActive].
  destruct (existing_idx pid (players r)) as [idx|];
    match goal with |- context [if ?b then _ else _] => destruct b end;
    done.
Qed.

Lemma existing_idx_Some pid ps idx :
  existing_idx pid ps = Some idx ->
  exists p, ps !! idx = Some p /\ find_player pid ps = Some p
            /\ p_playerId p = pid.
Proof.
  revert idx. induction ps as [|q ps IH]; intros idx; simpl; [done|].
  destruct (decide (p_playerId q = pid)) as [Heq|Hne].
  - intros [= <-]. by exists q.
  - destruct (existing_idx pid ps) as [j|]; [|done].
    intros [= <-]. destruct (IH j eq_refl) as (p & ? & ? & ?). by exists p.
Qed.

Lemma existing_idx_None pid ps :
  existing_idx pid ps = None -> find_player pid ps = None.
Proof.
  induction ps as [|q ps IH]; simpl; [done|].
  destruct (decide (p_playerId q = pid)); [done|].
  destruct (existing_idx pid ps); [done | auto].
Qed.

Lemma find_player_app pid ps qs :
  find_player pid (ps ++ qs) =
  match find_player pid ps with
  | Some p => Some p
  | None => find_player pid qs
  end.
Proof.
  induction ps as [|q ps IH]; simpl; [done|].
  by destruct (decide (p_playerId q = pid)).
Qed.

Lemma find_player_delete_ne pid pid' ps idx :
  existing_idx pid ps = Some idx -> pid' ≠ pid ->
  find_player pid' (delete idx ps) = find_player pid' ps.
Proof.
  revert idx. induction ps as [|q ps IH]; intros idx; simpl; [done|].
  destruct (decide (p_playerId q = pid)) as [Heq|Hne].
  - intros [= <-] Hpid. simpl. by rewrite decide_False by congruence.
  - destruct (existing_idx pid ps) as [j|]; [|done].
    intros [= <-] Hpid. simpl.
    destruct (decide (p_playerId q = pid')); [done | by apply IH].
Qed.

Lemma find_player_delete_eq pid ps idx :
  NoDup (player_ids ps) -> existing_idx pid ps = Some idx ->
  find_player pid (delete idx ps) = None.
Proof.
  unfold player_ids. revert idx.
  induction ps as [|q ps IH]; intros idx Hnd; simpl; [done|].
  cbn [map] in Hnd. apply NoDup_cons in Hnd as [Hq Hnd].
  destruct (decide (p_playerId q = pid)) as [Heq|Hne].
  - intros [= <-]. simpl. apply find_player_None. by rewrite <- Heq.
  - destruct (existing_idx pid ps) as [j|]; [|done].
    intros [= <-]. simpl. rewrite decide_False by done. by apply IH.
Qed.

(** The score a player has after a join of [pid]. *)
Lemma find_player_joined name pid ps pid' :
  NoDup (player_ids ps) ->
  p_score <$> find_player pid' (joined_players name pid ps) =
  if decide (pid' = pid)
  then Some (default 0 (p_score <$> find_player pid ps))
  else p_score <$> find_player pid' ps.
Proof.
  intros Hnd. unfold joined_players.
  destruct (existing_idx pid ps) as [idx|] eqn:Hidx.
  - destruct (existing_idx_Some _ _ _ Hidx) as (p & Hl & Hf & Hp).
    rewrite find_player_app, Hl, Hf. simpl.
    destruct (decide (pid' = pid)) as [->|Hne].
    + rewrite find_player_delete_eq by done. simpl. by rewrite decide_True.
    + rewrite (find_player_delete_ne pid) by done.
      destruct (find_player pid' ps); [done|].
      by rewrite decide_False.
  - apply existing_idx_None in Hidx. rewrite find_player_app, Hidx. simpl.
    destruct (decide (pid' = pid)) as [->|Hne].
    + rewrite Hidx. simpl. by rewrite decide_True.
    + destruct (find_player pid' ps); [done|].
      simpl. by rewrite decide_False.
Qed.

Lemma find_player_is_Some pid ps :
  is_Some (find_player pid ps) <-> pid ∈ player_ids ps.
Proof.
  rewrite <- not_eq_None_Some, find_player_None.
  split; [apply dec_stable | auto].
Qed.

Lemma joined_players_ids name pid ps pid' :
  NoDup (player_ids ps) ->
  pid' ∈ player_ids (joined_players name pid ps)
  <-> pid' = pid \/ pid' ∈ player_ids ps.
Proof.
  intros Hnd. rewrite <- !find_player_is_Some.
  rewrite <- !(fmap_is_Some p_score).
  rewrite find_player_joined by done.
  destruct (decide (pid' = pid)) as [->|Hne].
  - split; [by left | by eexists].
  - split; [by right | by intros [|]].
Qed.

Lemma joined_players_NoDup name pid ps :
  NoDup (player_ids ps) -> NoDup (player_ids (joined_players name pid ps)).
Proof.
  intros Hnd. unfold joined_players, player_ids.
  destruct (existing_idx pid ps) as [idx|] eqn:Hidx.
  - rewrite map_app. apply NoDup_app. split; [|split].
    + eapply sublist_NoDup; [exact Hnd|]. apply fmap_sublist, sublist_delete.
    + intros x Hx ->%list_elem_of_singleton.
      pose proof (find_player_delete_eq pid ps idx Hnd Hidx) as Hnone.
      by apply find_player_None in Hnone.
    + apply NoDup_singleton.
  - rewrite map_app. apply NoDup_app. split; [done|]. split.
    + intros x Hx ->%list_elem_of_singleton.
      apply existing_idx_None, find_player_None in Hidx. done.
    + apply NoDup_singleton.
Qed.

Lemma join_body_wf sid name pid flag now r :
  room_wf r -> room_wf (join_body sid name pid flag now r).
Proof.
  intros (Hps & Hao & Hans & Hin).
  destruct (join_body_fields sid name pid flag now r)
    as (Hp & Ha & Ho & _).
  unfold room_wf. rewrite Hp, Ha, Ho.
  split; [by apply joined_players_NoDup|]. split; [done|]. split; [done|].
  intros x Hx. apply joined_players_ids; [done|]. right. by apply Hin.
Qed.

(** ** Every handler keeps the rooms well formed *)

Lemma record_answer_wf pid raw c ts r :
  room_wf r -> answers r !! pid = None -> pid ∈ player_ids (players r) ->
  room_wf (record_answer pid raw c ts r).
Proof.
  intros (Hps & Hao & Hans & Hin) Hnew Hpid.
  unfold room_wf, record_answer, submitter_ids.
  cbn [players answers answer_order set_answer_order set_answers].
  rewrite map_app. cbn [map ae_playerId].
  split; [done|]. split; [|split].
  - apply NoDup_app. split; [done|]. split; [|apply NoDup_singleton].
    intros x Hx ->%list_elem_of_singleton.
    apply Hans in Hx. rewrite Hnew in Hx. by apply is_Some_None in Hx.
  - intros x. rewrite elem_of_app, list_elem_of_singleton, lookup_insert_is_Some.
    rewrite (Hans x). split.
    + intros [H| ->]; [|by left].
      destruct (decide (pid = x)); [by left | by right].
    + intros [->|[_ H]]; [by right | by left].
  - intros x. rewrite lookup_insert_is_Some.
    intros [<-|[_ H]]; [done | by apply Hin].
Qed.

Lemma end_round_wf room s : rooms_wf s -> rooms_wf (end_round room s).1.
Proof.
  intros Hwf. unfold end_round.
  destruct (rooms_get room s) as [r|] eqn:Hr; [|done].
  pose proof (end_round_room_wf room r (rooms_wf_get _ _ _ Hwf Hr)) as Hr'.
  destruct (end_round_room room r) as [r' eff]. cbn [fst] in *.
  by apply rooms_wf_set.
Qed.

Lemma start_round_wf room now s :
  rooms_wf s -> rooms_wf (start_round room now s).1.1.
Proof.
  intros Hwf. unfold start_round.
  destruct (rooms_get room s) as [r|] eqn:Hr; [|done].
  pose proof (start_round_room_wf room now r (rooms_wf_get _ _ _ Hwf Hr))
    as Hr'.
  destruct (start_round_room room now r) as [[r' eff] exn]. cbn [fst] in *.
  by apply rooms_wf_set.
Qed.

Lemma join_room_wf sid data now s :
  rooms_wf s -> rooms_wf (join_room sid data now s).1.1.
Proof.
  intros Hwf. unfold join_room.
  destruct (jd_room data) as [room|]; [|done].
  destruct (negb (Str.truthy room) || negb (Str.startswith "shout-" room));
    [done|].
  cbn [fst]. apply rooms_wf_set; [done|]. apply join_body_wf.
  destruct (rooms_get room s) as [r|] eqn:Hr.
  - by eapply rooms_wf_get.
  - apply room_wf_new.
Qed.

Lemma generate_prompts_handler_wf sid data s :
  rooms_wf s -> rooms_wf (generate_prompts_handler sid data s).1.1.
Proof.
  intros Hwf. unfold generate_prompts_handler.
  destruct (gd_room data) as [room|]; [|done]. cbn [rooms_get_opt].
  destruct (rooms_get room s) as [r|] eqn:Hr; [|done].
  destruct (not_host sid r); [done|]. cbn [fst].
  apply rooms_wf_set; [done|].
  apply (room_wf_ext r); try done. by eapply rooms_wf_get.
Qed.

Lemma generate_task_wf room n outcome s :
  rooms_wf s -> rooms_wf (generate_task room n outcome s).1.1.
Proof.
  intros Hwf. unfold generate_task. cbn [fst].
  destruct (rooms_get room s) as [r|] eqn:Hr; [|done].
  apply rooms_wf_set; [done|].
  apply (room_wf_ext r); try done. by eapply rooms_wf_get.
Qed.

Lemma start_game_wf sid data gen s :
  rooms_wf s -> rooms_wf (start_game sid data gen s).1.1.
Proof.
  intros Hwf. unfold start_game.
  destruct (start_game_room data) as [room|]; [|done].
  destruct (negb (Str.truthy room)); [done|].
  destruct (rooms_get room s) as [r|] eqn:Hr; [|done].
  destruct (not_host sid r); [done|].
  pose proof (rooms_wf_get _ _ _ Hwf Hr) as Hr'.
  destruct (negb (prompts_ready r)); cbn [gameStarted set_prompts_ready
    set_prompts set_numRounds];
    destruct (gameStarted r); cbn [fst];
    apply rooms_wf_set; try done;
    first [ by apply (room_wf_ext r) | by apply (room_wf_reset r) ].
Qed.

Lemma submit_answer_wf sid data ts s :
  rooms_wf s -> rooms_wf (submit_answer sid data ts s).1.1.
Proof.
  intros Hwf. unfold submit_answer.
  destruct (sd_room data) as [room|]; [|done]. cbn [rooms_get_opt].
  destruct (rooms_get room s) as [r|] eqn:Hr; [|done].
  destruct (currentPrompt r) as [prompt|]; [|done].
  destruct (roundEnded r); [done|].
  case_bool_decide as Hans; [done|].
  destruct (find_player (sd_playerId data) (players r)) as [pl|] eqn:Hpl;
    [|done].
  match goal with
  | |- context [rooms_set room ?r1 s] =>
      assert (Hs1 : rooms_wf (rooms_set room r1 s))
  end.
  { apply rooms_wf_set; [done|]. apply record_answer_wf.
    - by eapply rooms_wf_get.
    - by apply eq_None_not_Some.
    - apply find_player_is_Some. by rewrite Hpl. }
  match goal with |- context [if ?b then _ else _] => destruct b end;
    [|done].
  match goal with
  | |- context [end_round room ?s1] =>
      pose proof (end_round_wf room s1 Hs1) as Hend;
      destruct (end_round room s1) as [s2 eff]
  end.
  done.
Qed.

Lemma next_round_wf sid data now s :
  rooms_wf s -> rooms_wf (next_round sid data now s).1.1.
Proof.
  intros Hwf. unfold next_round.
  destruct (next_round_room data) as [room|]; [|done]. cbn [rooms_get_opt].
  destruct (rooms_get room s) as [r|]; [|done].
  destruct (not_host sid r); [done | by apply start_round_wf].
Qed.

Lemma disconnect_room_fields sid r r' :
  disconnect_room sid r = Some r' ->
  players r' = players r /\ answers r' = answers r
  /\ answer_order r' = answer_order r.
Proof.
  unfold disconnect_room.
  destruct (socketToPlayerId r !! sid) as [pid|]; [|done].
  destruct (negb (Str.truthy pid)); [done|].
  intros [= <-]. by case_bool_decide.
Qed.

Lemma disconnect_wf sid s : rooms_wf s -> rooms_wf (disconnect sid s).1.1.
Proof.
  unfold rooms_wf, disconnect. cbn [fst]. intros Hwf.
  apply Forall_fmap. eapply Forall_impl; [exact Hwf|].
  intros [k r] Hr. unfold compose. cbn [fst snd] in *.
  destruct (disconnect_room sid r) as [r'|] eqn:Hd; [|done].
  change (default r (Some r')) with r'.
  destruct (disconnect_room_fields _ _ _ Hd) as (? & ? & ?).
  by apply (room_wf_ext r).
Qed.

Lemma round_timer_wf room rid s :
  rooms_wf s -> rooms_wf (round_timer room rid s).1.1.
Proof.
  intros Hwf. unfold round_timer.
  destruct (rooms_get room s) as [r|]; [|done].
  destruct (bool_decide (roundId r = rid) && negb (roundEnded r)); [|done].
  pose proof (end_round_wf room s Hwf).
  by destruct (end_round room s).
Qed.

Lemma delayed_next_wf room now s :
  rooms_wf s -> rooms_wf (delayed_next room now s).1.1.
Proof.
  intros Hwf. unfold delayed_next.
  destruct (rooms_get room s) as [r|]; [|done].
  destruct (gameEnded r); [done | by apply start_round_wf].
Qed.

Lemma cleanup_wf room s : rooms_wf s -> rooms_wf (cleanup room s).1.1.
Proof.
  intros Hwf. unfold cleanup.
  destruct (rooms_get room s) as [r|]; [|done].
  case_bool_decide; [by apply rooms_wf_pop | done].
Qed.

Lemma step_wf e s : rooms_wf s -> rooms_wf (step e s).1.1.
Proof.
  destruct e; cbn [step];
    eauto using join_room_wf, generate_prompts_handler_wf, generate_task_wf,
      start_game_wf, start_round_wf, submit_answer_wf, next_round_wf,
      disconnect_wf, round_timer_wf, delayed_next_wf, cleanup_wf.
Qed.

Lemma run_wf es s : rooms_wf s -> rooms_wf (run es s).1.
Proof.
  revert s. induction es as [|e es IH]; intros s Hwf; [done|].
  cbn [run]. pose proof (step_wf e s Hwf) as H1.
  destruct (step e s) as [[s1 eff1] rep]. cbn [fst] in H1.
  specialize (IH s1 H1). by destruct (run es s1).
Qed.

Lemma reachable_wf s : reachable s -> rooms_wf s.
Proof. intros [es <-]. apply run_wf. constructor. Qed.

(** ** Stale timers, repeated answers, repeated starts *)

(** C2. A round-expiry timer whose captured round id is not the current
    round id of its room does nothing when it fires: the table is
    unchanged (so nothing is scored) and nothing is emitted. *)
Theorem stale_timer_is_noop (room : string) (local_round_id : nat)
    (s : Rooms) (r : Room) :
  rooms_get room s = Some r ->
  roundId r ≠ local_round_id ->
  step (EvRoundTimer room local_round_id) s = (s, [], RNone).
Proof.
  intros Hr Hstale. cbn [step]. unfold round_timer. rewrite Hr.
  by rewrite bool_decide_eq_false_2.
Qed.

Lemma stale_timer_is_noop_witness :
  step (EvRoundTimer Scenario.room 0) Scenario.round1
  = (Scenario.round1, [], RNone).
Proof.
  apply (stale_timer_is_noop Scenario.room 0 Scenario.round1
           (Scenario.the_room Scenario.round1)).
  - vm_compute. reflexivity.
  - vm_compute. lia.
Defined.

(** C8. Once a player has an entry in [answers], a further submission by
    that player changes nothing in the table (answers, answer order and
    scores included) and emits nothing. *)
Theorem repeated_answer_is_noop (sid : string) (data : SubmitData) (ts : Z)
    (room : string) (s : Rooms) (r : Room) :
  sd_room data = Some room ->
  rooms_get room s = Some r ->
  answered r (sd_playerId data) ->
  step (EvSubmitAnswer sid data ts) s = (s, [], RNone).
Proof.
  intros Hroom Hr Hans. cbn [step]. unfold submit_answer.
  rewrite Hroom. cbn [rooms_get_opt]. rewrite Hr.
  destruct (currentPrompt r); [|done].
  destruct (roundEnded r); [done|].
  by rewrite bool_decide_eq_true_2.
Qed.

Lemma repeated_answer_is_noop_witness :
  step Scenario.submitA Scenario.round1_A = (Scenario.round1_A, [], RNone).
Proof.
  apply (repeated_answer_is_noop _ _ _ Scenario.room Scenario.round1_A
           (Scenario.the_room Scenario.round1_A)).
  - vm_compute. reflexivity.
  - vm_compute. reflexivity.
  - vm_compute. eexists. reflexivity.
Defined.

(** C10. When the game of a room has started and its prompts are ready, a
    further [start-game] from the host is refused with
    "Game already started"; the table is unchanged and nothing is emitted
    or scheduled. *)
Theorem start_game_twice_refused (sid : string) (data : RoomArg)
    (gen : GenOutcome) (room : string) (s : Rooms) (r : Room) :
  start_game_room data = Some room ->
  Str.truthy room = true ->
  rooms_get room s = Some r ->
  not_host sid r = false ->
  gameStarted r = true ->
  prompts_ready r = true ->
  step (EvStartGame sid data gen) s = (s, [], RError "Game already started").
Proof.
  intros Hroom Hne Hr Hhost Hstarted Hready. cbn [step]. unfold start_game.
  rewrite Hroom, Hne. cbn [negb]. rewrite Hr, Hhost, Hready. cbn [negb].
  rewrite Hstarted. by rewrite (rooms_set_id _ _ _ Hr).
Qed.

Lemma start_game_twice_refused_witness :
  step (EvStartGame "sidA" (ArgStr Scenario.room) GenRaised) Scenario.round1_A
  = (Scenario.round1_A, [], RError "Game already started").
Proof.
  apply (start_game_twice_refused _ _ _ Scenario.room Scenario.round1_A
           (Scenario.the_room Scenario.round1_A));
    vm_compute; reflexivity.
Defined.

(** ** Clamping the requested number of prompts *)

Lemma clamp_num_prompts_range n :
  1 <= clamp_num_prompts n <= MAX_ROUNDS.
Proof.
  unfold clamp_num_prompts, DEFAULT_NUM_PROMPTS, MAX_ROUNDS.
  destruct (Z.ltb_spec n 1); cbn zeta.
  - cbn. lia.
  - destruct (Z.ltb_spec 15 n); lia.
Qed.

(** C5, as amended. A [generate-prompts] request by the host stores a
    number of rounds in [1, MAX_ROUNDS]: a request above [MAX_ROUNDS]
    stores [MAX_ROUNDS], a request within the interval is stored as it is,
    and a request below 1, like an absent one, stores
    [DEFAULT_NUM_PROMPTS]. *)
Theorem generate_prompts_clamps (sid : string) (data : GenData)
    (room : string) (s : Rooms) (r : Room) :
  gd_room data = Some room ->
  rooms_get room s = Some r ->
  not_host sid r = false ->
  exists r',
    rooms_get room (step (EvGeneratePrompts sid data) s).1.1 = Some r'
    /\ 1 <= numRounds r' <= MAX_ROUNDS
    /\ (forall n, gd_numPrompts data = Some n ->
          (MAX_ROUNDS < n -> numRounds r' = MAX_ROUNDS)
          /\ (1 <= n <= MAX_ROUNDS -> numRounds r' = n)
          /\ (n < 1 -> numRounds r' = DEFAULT_NUM_PROMPTS))
    /\ (gd_numPrompts data = None -> numRounds r' = DEFAULT_NUM_PROMPTS).
Proof.
  intros Hroom Hr Hhost. cbn [step]. unfold generate_prompts_handler.
  rewrite Hroom. cbn [rooms_get_opt]. rewrite Hr, Hhost. cbn [fst].
  eexists. split; [apply rooms_get_set_eq|].
  cbn [numRounds set_numRounds]. split; [apply clamp_num_prompts_range|].
  split.
  - intros n ->. unfold clamp_num_prompts, requested_num_prompts,
      DEFAULT_NUM_PROMPTS, MAX_ROUNDS.
    destruct (decide (n = 0)) as [->|Hn0].
    + cbn. lia.
    + destruct (Z.ltb_spec n 1); cbn zeta.
      * cbn. lia.
      * destruct (Z.ltb_spec 15 n); lia.
  - by intros ->.
Qed.

Lemma generate_prompts_clamps_witness :
  exists r',
    rooms_get Scenario.room
      (step (EvGeneratePrompts "sidA"
               (mkGenData (Some Scenario.room) None None (Some 40)))
         Scenario.round1).1.1 = Some r'
    /\ numRounds r' = MAX_ROUNDS.
Proof.
  destruct (generate_prompts_clamps "sidA"
              (mkGenData (Some Scenario.room) None None (Some 40))
              Scenario.room Scenario.round1
              (Scenario.the_room Scenario.round1))
    as (r' & Hr' & _ & Hn & _).
  - vm_compute. reflexivity.
  - vm_compute. reflexivity.
  - vm_compute. reflexivity.
  - exists r'. split; [exact Hr'|].
    apply (Hn 40); [reflexivity|]. unfold MAX_ROUNDS. lia.
Defined.

(** C5 as stated fails: a request of -3 by the host stores 10 rounds,
    not 1. *)
Lemma generate_prompts_below_one_counterexample :
  exists r',
    rooms_get Scenario.room
      (step (EvGeneratePrompts "sidA"
               (mkGenData (Some Scenario.room) None None (Some (-3))))
         Scenario.round1).1.1 = Some r'
    /\ numRounds r' = 10 /\ numRounds r' ≠ 1.
Proof.
  exists (Scenario.the_room
            (step (EvGeneratePrompts "sidA"
                     (mkGenData (Some Scenario.room) None None (Some (-3))))
               Scenario.round1).1.1).
  vm_compute. split; [reflexivity|]. split; [reflexivity | lia].
Qed.

(** ** Ending a round *)

Lemma end_round_room_ended room r :
  roundEnded r = true -> end_round_room room r = (r, []).
Proof. intros H. unfold end_round_room. by rewrite H. Qed.

(** What the first finalization of a round does to the room object. *)
Lemma end_round_room_active room r :
  roundEnded r = false ->
  let r' := (end_round_room room r).1 in
  let eff := (end_round_room room r).2 in
  roundEnded r' = true /\ roundId r' = roundId r
  /\ players r' = players (apply_scoring_from_order r).1
  /\ length (List.filter is_round_ended_msg eff) = 1%nat
  /\ existsb (round_ended_for room) eff = true
  /\ length (List.filter (round_ended_for room) eff) = 1%nat.
Proof.
  intros Hact. unfold end_round_room. rewrite Hact.
  unfold apply_scoring_from_order.
  change (correct_order (set_roundEnded true r)) with (correct_order r).
  change (players (set_roundEnded true r)) with (players r).
  destruct (scoring_loop 0 (take 3 (correct_order r)) (players r) [])
    as [ps aw].
  cbn [numRounds currentRound set_players set_roundEnded].
  destruct (numRounds r <=? Z.of_nat (currentRound r))%Z;
    cbn [fst snd List.filter is_round_ended_msg length existsb round_ended_for];
    rewrite bool_decide_eq_true_2 by done; done.
Qed.

Lemma round_timer_ended room rid s r :
  rooms_get room s = Some r -> roundEnded r = true ->
  round_timer room rid s = (s, [], RNone).
Proof.
  intros Hr Hend. unfold round_timer. rewrite Hr, Hend.
  by rewrite andb_false_r.
Qed.

Lemma submit_answer_ended sid data ts room s r :
  sd_room data = Some room -> rooms_get room s = Some r ->
  roundEnded r = true ->
  submit_answer sid data ts s = (s, [], RNone).
Proof.
  intros Hroom Hr Hend. unfold submit_answer.
  rewrite Hroom. cbn [rooms_get_opt]. rewrite Hr, Hend.
  by destruct (currentPrompt r).
Qed.

Lemma end_triggers_ended room es s r :
  rooms_get room s = Some r -> roundEnded r = true ->
  Forall (is_end_trigger room) es -> run es s = (s, []).
Proof.
  intros Hr Hend Hes. induction Hes as [|e es He Hes IH]; [done|].
  cbn [run]. destruct e; try done; cbn [is_end_trigger] in He; cbn [step].
  - by rewrite (submit_answer_ended _ _ _ _ _ _ He Hr Hend), IH.
  - subst. by rewrite (round_timer_ended _ _ _ _ Hr Hend), IH.
Qed.

(** One trigger sends at most one [round-ended] message to the room, and
    if it sends one the round is ended afterwards. *)
Lemma end_trigger_step room e s r :
  rooms_get room s = Some r -> is_end_trigger room e ->
  exists r', rooms_get room (step e s).1.1 = Some r'
    /\ (List.filter (round_ended_for room) (step e s).1.2 = []
        \/ (length (List.filter (round_ended_for room) (step e s).1.2) = 1%nat
            /\ roundEnded r' = true)).
Proof.
  intros Hr He.
  assert (Hend : forall s0 r0, rooms_get room s0 = Some r0 ->
            roundEnded r0 = false ->
            exists r', rooms_get room (end_round room s0).1 = Some r'
              /\ length (List.filter (round_ended_for room)
                           (end_round room s0).2) = 1%nat
              /\ roundEnded r' = true).
  { intros s0 r0 Hr0 Hact. unfold end_round. rewrite Hr0.
    destruct (end_round_room_active room r0 Hact)
      as (He' & _ & _ & _ & _ & Hone).
    destruct (end_round_room room r0) as [r1 eff]. cbn [fst snd] in *.
    exists r1. by rewrite rooms_get_set_eq. }
  destruct e; try done; cbn [is_end_trigger] in He; cbn [step].
  - unfold submit_answer. rewrite He. cbn [rooms_get_opt]. rewrite Hr.
    destruct (currentPrompt r) as [prompt|]; [|by exists r; auto].
    destruct (roundEnded r) eqn:Hact; [by exists r; auto|].
    case_bool_decide; [by exists r; auto|].
    destruct (find_player (sd_playerId data) (players r)) as [pl|];
      [|by exists r; auto].
    match goal with
    | |- context [rooms_set room ?r1 s] =>
        pose proof (rooms_get_set_eq room r1 s) as Hr1;
        assert (Hact1 : roundEnded r1 = false) by done;
        destruct (Hend _ _ Hr1 Hact1) as (r' & Hr' & Hone & He');
        set (s1 := rooms_set room r1 s) in *;
        set (r0 := r1) in *
    end.
    match goal with |- context [if ?b then _ else _] => destruct b end.
    + destruct (end_round room s1) as [s2 eff]. cbn [fst snd] in *.
      exists r'. split; [done|]. right. by split.
    + exists r0. split; [done|]. by left.
  - subst room0. unfold round_timer. rewrite Hr.
    destruct (roundEnded r) eqn:Hact.
    + rewrite andb_false_r. exists r. auto.
    + case_bool_decide; cbn [andb negb]; [|by exists r; auto].
      destruct (Hend _ _ Hr Hact) as (r' & Hr' & Hone & He').
      destruct (end_round room s) as [s2 eff]. cbn [fst snd] in *.
      exists r'. split; [done|]. right. by split.
Qed.

(** However the triggers of a room interleave, at most one of them
    sends [round-ended]. *)
Lemma end_triggers_at_most_once room es s r :
  rooms_get room s = Some r -> Forall (is_end_trigger room) es ->
  (length (List.filter (round_ended_for room) (run es s).2) <= 1)%nat.
Proof.
  intros Hr Hes. revert s r Hr.
  induction Hes as [|e es He Hes IH]; intros s r Hr; [cbn; lia|].
  cbn [run]. destruct (end_trigger_step room e s r Hr He)
    as (r' & Hr' & Hcount).
  destruct (step e s) as [[s1 eff1] rep]. cbn [fst snd] in *.
  destruct Hcount as [Hnone|[Hone Hended]].
  - specialize (IH s1 r' Hr'). destruct (run es s1) as [s2 eff2].
    cbn [snd] in *. by rewrite List.filter_app, Hnone.
  - rewrite (end_triggers_ended room es s1 r' Hr' Hended Hes).
    cbn [snd]. rewrite app_nil_r. lia.
Qed.

(** What the guard of [end_round] does give.  When the round of a room
    is active, the first end-of-round trigger (the expiry timer of that
    round or a direct call of [end_round], as the all-answered path makes)
    emits exactly one [round-ended] message, applies the scoring once and
    sets [roundEnded]; the round id is unchanged.  After that, [end_round]
    itself and any sequence of further timers and submissions for the room
    leave the table unchanged and emit nothing: as long as only timers and
    submissions follow the active round, at most one [round-ended] message
    is sent.  Other events in between are not covered, and
    [round_id_finalized_twice] below shows that [start-game] is one that
    opens the round again. *)
Theorem end_round_at_most_once (room : string) (s : Rooms) (r : Room) :
  rooms_get room s = Some r ->
  roundEnded r = false ->
  let s1 := (end_round room s).1 in
  let eff1 := (end_round room s).2 in
  step (EvRoundTimer room (roundId r)) s = (s1, eff1, RNone)
  /\ length (List.filter is_round_ended_msg eff1) = 1%nat
  /\ (exists r1, rooms_get room s1 = Some r1
        /\ roundEnded r1 = true /\ roundId r1 = roundId r
        /\ players r1 = players (apply_scoring_from_order r).1)
  /\ end_round room s1 = (s1, [])
  /\ (forall es, Forall (is_end_trigger room) es -> run es s1 = (s1, []))
  /\ (forall es, Forall (is_end_trigger room) es ->
        (length (List.filter (round_ended_for room) (run es s).2) <= 1)%nat).
Proof.
  intros Hr Hact s1 eff1.
  destruct (end_round_room_active room r Hact) as (He & Hid & Hps & Hone & _ & _).
  assert (Hs1 : rooms_get room s1 = Some (end_round_room room r).1).
  { unfold s1, end_round. rewrite Hr.
    destruct (end_round_room room r). apply rooms_get_set_eq. }
  split; [|split; [|split; [|split; [|split]]]].
  6: { intros es Hes. by apply (end_triggers_at_most_once room es s r). }
  - cbn [step]. unfold round_timer. rewrite Hr, Hact.
    rewrite bool_decide_eq_true_2 by done. cbn [andb negb].
    unfold s1, eff1. by destruct (end_round room s).
  - unfold eff1, end_round. rewrite Hr.
    by destruct (end_round_room room r).
  - by exists (end_round_room room r).1.
  - unfold end_round at 1. rewrite Hs1.
    rewrite (end_round_room_ended _ _ He).
    by rewrite (rooms_set_id _ _ _ Hs1).
  - intros es Hes. by apply (end_triggers_ended room es s1 _ Hs1 He).
Qed.

Lemma end_round_at_most_once_witness :
  end_round Scenario.room (end_round Scenario.room Scenario.round1_A).1
  = ((end_round Scenario.room Scenario.round1_A).1, []).
Proof.
  apply (end_round_at_most_once Scenario.room Scenario.round1_A
           (Scenario.the_room Scenario.round1_A)).
  - vm_compute. reflexivity.
  - vm_compute. reflexivity.
Defined.

(** C1, which the code breaks.  A round can be finalized twice under one
    round id.  [start_game] sets [roundEnded] to [False] and [roundId] to
    0 and leaves [currentPrompt] in place, and [next-round] is not held
    back before the game has started.  So when the host has a round
    played in the lobby and then starts the game, the round of id 1 that
    [start_round] opens is the second one with that id: [round-ended] is
    sent twice under round id 1, the scoring is applied twice, and Ann,
    who answered the same prompt right both times, goes from 5 to 10
    points. *)
Theorem round_id_finalized_twice :
  let played :=
    (lobby_round_then_start ++ [EvStartRound "shout-1" 100]
       ++ answers_again)%list in
  finalized_ids "shout-1" played [] = [1%nat; 1%nat]
  /\ length (List.filter (round_ended_for "shout-1") (run played []).2)
     = 2%nat
  /\ map (fun e => match e with
                   | Emit _ (NewRound prompt _ _ _) => prompt
                   | _ => ""
                   end)
       (List.filter (new_round_for "shout-1") (run played []).2)
     = ["Name a primary color"; "Name a primary color"]
  /\ score_of "shout-1" "A" (run (firstn 7 played) []).1 = Some 5
  /\ score_of "shout-1" "A" (run played []).1 = Some 10.
Proof. vm_compute. repeat split; reflexivity. Qed.

(** The same without waiting for [start_round]: answers that arrive
    after [start-game] and before the scheduled [start_round] runs are
    taken for the round that had ended.  One [new-round], two
    [round-ended], the second under round id 0. *)
Example round_finalized_twice_before_start_round :
  let played := (lobby_round_then_start ++ answers_again)%list in
  length (List.filter (new_round_for "shout-1") (run played []).2) = 1%nat
  /\ length (List.filter (round_ended_for "shout-1") (run played []).2)
     = 2%nat
  /\ finalized_ids "shout-1" played [] = [1%nat; 0%nat]
  /\ score_of "shout-1" "A" (run played []).1 = Some 10.
Proof. vm_compute. repeat split; reflexivity. Qed.

(** ** Forcing the next round *)

(** C6, as amended. A [next-round] from the host is not ignored while a
    round is active.  Whether or not the current round has ended, if
    rounds remain and the next prompt exists, it starts the next round at
    once: the round id and the round counter go up by one, the answers of
    the interrupted round are dropped without being scored, and the
    [new-round] broadcast and a new expiry timer follow. *)
Theorem next_round_forces_new_round (sid : string) (data : RoomArg) (now : Z)
    (room : string) (s : Rooms) (r : Room) (prompt : Prompt) :
  next_round_room data = Some room ->
  rooms_get room s = Some r ->
  not_host sid r = false ->
  Z.of_nat (currentRound r) < numRounds r ->
  prompts r !! currentRound r = Some prompt ->
  exists r',
    step (EvNextRound sid data now) s =
      (rooms_set room r' s,
       [Emit (ToRoom room)
          (NewRound (pr_text prompt) (S (currentRound r)) (players r)
             ROUND_TIME);
        Spawn (RoundTimer room (S (roundId r)))],
       RNone)
    /\ roundId r' = S (roundId r)
    /\ currentRound r' = S (currentRound r)
    /\ currentPrompt r' = Some prompt
    /\ roundEnded r' = false
    /\ answers r' = ∅ /\ answer_order r' = []
    /\ players r' = players r.
Proof.
  intros Hroom Hr Hhost Hleft Hprompt. cbn [step]. unfold next_round.
  rewrite Hroom. cbn [rooms_get_opt]. rewrite Hr, Hhost.
  unfold start_round. rewrite Hr. unfold start_round_room.
  destruct (Z.leb_spec (numRounds r) (Z.of_nat (currentRound r))) as [|_];
    [lia|].
  cbn [prompts currentRound set_roundId set_roundEnded set_answer_order
       set_answers].
  rewrite Hprompt. eexists. split; [reflexivity|]. done.
Qed.

Lemma next_round_forces_new_round_witness :
  exists r',
    step (EvNextRound "sidA" (ArgStr Scenario.room) 105) Scenario.round1_A =
      (rooms_set Scenario.room r' Scenario.round1_A,
       [Emit (ToRoom Scenario.room)
          (NewRound (pr_text Scenario.fruit_prompt2)
             (S (currentRound (Scenario.the_room Scenario.round1_A)))
             (players (Scenario.the_room Scenario.round1_A)) ROUND_TIME);
        Spawn (RoundTimer Scenario.room
                 (S (roundId (Scenario.the_room Scenario.round1_A))))],
       RNone)
    /\ roundId r' = S (roundId (Scenario.the_room Scenario.round1_A)).
Proof.
  destruct (next_round_forces_new_round "sidA" (ArgStr Scenario.room) 105
              Scenario.room Scenario.round1_A
              (Scenario.the_room Scenario.round1_A) Scenario.fruit_prompt2)
    as (r' & Hstep & Hid & _).
  - vm_compute. reflexivity.
  - vm_compute. reflexivity.
  - vm_compute. reflexivity.
  - vm_compute. reflexivity.
  - vm_compute. reflexivity.
  - exists r'. split; [exact Hstep | exact Hid].
Defined.

(** C6 as stated fails: in round 1, active and with one answer in, a
    [next-round] from the host starts round 2, raises the round id from 1
    to 2 and broadcasts [new-round]. *)
Lemma next_round_active_counterexample :
  let s := Scenario.round1_A in
  let res := step (EvNextRound "sidA" (ArgStr Scenario.room) 105) s in
  is_Some (currentPrompt (Scenario.the_room s))
  /\ roundEnded (Scenario.the_room s) = false
  /\ roundId (Scenario.the_room s) = 1%nat
  /\ currentRound (Scenario.the_room s) = 1%nat
  /\ roundId (Scenario.the_room res.1.1) = 2%nat
  /\ currentRound (Scenario.the_room res.1.1) = 2%nat
  /\ existsb is_broadcast res.1.2 = true.
Proof. vm_compute. repeat split; try reflexivity. by eexists. Qed.

(** ** Ending a round because everybody has answered *)

(** With unique player ids and all submitters among the players, the
    test [len(r["answers"]) == len(r["players"])] says that every player
    has an answer recorded. *)
Lemma all_answered_size (ans : gmap string AnswerRec) (ps : list Player) :
  NoDup (player_ids ps) ->
  (forall pid, is_Some (ans !! pid) -> pid ∈ player_ids ps) ->
  size ans = length ps
  <-> (forall p, p ∈ ps -> is_Some (ans !! p_playerId p)).
Proof.
  intros Hnd Hsub.
  assert (Hdom : dom ans ⊆ (list_to_set (player_ids ps) : gset string)).
  { intros x Hx. apply elem_of_list_to_set, Hsub. by apply elem_of_dom. }
  assert (Hlen : size (list_to_set (player_ids ps) : gset string) = length ps).
  { rewrite size_list_to_set by done. unfold player_ids. apply length_map. }
  rewrite <- size_dom, <- Hlen. split.
  - intros Hsz p Hp.
    assert (Heq : dom ans = list_to_set (player_ids ps)).
    { apply set_subseteq_size_eq; [done | lia]. }
    apply elem_of_dom. rewrite Heq. apply elem_of_list_to_set.
    by apply list_elem_of_fmap_2.
  - intros Hall. f_equal. apply set_eq. intros x. split; [apply Hdom|].
    intros Hx%elem_of_list_to_set. unfold player_ids in Hx.
    apply list_elem_of_fmap in Hx as (p & -> & Hp).
    apply elem_of_dom. by apply Hall.
Qed.

(** C7, as amended. A submission to a room sends [round-ended] exactly
    when it is recorded (a round is active, the sender is a player of the
    room and has not answered yet) and then every player on the room's
    player list, whether still connected or not, has an answer recorded.
    In that case the round is finalized at once: the scoring is applied
    to the answer order extended by this submission and [roundEnded] is
    set. *)
Theorem submit_ends_round_iff_all_answered (sid : string) (data : SubmitData)
    (ts : Z) (room : string) (s : Rooms) (r : Room) :
  rooms_wf s ->
  sd_room data = Some room ->
  rooms_get room s = Some r ->
  let res := step (EvSubmitAnswer sid data ts) s in
  let pid := sd_playerId data in
  (existsb (round_ended_for room) res.1.2 = true
   <-> (is_Some (currentPrompt r) /\ roundEnded r = false
        /\ ~ answered r pid /\ pid ∈ player_ids (players r))
       /\ (forall p, p ∈ players r ->
             p_playerId p = pid \/ answered r (p_playerId p)))
  /\ (existsb (round_ended_for room) res.1.2 = true ->
      exists raw correct r1,
        let r0 := record_answer pid raw correct ts r in
        rooms_get room res.1.1 = Some r1
        /\ roundEnded r1 = true
        /\ players r1 = players (apply_scoring_from_order r0).1).
Proof.
  intros Hwf Hroom Hr res pid. subst res. cbn [step]. unfold submit_answer.
  rewrite Hroom. cbn [rooms_get_opt]. rewrite Hr. fold pid.
  pose proof (rooms_wf_get _ _ _ Hwf Hr) as (Hnd & _ & _ & Hin).
  destruct (currentPrompt r) as [prompt|];
    [|split; [split; [done | by intros [[[? [=]] _] _]] | done]].
  destruct (roundEnded r) eqn:Hend;
    [split; [split; [done | by intros [(_ & [=] & _) _]] | done]|].
  case_bool_decide as Hans;
    [split; [split; [done | by intros [(_ & _ & ? & _) _]] | done]|].
  destruct (find_player pid (players r)) as [pl|] eqn:Hpl.
  2:{ apply find_player_None in Hpl.
      split; [split; [done | by intros [(_ & _ & _ & ?) _]] | done]. }
  assert (Hpid : pid ∈ player_ids (players r)).
  { apply find_player_is_Some. by rewrite Hpl. }
  set (raw := Str.strip (str_or (sd_answer data) "")).
  set (correct := bool_decide
                    (Str.lower raw ∈ map Str.lower (pr_answers prompt))).
  set (r0 := record_answer pid raw correct ts r).
  assert (Hr0 : rooms_get room (rooms_set room r0 s) = Some r0)
    by apply rooms_get_set_eq.
  assert (Hact : roundEnded r0 = false) by done.
  assert (Hall : size (answers r0) = length (players r0)
                 <-> (forall p, p ∈ players r ->
                        p_playerId p = pid \/ answered r (p_playerId p))).
  { rewrite all_answered_size.
    - unfold r0, record_answer, answered.
      cbn [answers players set_answer_order set_answers].
      split; intros H p Hp; specialize (H p Hp).
      + apply lookup_insert_is_Some in H as [H|[_ H]]; [by left | by right].
      + apply lookup_insert_is_Some. destruct H as [H|H]; [by left|].
        destruct (decide (pid = p_playerId p)); [by left | by right].
    - done.
    - intros x. unfold r0, record_answer.
      cbn [answers players set_answer_order set_answers].
      rewrite lookup_insert_is_Some. intros [<-|[_ H]]; [done | by apply Hin]. }
  rewrite Hact. cbn [negb]. rewrite andb_true_r.
  case_bool_decide as Hsz.
  - unfold end_round. rewrite Hr0.
    destruct (end_round_room_active room r0 Hact) as (He & _ & Hps & _ & Hex & _).
    destruct (end_round_room room r0) as [r1 eff]. cbn [fst snd] in *.
    cbn [existsb round_ended_for orb]. rewrite Hex. split.
    + split; [intros _ | done]. split; [|by apply Hall].
      split; [by eexists|]. split; [done|]. split; [|done].
      unfold answered. by intros ?.
    + intros _. exists raw, correct, r1. split; [apply rooms_get_set_eq|].
      done.
  - cbn [fst snd existsb round_ended_for orb]. split; [|done].
    split; [done|]. intros [_ H]. by apply Hall in H.
Qed.

Lemma submit_ends_round_iff_all_answered_witness :
  existsb (round_ended_for Scenario.room)
    (step Scenario.submitB Scenario.round1_A).1.2 = true.
Proof.
  apply (submit_ends_round_iff_all_answered "sidB" _ 102 Scenario.room
           Scenario.round1_A (Scenario.the_room Scenario.round1_A)).
  - apply reachable_wf. exists (Scenario.setup ++ [Scenario.submitA])%list.
    unfold Scenario.round1_A. reflexivity.
  - vm_compute. reflexivity.
  - vm_compute. reflexivity.
  - split.
    + vm_compute. split; [by eexists|]. split; [reflexivity|].
      split; [by intros [x [=]]|]. apply list_elem_of_In. simpl. tauto.
    + assert (Hps : players (Scenario.the_room Scenario.round1_A)
                    = [mkPlayer "Ann" "A" 0; mkPlayer "Bob" "B" 0])
        by (vm_compute; reflexivity).
      rewrite Hps. intros p Hp. apply list_elem_of_In in Hp.
      destruct Hp as [<-|[<-|[]]].
      * right. vm_compute. by eexists.
      * left. reflexivity.
Defined.

(** C7 as stated fails: B has left during round 1, A is the only
    connected player and answers, yet the round is not ended, because B
    is still on the player list. *)
Lemma all_connected_answered_counterexample :
  let s := Scenario.round1_B_left in
  let res := step Scenario.submitA s in
  let r' := Scenario.the_room res.1.1 in
  roundEnded (Scenario.the_room s) = false
  /\ (forall p, p ∈ players r' -> connected r' (p_playerId p) ->
        answered r' (p_playerId p))
  /\ existsb is_round_ended_msg res.1.2 = false
  /\ roundEnded r' = false.
Proof.
  cbv zeta. split; [vm_compute; reflexivity|].
  split; [|vm_compute; done].
  assert (Hps : players (Scenario.the_room
                           (step Scenario.submitA Scenario.round1_B_left).1.1)
                = [mkPlayer "Ann" "A" 0; mkPlayer "Bob" "B" 0])
    by (vm_compute; reflexivity).
  rewrite Hps. intros p Hp Hconn. apply list_elem_of_In in Hp.
  destruct Hp as [<-|[<-|[]]].
  - vm_compute. by eexists.
  - exfalso. vm_compute in Hconn. by destruct Hconn as [x [=]].
Qed.

(** ** Scoring in the rooms the engine builds *)

(** C3. In every room of a reachable table, scoring sorts the correct
    submissions by ascending time stamp, keeping the submission order
    among equal time stamps, and adds 5, 3 and 2 points to the cumulative
    score of the first, second and third submitter of that order; every
    other player, in particular every incorrect submitter and every
    correct submitter beyond the third, gets nothing. *)
Theorem scoring_awards_first_three (s : Rooms) (room : string) (r : Room) :
  reachable s ->
  rooms_get room s = Some r ->
  let correct := filter is_correct (answer_order r) in
  let order := correct_order r in
  Permutation order correct
  /\ Sorted ts_le order
  /\ (forall t, filter (at_ts t) order = filter (at_ts t) correct)
  /\ (forall k a, order !! k = Some a ->
        rank_of (ae_playerId a) order = Some k)
  /\ players (apply_scoring_from_order r).1 =
       map (fun p => bump (bonus (rank_of (p_playerId p) order)) p) (players r)
  /\ bonus (Some 0%nat) = 5 /\ bonus (Some 1%nat) = 3 /\ bonus (Some 2%nat) = 2
  /\ (forall k, (3 <= k)%nat -> bonus (Some k) = 0)
  /\ (forall a, a ∈ answer_order r -> ae_isCorrect a = false ->
        bonus (rank_of (ae_playerId a) order) = 0)
  /\ (forall pid, pid ∉ submitter_ids (answer_order r) ->
        bonus (rank_of pid order) = 0).
Proof.
  intros Hreach Hr.
  destruct (rooms_wf_get _ _ _ (reachable_wf _ Hreach) Hr) as (Hps & Hao & _).
  by apply scoring_awards_general.
Qed.

Lemma scoring_awards_first_three_witness :
  let r := Scenario.the_room Scenario.round1_A in
  players (apply_scoring_from_order r).1 =
  map (fun p => bump (bonus (rank_of (p_playerId p) (correct_order r))) p)
    (players r).
Proof.
  apply (scoring_awards_first_three Scenario.round1_A Scenario.room
           (Scenario.the_room Scenario.round1_A)).
  - exists (Scenario.setup ++ [Scenario.submitA])%list.
    unfold Scenario.round1_A. reflexivity.
  - vm_compute. reflexivity.
Defined.

(** Four correct answers, two of them at the same time: C, the earliest,
    gets 5; A and B tie and keep their submission order, 3 and 2; D, the
    fourth, and E, who is wrong, get nothing. *)
Example scoring_tie_break :
  let r :=
    set_answer_order
      [mkAnswerEvent "E" 1 false "x"; mkAnswerEvent "A" 5 true "red";
       mkAnswerEvent "B" 5 true "red"; mkAnswerEvent "C" 3 true "red";
       mkAnswerEvent "D" 7 true "red"]
      (set_players
         [mkPlayer "a" "A" 10; mkPlayer "b" "B" 0; mkPlayer "c" "C" 1;
          mkPlayer "d" "D" 0; mkPlayer "e" "E" 4]
         (new_room 0)) in
  map p_score (players (apply_scoring_from_order r).1) = [13; 2; 6; 0; 4]
  /\ map aw_playerId (apply_scoring_from_order r).2 = ["C"; "A"; "B"].
Proof. vm_compute. split; reflexivity. Qed.

(** In the example game A answers "Red" and B answers " blue ": the
    round ends at once with 5 points for A and none for B. *)
Example scenario_scores :
  map (fun p => (p_playerId p, p_score p))
    (players (Scenario.the_room Scenario.round1_done))
  = [("A", 5); ("B", 0)].
Proof. vm_compute. reflexivity. Qed.

(** ** Scores never decrease *)

Lemma points_nonneg i pts : points !! i = Some pts -> 0 <= pts.
Proof.
  unfold points. destruct i as [|[|[|i]]]; cbn; intros [= <-]; lia.
Qed.

Lemma find_player_add_score pid pid' pts ps :
  find_player pid (add_score pid' pts ps) =
  bump (if decide (pid = pid') then pts else 0) <$> find_player pid ps.
Proof.
  induction ps as [|p ps IH]; cbn [add_score find_player]; [done|].
  destruct (decide (p_playerId p = pid')) as [Hp'|Hp'];
    cbn [find_player p_playerId].
  - destruct (decide (p_playerId p = pid)) as [Hp|Hp].
    + rewrite decide_True by congruence. done.
    + destruct (find_player pid ps) as [q|] eqn:Hq; [|done].
      cbn. f_equal. destruct (decide (pid = pid')); [|by rewrite bump_0].
      congruence.
  - destruct (decide (p_playerId p = pid)) as [Hp|Hp]; [|apply IH].
    rewrite decide_False by congruence. cbn. by rewrite bump_0.
Qed.

Lemma scoring_loop_score pid i items ps aw :
  exists d, 0 <= d
    /\ find_player pid (scoring_loop i items ps aw).1
       = bump d <$> find_player pid ps.
Proof.
  revert i ps aw. induction items as [|a items IH]; intros i ps aw.
  - exists 0. split; [lia|]. cbn [scoring_loop fst].
    destruct (find_player pid ps); cbn; [by rewrite bump_0 | done].
  - cbn [scoring_loop].
    destruct (find_player (ae_playerId a) ps); [|apply IH].
    destruct (points !! i) as [pts|] eqn:Hpts; [|apply IH].
    destruct (IH (S i) (add_score (ae_playerId a) pts ps)
                (aw ++ [mkAward (ae_playerId a) (p_name p) pts (S i)])%list)
      as (d & Hd & Heq).
    pose proof (points_nonneg _ _ Hpts).
    exists ((if decide (pid = ae_playerId a) then pts else 0) + d).
    split; [destruct (decide (pid = ae_playerId a)); lia|].
    rewrite Heq, find_player_add_score.
    destruct (find_player pid ps); cbn; [|done]. by rewrite bump_bump.
Qed.

Lemma end_round_room_score room r pid :
  exists d, 0 <= d
    /\ find_player pid (players (end_round_room room r).1)
       = bump d <$> find_player pid (players r)
    /\ (existsb (round_ended_for room) (end_round_room room r).2 = false ->
        d = 0).
Proof.
  destruct (roundEnded r) eqn:Hend.
  - rewrite end_round_room_ended by done. exists 0. split; [lia|].
    split; [|done]. cbn [fst].
    destruct (find_player pid (players r)); cbn; [by rewrite bump_0 | done].
  - destruct (end_round_room_active room r Hend) as (_ & _ & Hps & _ & Hex & _).
    rewrite Hps, Hex. unfold apply_scoring_from_order.
    destruct (scoring_loop_score pid 0 (take 3 (correct_order r))
                (players r) []) as (d & Hd & Heq).
    destruct (scoring_loop 0 (take 3 (correct_order r)) (players r) []).
    exists d. done.
Qed.

Lemma score_of_set room k pid r s :
  score_of room pid (rooms_set k r s) =
  if decide (k = room) then p_score <$> find_player pid (players r)
  else score_of room pid s.
Proof.
  unfold score_of. destruct (decide (k = room)) as [->|Hne].
  - by rewrite rooms_get_set_eq.
  - by rewrite rooms_get_set_ne.
Qed.

Lemma score_kept_refl room s eff : score_kept room s s eff.
Proof. intros pid sc H. exists sc. split; [done|]. split; [lia | done]. Qed.

Lemma score_kept_trans room s1 s2 s3 e1 e2 :
  score_kept room s1 s2 e1 -> score_kept room s2 s3 e2 ->
  score_kept room s1 s3 (e1 ++ e2).
Proof.
  intros H12 H23 pid sc H.
  destruct (H12 pid sc H) as (sc2 & H2 & Hle2 & Heq2).
  destruct (H23 pid sc2 H2) as (sc3 & H3 & Hle3 & Heq3).
  exists sc3. split; [done|]. split; [lia|].
  rewrite existsb_app. intros [H1 H2']%orb_false_iff.
  rewrite Heq3, Heq2 by done. done.
Qed.

(** Replacing a room object by one with the same player list. *)
Lemma score_kept_same_players room k r r' s eff :
  rooms_get k s = Some r -> players r' = players r ->
  score_kept room s (rooms_set k r' s) eff.
Proof.
  intros Hr Hps pid sc H. exists sc. split; [|split; [lia | done]].
  rewrite score_of_set. destruct (decide (k = room)) as [->|Hne]; [|done].
  unfold score_of in H. rewrite Hr in H. by rewrite Hps.
Qed.

Lemma end_round_score_kept room k s :
  score_kept room s (end_round k s).1 (end_round k s).2.
Proof.
  unfold end_round. destruct (rooms_get k s) as [r|] eqn:Hr;
    [|apply score_kept_refl].
  intros pid sc H.
  destruct (end_round_room_score k r pid) as (d & Hd & Heq & Hz).
  destruct (end_round_room k r) as [r' eff]. cbn [fst snd] in *.
  rewrite score_of_set. destruct (decide (k = room)) as [->|Hne].
  - unfold score_of in H. rewrite Hr in H. cbn in H. rewrite Heq.
    destruct (find_player pid (players r)) as [p|]; [|done].
    cbn in H. injection H as <-. exists (p_score p + d).
    split; [done|]. split; [lia|]. intros Hno. rewrite (Hz Hno). lia.
  - exists sc. split; [done|]. split; [lia | done].
Qed.

Lemma start_round_score_kept room k now s :
  score_kept room s (start_round k now s).1.1 (start_round k now s).1.2.
Proof.
  unfold start_round. destruct (rooms_get k s) as [r|] eqn:Hr;
    [|apply score_kept_refl].
  assert (Hps : players (start_round_room k now r).1.1 = players r).
  { unfold start_round_room.
    destruct (numRounds r <=? Z.of_nat (currentRound r))%Z; [done|].
    by destruct (prompts _ !! currentRound _). }
  destruct (start_round_room k now r) as [[r' eff] exn]. cbn [fst snd] in *.
  by eapply score_kept_same_players.
Qed.

Lemma join_effects_no_round_ended room sid k now r :
  existsb (round_ended_for room) (join_effects sid k now r) = false.
Proof.
  unfold join_effects.
  destruct (prompts_ready r), (currentPrompt r), (roundEnded r); done.
Qed.

Lemma join_room_score_kept room sid data now s :
  rooms_wf s ->
  score_kept room s (join_room sid data now s).1.1
    (join_room sid data now s).1.2.
Proof.
  intros Hwf. unfold join_room.
  destruct (jd_room data) as [k|]; [|apply score_kept_refl].
  destruct (negb (Str.truthy k) || negb (Str.startswith "shout-" k));
    [apply score_kept_refl|].
  cbn [fst snd]. intros pid sc H. exists sc.
  split; [|split; [lia | done]].
  rewrite score_of_set. destruct (decide (k = room)) as [->|Hne]; [|done].
  unfold score_of in H.
  destruct (rooms_get room s) as [r|] eqn:Hr; [|done]. cbn in H.
  destruct (join_body_fields sid (jd_name data) (jd_playerId data)
              (jd_isHost data) now r) as (Hps & _).
  rewrite Hps, find_player_joined.
  - destruct (decide (pid = jd_playerId data)) as [->|Hne]; [|done].
    by rewrite H.
  - by destruct (rooms_wf_get _ _ _ Hwf Hr).
Qed.

Lemma generate_prompts_handler_score_kept room sid data s :
  score_kept room s (generate_prompts_handler sid data s).1.1
    (generate_prompts_handler sid data s).1.2.
Proof.
  unfold generate_prompts_handler.
  destruct (gd_room data) as [k|]; [|apply score_kept_refl].
  cbn [rooms_get_opt].
  destruct (rooms_get k s) as [r|] eqn:Hr; [|apply score_kept_refl].
  destruct (not_host sid r); [apply score_kept_refl|].
  by eapply score_kept_same_players.
Qed.

Lemma generate_task_score_kept room k n outcome s :
  score_kept room s (generate_task k n outcome s).1.1
    (generate_task k n outcome s).1.2.
Proof.
  unfold generate_task. cbn [fst snd].
  destruct (rooms_get k s) as [r|] eqn:Hr; [|apply score_kept_refl].
  by eapply score_kept_same_players.
Qed.

Lemma start_game_score_kept room sid data gen s :
  score_kept room s (start_game sid data gen s).1.1
    (start_game sid data gen s).1.2.
Proof.
  unfold start_game.
  destruct (start_game_room data) as [k|]; [|apply score_kept_refl].
  destruct (negb (Str.truthy k)); [apply score_kept_refl|].
  destruct (rooms_get k s) as [r|] eqn:Hr; [|apply score_kept_refl].
  destruct (not_host sid r); [apply score_kept_refl|].
  destruct (negb (prompts_ready r)); cbn [gameStarted set_prompts_ready
    set_prompts set_numRounds];
    destruct (gameStarted r); cbn [fst snd];
    by eapply score_kept_same_players.
Qed.

Lemma submit_answer_score_kept room sid data ts s :
  score_kept room s (submit_answer sid data ts s).1.1
    (submit_answer sid data ts s).1.2.
Proof.
  unfold submit_answer.
  destruct (sd_room data) as [k|]; [|apply score_kept_refl].
  cbn [rooms_get_opt].
  destruct (rooms_get k s) as [r|] eqn:Hr; [|apply score_kept_refl].
  destruct (currentPrompt r) as [prompt|]; [|apply score_kept_refl].
  destruct (roundEnded r); [apply score_kept_refl|].
  case_bool_decide; [apply score_kept_refl|].
  destruct (find_player (sd_playerId data) (players r)) as [pl|];
    [|apply score_kept_refl].
  match goal with
  | |- context [rooms_set k ?r1 s] =>
      assert (Hrec : forall eff, score_kept room s (rooms_set k r1 s) eff)
        by (intros eff; by eapply score_kept_same_players)
  end.
  match goal with |- context [if ?b then _ else _] => destruct b end;
    [|apply Hrec].
  match goal with
  | |- context [end_round k ?s1] =>
      pose proof (end_round_score_kept room k s1) as Hend;
      destruct (end_round k s1) as [s2 eff]
  end.
  cbn [fst snd] in *.
  match goal with
  | |- score_kept _ _ _ (?e :: eff) =>
      change (e :: eff) with ([e] ++ eff)%list;
      eapply score_kept_trans; [apply Hrec | exact Hend]
  end.
Qed.

Lemma next_round_score_kept room sid data now s :
  score_kept room s (next_round sid data now s).1.1
    (next_round sid data now s).1.2.
Proof.
  unfold next_round.
  destruct (next_round_room data) as [k|]; [|apply score_kept_refl].
  cbn [rooms_get_opt].
  destruct (rooms_get k s) as [r|]; [|apply score_kept_refl].
  destruct (not_host sid r);
    [apply score_kept_refl | apply start_round_score_kept].
Qed.

Lemma rooms_get_map (g : Room -> Room) room s :
  rooms_get room (map (fun kr => (kr.1, g kr.2)) s) = g <$> rooms_get room s.
Proof.
  induction s as [|[k r] s IH]; cbn [map rooms_get fst snd]; [done|].
  by destruct (decide (k = room)).
Qed.

Lemma disconnect_no_round_ended room sid s :
  existsb (round_ended_for room) (disconnect sid s).1.2 = false.
Proof.
  unfold disconnect. cbn [fst snd]. generalize (default "" (last (map fst s))).
  intros k0. induction s as [|[k r] s IH]; cbn [flat_map]; [done|].
  rewrite existsb_app, IH, orb_false_r. cbn [snd].
  by destruct (disconnect_room sid r).
Qed.

Lemma disconnect_score_kept room sid s :
  score_kept room s (disconnect sid s).1.1 (disconnect sid s).1.2.
Proof.
  intros pid sc H. exists sc. split; [|split; [lia | done]].
  unfold disconnect. cbn [fst]. unfold score_of in *.
  rewrite (rooms_get_map (fun r => default r (disconnect_room sid r))).
  destruct (rooms_get room s) as [r|]; [|done]. cbn in *.
  destruct (disconnect_room sid r) as [r'|] eqn:Hd; [|done].
  destruct (disconnect_room_fields _ _ _ Hd) as (Hps & _).
  change (default r (Some r')) with r'. by rewrite Hps.
Qed.

Lemma round_timer_score_kept room k rid s :
  score_kept room s (round_timer k rid s).1.1 (round_timer k rid s).1.2.
Proof.
  unfold round_timer.
  destruct (rooms_get k s) as [r|]; [|apply score_kept_refl].
  destruct (bool_decide (roundId r = rid) && negb (roundEnded r));
    [|apply score_kept_refl].
  pose proof (end_round_score_kept room k s).
  by destruct (end_round k s).
Qed.

Lemma delayed_next_score_kept room k now s :
  score_kept room s (delayed_next k now s).1.1 (delayed_next k now s).1.2.
Proof.
  unfold delayed_next.
  destruct (rooms_get k s) as [r|]; [|apply score_kept_refl].
  destruct (gameEnded r);
    [apply score_kept_refl | apply start_round_score_kept].
Qed.

Lemma step_score_kept room e s :
  rooms_wf s -> is_cleanup e = false ->
  score_kept room s (step e s).1.1 (step e s).1.2.
Proof.
  intros Hwf Hnc. destruct e; cbn [step]; try done;
    eauto using join_room_score_kept, generate_prompts_handler_score_kept,
      generate_task_score_kept, start_game_score_kept,
      start_round_score_kept, submit_answer_score_kept,
      next_round_score_kept, disconnect_score_kept, round_timer_score_kept,
      delayed_next_score_kept.
Qed.

Lemma run_score_kept room es s :
  rooms_wf s -> Forall (fun e => is_cleanup e = false) es ->
  score_kept room s (run es s).1 (run es s).2.
Proof.
  intros Hwf Hes. revert s Hwf.
  induction Hes as [|e es He Hes IH]; intros s Hwf;
    [apply score_kept_refl|].
  cbn [run]. pose proof (step_score_kept room e s Hwf He) as H1.
  pose proof (step_wf e s Hwf) as Hwf1.
  destruct (step e s) as [[s1 eff1] rep]. cbn [fst snd] in *.
  specialize (IH s1 Hwf1). destruct (run es s1) as [s2 eff2].
  cbn [fst snd] in *. by eapply score_kept_trans.
Qed.

(** C9. Along any sequence of joins, rejoins, prompt generation, starts,
    submissions, round endings, forced next rounds and disconnects (every
    event of the engine but the removal of an idle room), from any
    reachable table, the cumulative score of a player never decreases, and
    it stays the same unless a [round-ended] message for the player's room
    was sent on the way, that is unless a round was finalized. *)
Theorem scores_never_decrease (es : list Event) (s : Rooms)
    (room pid : string) (sc : Z) :
  reachable s ->
  Forall (fun e => is_cleanup e = false) es ->
  score_of room pid s = Some sc ->
  exists sc',
    score_of room pid (run es s).1 = Some sc' /\ sc <= sc'
    /\ (existsb (round_ended_for room) (run es s).2 = false -> sc' = sc).
Proof.
  intros Hreach Hes Hsc.
  by apply (run_score_kept room es s (reachable_wf _ Hreach) Hes).
Qed.

(** A rejoin under the same player id keeps the accumulated score. *)
Lemma scores_never_decrease_witness :
  exists sc',
    score_of Scenario.room "A"
      (run [EvDisconnect "sidA";
            EvJoin "sidA2" (mkJoinData (Some Scenario.room) "Ann" "A" false)
              120]
         Scenario.round1_done).1 = Some sc'
    /\ 5 <= sc'
    /\ (existsb (round_ended_for Scenario.room)
          (run [EvDisconnect "sidA";
                EvJoin "sidA2"
                  (mkJoinData (Some Scenario.room) "Ann" "A" false) 120]
             Scenario.round1_done).2 = false -> sc' = 5).
Proof.
  apply (scores_never_decrease _ Scenario.round1_done Scenario.room "A" 5).
  - exists (Scenario.setup ++ [Scenario.submitA; Scenario.submitB])%list.
    unfold Scenario.round1_done. reflexivity.
  - repeat constructor.
  - vm_compute. reflexivity.
Defined.

(** ** The padding loop of [generate_room_prompts] *)

Lemma filter_length_lt {A} (P Q : A -> Prop) `{!forall x, Decision (P x)}
    `{!forall x, Decision (Q x)} (l : list A) (x : A) :
  (forall y, Q y -> P y) -> x ∈ l -> P x -> ~ Q x ->
  (length (filter Q l) < length (filter P l))%nat.
Proof.
  intros Himp Hx HP HQ.
  assert (Hle : forall k : list A,
             (length (filter Q k) <= length (filter P k))%nat).
  { induction k as [|y k IH]; [done|]. rewrite !filter_cons.
    destruct (decide (Q y)) as [Hy|Hy].
    - rewrite decide_True by auto. simpl. lia.
    - destruct (decide (P y)); simpl; lia. }
  induction l as [|y l IH]; [by apply elem_of_nil in Hx|].
  rewrite !filter_cons. apply elem_of_cons in Hx as [<-|Hx].
  - destruct (decide (Q x)); [done|]. destruct (decide (P x)); [|done].
    simpl. specialize (Hle l). lia.
  - specialize (IH Hx). destruct (decide (Q y)) as [Hy|Hy].
    + rewrite decide_True by auto. simpl. lia.
    + destruct (decide (P y)); simpl; lia.
Qed.

(** Each append uses up one fresh pool entry, so the loop can never make
    the list longer than its length plus the number of fresh entries. *)
Lemma pad_loop_starves fuel n prompts existing i :
  Z.of_nat (length prompts + length (fresh_pool existing)) < n ->
  pad_loop fuel n prompts existing i = None.
Proof.
  revert prompts existing i.
  induction fuel as [|fuel IH]; intros prompts existing i Hlt;
    cbn [pad_loop];
    (destruct (Z.ltb_spec (Z.of_nat (length prompts)) n); [|lia]);
    [done|].
  destruct (fallback_pool !! (i mod length fallback_pool)%nat)
    as [cand|] eqn:Hcand; [|done].
  destruct (decide (Str.lower (pr_text cand) ∈ existing)) as [Hin|Hnew].
  - by apply IH.
  - apply IH. rewrite length_app. cbn [length].
    assert (length (fresh_pool ({[Str.lower (pr_text cand)]} ∪ existing))
            < length (fresh_pool existing))%nat; [|lia].
    unfold fresh_pool. apply (filter_length_lt _ _ _ cand).
    + intros y Hy Hy'. apply Hy. set_solver.
    + by eapply list_elem_of_lookup_2.
    + done.
    + intros Hc. apply Hc. set_solver.
Qed.

(** Whenever more than five prompts are missing, the call never returns,
    whatever the number of iterations allowed. *)
Lemma generate_room_prompts_starves fuel parsed n :
  Z.of_nat (length parsed) + 5 < n ->
  generate_room_prompts fuel parsed n = None.
Proof.
  intros Hlt. unfold generate_room_prompts.
  destruct (Z.ltb_spec (Z.of_nat (length parsed)) n); [|lia].
  rewrite pad_loop_starves; [done|].
  pose proof (length_filter
                (fun c => Str.lower (pr_text c)
                          ∉ (list_to_set
                               (map (fun p => Str.lower (pr_text p)) parsed)
                             : gset string))
                fallback_pool) as Hle.
  unfold fresh_pool. cbn [length fallback_pool] in Hle |- *. lia.
Qed.

(** When the loop does exit, the list is long enough. *)
Lemma pad_loop_Some fuel n prompts existing i ps :
  pad_loop fuel n prompts existing i = Some ps -> n <= Z.of_nat (length ps).
Proof.
  revert prompts existing i.
  induction fuel as [|fuel IH]; intros prompts existing i; cbn [pad_loop];
    destruct (Z.ltb_spec (Z.of_nat (length prompts)) n);
    try done; try (intros [= <-]; lia).
  destruct (fallback_pool !! (i mod length fallback_pool)%nat); [|done].
  destruct (decide (Str.lower (pr_text p) ∈ existing)); apply IH.
Qed.

(** When the call returns, it returns exactly [num_prompts] prompts. *)
Lemma generate_room_prompts_length fuel parsed n ps :
  0 <= n ->
  generate_room_prompts fuel parsed n = Some ps ->
  length ps = Z.to_nat n.
Proof.
  intros Hn. unfold generate_room_prompts.
  destruct (Z.ltb_spec (Z.of_nat (length parsed)) n) as [Hlt|Hge].
  - destruct (pad_loop _ _ _ _ _) as [padded|] eqn:Hpad; [|done].
    apply pad_loop_Some in Hpad. intros [= <-].
    unfold finalize_prompts, py_prefix. rewrite length_map.
    destruct (Z.leb_spec 0 n); [|lia]. rewrite length_take. lia.
  - intros [= <-]. unfold finalize_prompts, py_prefix. rewrite length_map.
    destruct (Z.leb_spec 0 n); [|lia]. rewrite length_take. lia.
Qed.

(** C4 fails on the code. When the prompt service fails and the default
    number of prompts, 10, is asked for, the padding loop appends the five
    pool entries and then spins for ever: no number of iterations makes
    [generate_room_prompts] return.  The same happens in the example of
    three delivered prompts out of ten. *)
Theorem generate_room_prompts_diverges (fuel : nat) :
  generate_room_prompts fuel [] DEFAULT_NUM_PROMPTS = None
  /\ (forall p1 p2 p3 : Prompt,
        generate_room_prompts fuel [p1; p2; p3] 10 = None).
Proof.
  split; [|intros p1 p2 p3];
    apply generate_room_prompts_starves; cbn; unfold DEFAULT_NUM_PROMPTS; lia.
Qed.

(** With five prompts or fewer to add, the pool suffices. *)
Example generate_room_prompts_five :
  length <$> generate_room_prompts 5 [] 5 = Some 5%nat.
Proof. vm_compute. reflexivity. Qed.

(** * Further properties *)

(** ** Strings *)

Lemma lower_char_idem c : Str.lower_char (Str.lower_char c) = Str.lower_char c.
Proof. destruct c as [[] [] [] [] [] [] [] []]; vm_compute; reflexivity. Qed.

Lemma lower_idem s : Str.lower (Str.lower s) = Str.lower s.
Proof.
  induction s as [|c s IH]; [done|].
  cbn [Str.lower]. by rewrite lower_char_idem, IH.
Qed.

Lemma lower_truthy s : Str.truthy (Str.lower s) = Str.truthy s.
Proof. by destruct s. Qed.

Lemma truthy_true s : Str.truthy s = true <-> s ≠ EmptyString.
Proof. destruct s; [split; [done | congruence] | done]. Qed.

Lemma append_cons_s c (a b : string) :
  String.append (String c a) b = String c (String.append a b).
Proof. reflexivity. Qed.

Lemma append_assoc_s (a b c : string) :
  String.append (String.append a b) c = String.append a (String.append b c).
Proof.
  induction a as [|x a IH]; [done|]. by rewrite !append_cons_s, IH.
Qed.

Lemma append_nil_s (a : string) : String.append a EmptyString = a.
Proof. induction a as [|x a IH]; [done|]. by rewrite append_cons_s, IH. Qed.

Lemma rev_onto_append acc s :
  Str.rev_onto acc s = String.append (Str.reverse s) acc.
Proof.
  unfold Str.reverse. revert acc.
  induction s as [|c s IH]; intros acc; [done|].
  cbn [Str.rev_onto]. rewrite (IH (String c acc)), (IH (String c EmptyString)).
  by rewrite append_assoc_s.
Qed.

Lemma reverse_cons c s :
  Str.reverse (String c s) = String.append (Str.reverse s) (String c EmptyString).
Proof. unfold Str.reverse at 1. cbn [Str.rev_onto]. apply rev_onto_append. Qed.

Lemma reverse_append a b :
  Str.reverse (String.append a b)
  = String.append (Str.reverse b) (Str.reverse a).
Proof.
  induction a as [|c a IH].
  - change (String.append EmptyString b) with b. by rewrite append_nil_s.
  - by rewrite append_cons_s, !reverse_cons, IH, append_assoc_s.
Qed.

Lemma reverse_involutive s : Str.reverse (Str.reverse s) = s.
Proof.
  induction s as [|c s IH]; [done|].
  by rewrite reverse_cons, reverse_append, IH.
Qed.

Lemma lstrip_idem s : Str.lstrip (Str.lstrip s) = Str.lstrip s.
Proof.
  induction s as [|c s IH]; [done|]. cbn [Str.lstrip].
  destruct (Str.is_space c) eqn:Hc; [done|]. cbn [Str.lstrip]. by rewrite Hc.
Qed.

Lemma lstrip_head s :
  Str.lstrip s = EmptyString
  \/ exists c s', Str.lstrip s = String c s' /\ Str.is_space c = false.
Proof.
  induction s as [|c s IH]; [by left|]. cbn [Str.lstrip].
  destruct (Str.is_space c) eqn:Hc; [done|]. right. by exists c, s.
Qed.

Lemma lstrip_snoc a c :
  Str.is_space c = false ->
  exists b, Str.lstrip (String.append a (String c EmptyString))
            = String.append b (String c EmptyString).
Proof.
  intros Hc. induction a as [|x a IH].
  - change (String.append EmptyString (String c EmptyString))
      with (String c EmptyString).
    cbn [Str.lstrip]. rewrite Hc. by exists EmptyString.
  - rewrite append_cons_s. cbn [Str.lstrip].
    destruct (Str.is_space x); [done|].
    exists (String x a). by rewrite append_cons_s.
Qed.

Lemma strip_idem s : Str.strip (Str.strip s) = Str.strip s.
Proof.
  unfold Str.strip at 2 3.
  destruct (lstrip_head s) as [Hs|(c & s' & Hs & Hc)]; rewrite Hs; [done|].
  rewrite reverse_cons.
  destruct (lstrip_snoc (Str.reverse s') c Hc) as [b Hb].
  assert (Hstrip : Str.reverse
                     (Str.lstrip
                        (String.append (Str.reverse s') (String c EmptyString)))
                   = String c (Str.reverse b)).
  { rewrite Hb, reverse_append. done. }
  rewrite Hstrip. unfold Str.strip. cbn [Str.lstrip]. rewrite Hc.
  rewrite <- Hstrip, reverse_involutive, lstrip_idem. done.
Qed.

(** White space and capitals beyond ASCII: a trailing no-break space
    (U+00A0) is stripped, and a capital E with acute accent (U+00C9) is
    lower-cased, as Python does. *)
Example strip_no_break_space :
  Str.strip (String.append " Red" (String (ascii_of_nat 160) EmptyString))
  = "Red".
Proof. vm_compute. reflexivity. Qed.

Example lower_beyond_ascii :
  Str.lower (String (ascii_of_nat 201) "TE") = String (ascii_of_nat 233) "te".
Proof. vm_compute. reflexivity. Qed.

(** ** [shuffle] returns a permutation *)

Lemma swap_perm {A} (i j : nat) (a a' : list A) :
  swap i j a = Some a' -> Permutation a' a.
Proof.
  unfold swap. destruct (a !! i) as [x|] eqn:Hi; [|done].
  destruct (a !! j) as [y|] eqn:Hj; [|done]. cbn. intros [= <-].
  destruct (decide (i = j)) as [->|Hne].
  - assert (x = y) by congruence. subst y.
    rewrite list_insert_insert_eq, list_insert_id by done. done.
  - apply Permutation_insert_swap; done.
Qed.

Lemma swap_length {A} (i j : nat) (a a' : list A) :
  swap i j a = Some a' -> length a' = length a.
Proof. intros H. by rewrite (Permutation_length (swap_perm _ _ _ _ H)). Qed.

Lemma shuffle_loop_perm {A} (draw : nat -> nat) (i : nat) (a : list A) :
  (forall k, (draw k <= k)%nat) ->
  (i < length a \/ i = 0)%nat ->
  exists a', shuffle_loop draw i a = Some a' /\ Permutation a' a.
Proof.
  intros Hdraw. revert a. induction i as [|i IH]; intros a Hi.
  - by exists a.
  - destruct Hi as [Hi|]; [|done]. cbn [shuffle_loop].
    destruct (lookup_lt_is_Some_2 a (S i) Hi) as [x Hx].
    destruct (lookup_lt_is_Some_2 a (draw (S i))) as [y Hy].
    { specialize (Hdraw (S i)). lia. }
    destruct (swap (S i) (draw (S i)) a) as [a1|] eqn:Hswap.
    2:{ unfold swap in Hswap. by rewrite Hx, Hy in Hswap. }
    cbn. destruct (IH a1) as (a' & Ha' & Hperm).
    { left. rewrite (swap_length _ _ _ _ Hswap). lia. }
    exists a'. split; [done|]. by rewrite Hperm, (swap_perm _ _ _ _ Hswap).
Qed.

(** X1. Whatever the random draws, as long as each lies in the range
    [0..i] that [random.randint(0, i)] promises, [shuffle] raises no
    [IndexError] and returns a permutation of its argument, of the same
    length. *)
Theorem shuffle_permutation {A} (draw : nat -> nat) (array : list A) :
  (forall i, (draw i <= i)%nat) ->
  exists a, shuffle draw array = Some a
    /\ Permutation a array /\ length a = length array.
Proof.
  intros Hdraw. unfold shuffle.
  destruct (shuffle_loop_perm draw (length array - 1) array Hdraw)
    as (a & Ha & Hperm); [lia|].
  exists a. split; [done|]. split; [done|]. by rewrite Hperm.
Qed.

Lemma shuffle_permutation_witness :
  exists a, shuffle (fun i => (i / 2)%nat) [1; 2; 3; 4]%Z = Some a
    /\ Permutation a [1; 2; 3; 4]%Z /\ length a = 4%nat.
Proof.
  apply (shuffle_permutation (fun i => (i / 2)%nat) [1; 2; 3; 4]%Z).
  intros i. apply Nat.Div0.div_le_upper_bound. lia.
Defined.

Example shuffle_example :
  shuffle (fun i => (i / 2)%nat) [1; 2; 3; 4]%Z = Some [3; 1; 4; 2]%Z.
Proof. reflexivity. Qed.

(** ** The padding loop decides within one pass over the pool *)

Lemma pad_loop_done fuel n prompts existing i :
  n <= Z.of_nat (length prompts) ->
  pad_loop fuel n prompts existing i = Some prompts.
Proof.
  intros Hn. destruct fuel; cbn [pad_loop];
    by destruct (Z.ltb_spec (Z.of_nat (length prompts)) n); [lia|].
Qed.

(** Running the loop over candidates that are the next entries of the
    pool is one [pool_pass]. *)
Lemma pad_loop_pass n cands i fuel prompts existing :
  (forall j c, cands !! j = Some c ->
     fallback_pool !! ((i + j) mod length fallback_pool)%nat = Some c) ->
  pad_loop (length cands + fuel) n prompts existing i =
  pad_loop fuel n (pool_pass n cands prompts existing).1
    (pool_pass n cands prompts existing).2 (i + length cands).
Proof.
  revert i prompts existing.
  induction cands as [|c cands IH]; intros i prompts existing Hpool.
  - cbn [length pool_pass fst snd plus]. by rewrite Nat.add_0_r.
  - cbn [length plus pad_loop pool_pass].
    destruct (Z.ltb_spec (Z.of_nat (length prompts)) n) as [Hlt|Hge].
    + pose proof (Hpool 0%nat c eq_refl) as H0. rewrite Nat.add_0_r in H0.
      rewrite H0.
      assert (Hnext : forall j c', cands !! j = Some c' ->
                fallback_pool !! ((S i + j) mod length fallback_pool)%nat
                = Some c').
      { intros j c' Hj. specialize (Hpool (S j) c' Hj).
        by replace (S i + j)%nat with (i + S j)%nat by lia. }
      replace (i + S (length cands))%nat with (S i + length cands)%nat by lia.
      destruct (decide (Str.lower (pr_text c) ∈ existing)); by apply IH.
    + cbn [fst snd]. by rewrite pad_loop_done.
Qed.

(** After a pass that leaves the list short, every candidate's text is in
    the set. *)
Lemma pool_pass_exhausts n cands prompts existing :
  existing ⊆ (pool_pass n cands prompts existing).2
  /\ (Z.of_nat (length (pool_pass n cands prompts existing).1) < n ->
      forall c, c ∈ cands ->
        Str.lower (pr_text c) ∈ (pool_pass n cands prompts existing).2).
Proof.
  revert prompts existing.
  induction cands as [|c cands IHc]; intros prompts existing.
  - split; [done|]. by intros _ c ?%elem_of_nil.
  - cbn [pool_pass].
    destruct (Z.ltb_spec (Z.of_nat (length prompts)) n) as [Hlt|Hge].
    + destruct (decide (Str.lower (pr_text c) ∈ existing)) as [Hin|Hnew].
      * destruct (IHc prompts existing) as [Hsub Hall].
        split; [done|]. intros Hshort c' [->|Hc']%elem_of_cons; auto.
      * destruct (IHc (prompts ++ [c])%list
                    ({[Str.lower (pr_text c)]} ∪ existing)) as [Hsub Hall].
        split; [intros x Hx; by apply Hsub, elem_of_union_r|].
        intros Hshort c' [->|Hc']%elem_of_cons; [|auto].
        by apply Hsub, elem_of_union_l, elem_of_singleton.
    + split; [done|]. cbn [fst]. lia.
Qed.

Lemma filter_iff_in {A} (P Q : A -> Prop) `{!forall x, Decision (P x)}
    `{!forall x, Decision (Q x)} (l : list A) :
  (forall x, x ∈ l -> P x <-> Q x) -> filter P l = filter Q l.
Proof.
  induction l as [|a l IH]; intros Hiff; [done|]. rewrite !filter_cons.
  rewrite IH by (intros x Hx; apply Hiff; by right).
  destruct (decide (P a)) as [Ha|Ha].
  - rewrite decide_True; [done|]. apply Hiff; [by left | done].
  - rewrite decide_False; [done|].
    intros Hq. apply Ha, Hiff; [by left | done].
Qed.

(** The length a pass reaches, for candidates with distinct texts. *)
Lemma pool_pass_length n cands prompts existing :
  NoDup (lower_texts cands) ->
  Z.of_nat (length prompts) <= n ->
  Z.of_nat (length (pool_pass n cands prompts existing).1) =
  Z.min n (Z.of_nat (length prompts
                     + length (filter (fun c => Str.lower (pr_text c)
                                                ∉ existing) cands))).
Proof.
  unfold lower_texts. revert prompts existing.
  induction cands as [|c cands IH]; intros prompts existing Hnd Hle.
  - cbn [pool_pass fst]. rewrite filter_nil. cbn [length]. lia.
  - cbn [map] in Hnd. apply NoDup_cons in Hnd as [Hc Hnd].
    cbn [pool_pass]. rewrite filter_cons.
    destruct (Z.ltb_spec (Z.of_nat (length prompts)) n) as [Hlt|Hge].
    + destruct (decide (Str.lower (pr_text c) ∈ existing)) as [Hin|Hnew].
      * rewrite decide_False by auto. by apply IH.
      * rewrite decide_True by done. rewrite IH; [|done|].
        2:{ rewrite length_app. cbn [length]. lia. }
        rewrite length_app. cbn [length].
        assert (Hfilter :
          filter (fun c0 => Str.lower (pr_text c0)
                            ∉ {[Str.lower (pr_text c)]} ∪ existing) cands
          = filter (fun c0 => Str.lower (pr_text c0) ∉ existing) cands).
        { apply filter_iff_in. intros c' Hc'. split.
          - set_solver.
          - intros Hn [Heq%elem_of_singleton|]%elem_of_union; [|done].
            apply Hc. rewrite <- Heq.
            by apply (list_elem_of_fmap_2 (fun p => Str.lower (pr_text p))). }
        rewrite Hfilter. f_equal. lia.
    + cbn [fst]. lia.
Qed.

Lemma filter_none {A} (P : A -> Prop) `{!forall x, Decision (P x)}
    (l : list A) :
  (forall x, x ∈ l -> ~ P x) -> filter P l = [].
Proof.
  induction l as [|a l IH]; intros Hno; [done|]. rewrite filter_cons.
  rewrite decide_False by (apply Hno; by left).
  apply IH. intros x Hx. apply Hno. by right.
Qed.

Lemma fallback_pool_lookup j c :
  fallback_pool !! j = Some c ->
  fallback_pool !! ((0 + j) mod length fallback_pool)%nat = Some c.
Proof.
  intros Hj. pose proof (lookup_lt_Some _ _ _ Hj) as Hlt.
  by rewrite Nat.add_0_l, Nat.mod_small.
Qed.

Lemma fallback_pool_distinct : NoDup (lower_texts fallback_pool).
Proof. apply (bool_decide_unpack _). vm_compute. exact I. Qed.

(** With five iterations or more at its disposal the loop has decided:
    it exits with the result of one pass over the pool, or never. *)
Lemma pad_loop_decided fuel n prompts existing :
  (5 <= fuel)%nat ->
  pad_loop fuel n prompts existing 0 =
  let padded := (pool_pass n fallback_pool prompts existing).1 in
  if (n <=? Z.of_nat (length padded))%Z then Some padded else None.
Proof.
  intros Hfuel. replace fuel with (length fallback_pool + (fuel - 5))%nat
    by (cbn [length fallback_pool]; lia).
  rewrite (pad_loop_pass n fallback_pool 0) by apply fallback_pool_lookup.
  cbv zeta. destruct (Z.leb_spec n
    (Z.of_nat (length (pool_pass n fallback_pool prompts existing).1)))
    as [Hle|Hgt].
  - by apply pad_loop_done.
  - apply pad_loop_starves.
    destruct (pool_pass_exhausts n fallback_pool prompts existing)
      as [_ Hall].
    assert (Hnil : fresh_pool (pool_pass n fallback_pool prompts existing).2
                   = []).
    { unfold fresh_pool. apply filter_none.
      intros c Hc Hfresh. apply Hfresh. auto. }
    rewrite Hnil. cbn [length]. lia.
Qed.

(** X2. The padding of [generate_room_prompts] is decided by one pass
    over the five pool entries.  Given at least five iterations, the call
    returns exactly when the number asked for is at most the number of
    parsed prompts plus the number of pool entries whose lower-cased text
    is not among the parsed ones; more iterations never change the
    outcome. *)
Theorem padding_decided_in_one_pass (fuel : nat) (parsed : list Prompt)
    (n : Z) :
  (5 <= fuel)%nat ->
  (is_Some (generate_room_prompts fuel parsed n)
   <-> n <= Z.of_nat (length parsed
                      + length (fresh_pool (list_to_set (lower_texts parsed)))))
  /\ generate_room_prompts fuel parsed n = generate_room_prompts 5 parsed n.
Proof.
  intros Hfuel. unfold generate_room_prompts.
  fold (lower_texts parsed).
  destruct (Z.ltb_spec (Z.of_nat (length parsed)) n) as [Hlt|Hge].
  - rewrite (pad_loop_decided fuel) by done.
    rewrite (pad_loop_decided 5) by done. split; [|done].
    rewrite fmap_is_Some. cbv zeta.
    pose proof (pool_pass_length n fallback_pool parsed
                  (list_to_set (lower_texts parsed)) fallback_pool_distinct)
      as Hlen.
    fold (fresh_pool (list_to_set (lower_texts parsed))) in Hlen.
    rewrite Nat2Z.inj_add in *.
    destruct (Z.leb_spec n
      (Z.of_nat (length (pool_pass n fallback_pool parsed
                           (list_to_set (lower_texts parsed))).1)))
      as [Hle|Hgt].
    + split; [|by eexists]. intros _. lia.
    + split; [by intros [? [=]] | lia].
  - split; [|done]. rewrite fmap_is_Some. split; [lia | by eexists].
Qed.

Lemma padding_decided_in_one_pass_witness :
  is_Some (generate_room_prompts 7 [Scenario.color_prompt] 6)
  <-> 6 <= Z.of_nat
             (length [Scenario.color_prompt]
              + length (fresh_pool
                          (list_to_set (lower_texts [Scenario.color_prompt])))).
Proof.
  apply (padding_decided_in_one_pass 7 [Scenario.color_prompt] 6). lia.
Defined.

(** ** What [generate_room_prompts] returns when it returns *)

Lemma pad_loop_extends fuel n prompts existing i padded :
  pad_loop fuel n prompts existing i = Some padded ->
  exists extra, padded = (prompts ++ extra)%list
    /\ Forall (fun c => c ∈ fallback_pool) extra.
Proof.
  revert prompts existing i.
  induction fuel as [|fuel IH]; intros prompts existing i; cbn [pad_loop];
    destruct (Z.ltb_spec (Z.of_nat (length prompts)) n);
    try done;
    try (intros [= <-]; exists []; by rewrite app_nil_r).
  destruct (fallback_pool !! (i mod length fallback_pool)%nat)
    as [c|] eqn:Hc; [|done].
  destruct (decide (Str.lower (pr_text c) ∈ existing)); [apply IH|].
  intros (extra & -> & Hextra)%IH. exists (c :: extra).
  split; [by rewrite <- app_assoc|].
  constructor; [by eapply list_elem_of_lookup_2 | done].
Qed.

Lemma pad_loop_distinct fuel n prompts existing i padded :
  pad_loop fuel n prompts existing i = Some padded ->
  NoDup (lower_texts prompts) ->
  (forall t, t ∈ lower_texts prompts -> t ∈ existing) ->
  NoDup (lower_texts padded).
Proof.
  unfold lower_texts. revert prompts existing i.
  induction fuel as [|fuel IH]; intros prompts existing i; cbn [pad_loop];
    destruct (Z.ltb_spec (Z.of_nat (length prompts)) n);
    try done; try (by intros [= <-]).
  destruct (fallback_pool !! (i mod length fallback_pool)%nat)
    as [c|]; [|done].
  destruct (decide (Str.lower (pr_text c) ∈ existing)) as [Hin|Hnew];
    [apply IH|].
  intros Hpad Hnd Hsub. apply (IH _ _ _ Hpad).
  - rewrite map_app. apply NoDup_app. split; [done|].
    split; [|apply NoDup_singleton].
    intros t Ht ->%list_elem_of_singleton. by apply Hnew, Hsub.
  - intros t. rewrite map_app, elem_of_app. cbn [map].
    rewrite list_elem_of_singleton. intros [Ht| ->]; [|set_solver].
    apply elem_of_union_r. by apply Hsub.
Qed.

Lemma fallback_pool_texts :
  Forall (fun c => Str.strip (pr_text c) = pr_text c
                   /\ pr_text c ≠ EmptyString) fallback_pool.
Proof. repeat constructor; try (vm_compute; reflexivity); done. Qed.

(** The loop that builds [final] turns any prompt with some non-blank
    text into one the program wants. *)
Lemma finalize_prompt_ok n prompts :
  Forall (fun p => Str.strip (pr_text p) ≠ EmptyString) prompts ->
  Forall prompt_ok (finalize_prompts n prompts).
Proof.
  intros Hps. unfold finalize_prompts. apply Forall_fmap.
  assert (Hpre : Forall (fun p => Str.strip (pr_text p) ≠ EmptyString)
                   (py_prefix n prompts)).
  { unfold py_prefix. destruct (0 <=? n)%Z; by apply Forall_take. }
  eapply Forall_impl; [exact Hpre|]. intros p Hp. unfold compose, prompt_ok.
  cbn [pr_text pr_answers]. split; [done|].
  set (kept := List.filter
                 (fun a => Str.truthy a && Str.truthy (Str.strip a))
                 (pr_answers p)).
  assert (Hkept : Forall (fun a => a ≠ EmptyString /\ Str.lower a = a)
                    (map Str.lower kept)).
  { apply Forall_fmap, Forall_forall. intros a Ha%list_elem_of_In.
    apply List.filter_In in Ha as [_ [Ha _]%andb_prop]. unfold compose.
    split; [|apply lower_idem].
    apply truthy_true. by rewrite lower_truthy. }
  destruct (map Str.lower kept) as [|a l] eqn:Hmap.
  - split; [done|]. by repeat constructor.
  - split; [done | exact Hkept].
Qed.

Lemma generate_room_prompts_shape (fuel : nat) (parsed : list Prompt)
    (n : Z) (final : list Prompt) :
  Forall (fun p => Str.strip (pr_text p) ≠ EmptyString) parsed ->
  generate_room_prompts fuel parsed n = Some final ->
  Forall prompt_ok final
  /\ exists extra,
       Forall (fun c => c ∈ fallback_pool) extra
       /\ final = finalize_prompts n (parsed ++ extra).
Proof.
  intros Hparsed Hgen. unfold generate_room_prompts in Hgen.
  assert (Hpadded : exists extra,
            Forall (fun c => c ∈ fallback_pool) extra
            /\ final = finalize_prompts n (parsed ++ extra)).
  { destruct (Z.of_nat (length parsed) <? n)%Z.
    - destruct (pad_loop _ _ _ _ _) as [padded|] eqn:Hpad; [|done].
      injection Hgen as <-.
      apply pad_loop_extends in Hpad as (extra & -> & Hextra).
      by exists extra.
    - injection Hgen as <-. exists []. by rewrite app_nil_r. }
  split; [|done]. destruct Hpadded as (extra & Hextra & ->).
  apply finalize_prompt_ok, Forall_app. split; [done|].
  eapply Forall_impl; [exact Hextra|]. intros c Hc.
  pose proof fallback_pool_texts as Hpool.
  rewrite Forall_forall in Hpool. destruct (Hpool c Hc) as [-> Hne]. done.
Qed.

(** X3. Whenever [generate_room_prompts] returns, for a non-negative
    [num_prompts] and parsed prompts whose text is not blank, it returns
    exactly [num_prompts] prompts; each has non-empty text and at least
    one answer, all answers non-empty and in lower case; and the texts
    are, stripped, those of the parsed prompts in order followed by texts
    of pool entries. *)
Theorem generate_room_prompts_returns_ok (fuel : nat) (parsed : list Prompt)
    (n : Z) (final : list Prompt) :
  0 <= n ->
  Forall (fun p => Str.strip (pr_text p) ≠ EmptyString) parsed ->
  generate_room_prompts fuel parsed n = Some final ->
  length final = Z.to_nat n
  /\ Forall prompt_ok final
  /\ exists extra,
       Forall (fun c => c ∈ fallback_pool) extra
       /\ map pr_text final =
          map (fun p => Str.strip (pr_text p))
            (take (Z.to_nat n) (parsed ++ extra)).
Proof.
  intros Hn Hparsed Hgen.
  split; [by eapply generate_room_prompts_length|].
  destruct (generate_room_prompts_shape _ _ _ _ Hparsed Hgen)
    as (Hok & extra & Hextra & ->).
  split; [done|]. exists extra. split; [done|].
  unfold finalize_prompts, py_prefix.
  destruct (Z.leb_spec 0 n); [|lia]. by rewrite map_map.
Qed.

Lemma generate_room_prompts_returns_ok_witness :
  exists final,
    generate_room_prompts 5 [Scenario.color_prompt] 3 = Some final
    /\ length final = 3%nat /\ Forall prompt_ok final.
Proof.
  exists (default [] (generate_room_prompts 5 [Scenario.color_prompt] 3)).
  assert (Hgen : generate_room_prompts 5 [Scenario.color_prompt] 3
                 = Some (default []
                           (generate_room_prompts 5 [Scenario.color_prompt] 3)))
    by (vm_compute; reflexivity).
  split; [exact Hgen|].
  destruct (generate_room_prompts_returns_ok 5 [Scenario.color_prompt] 3 _
              ltac:(lia)
              ltac:(repeat constructor; vm_compute; discriminate)
              Hgen) as (Hlen & Hok & _).
  split; [exact Hlen | exact Hok].
Defined.

(** X4. The padding adds no duplicate prompt text.  If the parsed
    prompts have stripped texts that differ pairwise up to case, then so
    do the prompts [generate_room_prompts] returns. *)
Theorem generate_room_prompts_distinct_texts (fuel : nat)
    (parsed : list Prompt) (n : Z) (final : list Prompt) :
  NoDup (lower_texts parsed) ->
  Forall (fun p => Str.strip (pr_text p) = pr_text p) parsed ->
  generate_room_prompts fuel parsed n = Some final ->
  NoDup (lower_texts final).
Proof.
  intros Hnd Hstripped Hgen. unfold generate_room_prompts in Hgen.
  assert (Hpadded : exists padded,
            final = finalize_prompts n padded
            /\ NoDup (lower_texts padded)
            /\ Forall (fun p => Str.strip (pr_text p) = pr_text p) padded).
  { destruct (Z.of_nat (length parsed) <? n)%Z.
    - destruct (pad_loop _ _ _ _ _) as [padded|] eqn:Hpad; [|done].
      injection Hgen as <-. exists padded. split; [done|]. split.
      + eapply pad_loop_distinct; [exact Hpad | done |].
        intros t Ht. by apply elem_of_list_to_set.
      + apply pad_loop_extends in Hpad as (extra & -> & Hextra).
        apply Forall_app. split; [done|].
        eapply Forall_impl; [exact Hextra|]. intros c Hc.
        pose proof fallback_pool_texts as Hpool.
        rewrite Forall_forall in Hpool. by destruct (Hpool c Hc).
    - injection Hgen as <-. by exists parsed. }
  destruct Hpadded as (padded & -> & Hnd' & Hstr).
  assert (Htexts : lower_texts (finalize_prompts n padded)
                   = lower_texts (py_prefix n padded)).
  { unfold lower_texts, finalize_prompts. rewrite map_map.
    apply map_ext_in. intros p Hp. cbn [pr_text].
    assert (Hin : p ∈ padded).
    { apply list_elem_of_In in Hp. unfold py_prefix in Hp.
      destruct (0 <=? n)%Z; eapply elem_of_sublist; try exact Hp;
        apply sublist_take. }
    rewrite Forall_forall in Hstr. by rewrite (Hstr p Hin). }
  rewrite Htexts. eapply sublist_NoDup; [exact Hnd'|].
  unfold lower_texts, py_prefix.
  destruct (0 <=? n)%Z; apply fmap_sublist, sublist_take.
Qed.

Lemma generate_room_prompts_distinct_texts_witness :
  NoDup (lower_texts
           (default [] (generate_room_prompts 5
                          [mkPrompt "NAME A FRUIT" ["kiwi"]] 4))).
Proof.
  apply (generate_room_prompts_distinct_texts 5
           [mkPrompt "NAME A FRUIT" ["kiwi"]] 4).
  - apply (bool_decide_unpack _). vm_compute. exact I.
  - repeat constructor.
  - vm_compute. reflexivity.
Defined.

(** The pool entry "Name a fruit" is skipped when a parsed prompt has the
    same text in another case. *)
Example padding_skips_same_text :
  map pr_text
    (default [] (generate_room_prompts 5 [mkPrompt "NAME A FRUIT" ["kiwi"]] 4))
  = ["NAME A FRUIT"; "Name a color in the rainbow";
     "What is the largest gland in the human body?";
     "Name any planet in our solar system"].
Proof. vm_compute. reflexivity. Qed.

(** ** Reading the prompts out of the model output *)

Lemma norm_answers_ok py_repr l :
  Forall (fun a => a ≠ EmptyString /\ Str.lower a = a) (norm_answers py_repr l).
Proof.
  unfold norm_answers. apply Forall_fmap, Forall_forall.
  intros a Ha%list_elem_of_In. apply List.filter_In in Ha as [_ Ha].
  unfold compose. split; [|apply lower_idem].
  apply truthy_true. by rewrite lower_truthy.
Qed.

Lemma accept_candidate_Keep py_repr p q :
  accept_candidate py_repr p = Keep q ->
  prompt_ok q /\ Str.strip (pr_text q) = pr_text q.
Proof.
  unfold accept_candidate. destruct p as [| | | |l|pd]; try done.
  destruct (py_or (dict_get "text" pd) (JStr "")) as [| | |raw| |]; try done.
  set (answers := match py_or (dict_get "answers" pd) (JList []) with
                  | JStr s => _
                  | v => v
                  end).
  destruct answers as [| | | |l|]; try done.
  destruct (Str.truthy (Str.strip raw)) eqn:Htext; [|done]. cbn [negb].
  pose proof (norm_answers_ok py_repr l) as Hnorm.
  destruct (norm_answers py_repr l) as [|a norm]; [done|].
  intros [= <-]. unfold prompt_ok. cbn [pr_text pr_answers].
  split; [|apply strip_idem].
  split; [by apply truthy_true|]. done.
Qed.

Lemma accept_loop_ok py_repr cands acc ps :
  accept_loop py_repr cands acc = Some ps ->
  Forall (fun q => prompt_ok q /\ Str.strip (pr_text q) = pr_text q) acc ->
  Forall (fun q => prompt_ok q /\ Str.strip (pr_text q) = pr_text q) ps.
Proof.
  revert acc. induction cands as [|p cands IH]; intros acc; cbn [accept_loop].
  - by intros [= <-].
  - destruct (accept_candidate py_repr p) as [|q|] eqn:Hp; [apply IH| |done].
    intros Hloop Hacc. apply (IH _ Hloop), Forall_app. split; [done|].
    constructor; [|done]. by eapply accept_candidate_Keep.
Qed.

Lemma accept_prompts_ok py_repr parsed ps :
  accept_prompts py_repr parsed = Some ps ->
  Forall (fun q => prompt_ok q /\ Str.strip (pr_text q) = pr_text q) ps.
Proof.
  unfold accept_prompts.
  destruct parsed as [[| | | | |d]|]; try (by intros [= <-]).
  destruct d as [|kv d]; [by intros [= <-]|].
  destruct (dict_get "prompts" (kv :: d)); try (by intros [= <-]).
  intros Hloop. by apply (accept_loop_ok _ _ _ _ Hloop).
Qed.

(** X5. Every prompt read out of the model output is one the program
    wants: its text is non-empty and stripped, it has at least one
    answer, and every answer is non-empty and in lower case. *)
Theorem accepted_prompts_well_formed (py_repr : JSON -> string)
    (parsed : option JSON) (ps : list Prompt) :
  accept_prompts py_repr parsed = Some ps ->
  Forall (fun q => prompt_ok q /\ Str.strip (pr_text q) = pr_text q) ps.
Proof. apply accept_prompts_ok. Qed.

Lemma accepted_prompts_well_formed_witness :
  Forall (fun q => prompt_ok q /\ Str.strip (pr_text q) = pr_text q)
    [mkPrompt "Capital of France?" ["paris"; "7"]].
Proof.
  apply (accepted_prompts_well_formed (fun _ => "")
           (Some (JDict [("prompts",
                          JList [JNum true "3";
                                 JDict [("text", JStr " Capital of France? ");
                                        ("answers",
                                         JList [JStr " Paris"; JStr " ";
                                                JNum true "7"])];
                                 JDict [("text", JStr "no answers")]])]))).
  vm_compute. reflexivity.
Defined.

Lemma accept_loop_None py_repr cands acc :
  accept_loop py_repr cands acc = None <-> Exists bad_text cands.
Proof.
  revert acc. induction cands as [|p cands IH]; intros acc; cbn [accept_loop].
  - split; [done | by intros ?%Exists_nil].
  - rewrite Exists_cons.
    assert (Hp : accept_candidate py_repr p = RaiseAttributeError
                 <-> bad_text p).
    { unfold accept_candidate, bad_text, py_or.
      destruct p as [| | | |l|pd];
        try (split; [done | by intros (pd & [=] & _)]).
      destruct (py_truthy (dict_get "text" pd)) eqn:Htruthy.
      - destruct (dict_get "text" pd) as [| | |raw| |] eqn:Htext;
          try (split; [intros _; exists pd; by rewrite Htext
                      | done]).
        split.
        + set (answers := match (if py_truthy _ then _ else _) with
                          | JStr s => _
                          | v => v
                          end).
          destruct answers; try done;
            destruct (negb _); try done;
            by destruct (norm_answers _ _).
        + intros (pd' & [= <-] & _ & Hns). rewrite Htext in Hns.
          by destruct (Hns raw).
      - split; [|intros (pd' & [= <-] & Ht & _); congruence].
        set (answers := match (if py_truthy _ then _ else _) with
                        | JStr s => _
                        | v => v
                        end).
        destruct answers; try done. }
    destruct (accept_candidate py_repr p) as [|q|] eqn:Hcand.
    + rewrite IH. split; [by right|]. intros [Hbad|]; [|done].
      by apply Hp in Hbad.
    + rewrite IH. split; [by right|]. intros [Hbad|]; [|done].
      by apply Hp in Hbad.
    + split; [|done]. intros _. left. by apply Hp.
Qed.

(** X6. Reading the prompts raises, instead of falling back on the pool,
    exactly when the model output is an object whose ["prompts"] is a
    list with an entry that is an object whose ["text"] is true in
    Python's sense and not a string; the prompts accepted before that
    entry are lost. *)
Theorem accept_prompts_raises_iff (py_repr : JSON -> string)
    (parsed : option JSON) :
  accept_prompts py_repr parsed = None
  <-> exists d cands,
        parsed = Some (JDict d)
        /\ dict_get "prompts" d = JList cands
        /\ Exists bad_text cands.
Proof.
  unfold accept_prompts.
  destruct parsed as [[| | | | |d]|];
    try (split; [done | by intros (? & ? & [=] & _)]).
  destruct d as [|kv d].
  { split; [done|]. by intros (? & ? & [= <-] & [=] & _). }
  destruct (dict_get "prompts" (kv :: d)) as [| | | |cands|] eqn:Hget;
    try (split; [done|]; intros (? & ? & [= <-] & Hg & _); congruence).
  rewrite accept_loop_None. split.
  - intros Hbad. by exists (kv :: d), cands.
  - intros (? & ? & [= <-] & Hg & Hbad). congruence.
Qed.

Example accept_prompts_raises :
  accept_prompts (fun _ => "")
    (Some (JDict [("prompts",
                   JList [json_prompt "Name a fruit" ["apple"];
                          JDict [("text", JNum true "5");
                                 ("answers", JList [JStr "five"])]])]))
  = None.
Proof. reflexivity. Qed.

Lemma strip_nonblank_truthy s : Str.strip s ≠ EmptyString -> Str.truthy s = true.
Proof. destruct s; [by intros [] | done]. Qed.

Lemma norm_answers_strings py_repr (answers : list string) :
  Forall (fun a => Str.strip a ≠ EmptyString) answers ->
  norm_answers py_repr (map JStr answers)
  = map (fun a => Str.lower (Str.strip a)) answers.
Proof.
  unfold norm_answers. induction 1 as [|a answers Ha _ IH]; [done|].
  cbn [map List.filter py_str].
  apply truthy_true in Ha. rewrite Ha. cbn [map py_str]. by rewrite IH.
Qed.

Lemma accept_candidate_json_prompt py_repr text answers :
  Str.strip text ≠ EmptyString -> answers ≠ [] ->
  Forall (fun a => Str.strip a ≠ EmptyString) answers ->
  accept_candidate py_repr (json_prompt text answers)
  = Keep (mkPrompt (Str.strip text)
            (map (fun a => Str.lower (Str.strip a)) answers)).
Proof.
  intros Htext Hne Hans. unfold accept_candidate, json_prompt.
  cbn [dict_get]. rewrite decide_True by done.
  rewrite decide_False by done. rewrite decide_True by done.
  unfold py_or. cbn [py_truthy].
  rewrite (strip_nonblank_truthy _ Htext).
  destruct answers as [|a answers]; [done|]. cbn [map].
  apply truthy_true in Htext. rewrite Htext. cbn [negb].
  change (JStr a :: map JStr answers) with (map JStr (a :: answers)).
  rewrite norm_answers_strings by done. done.
Qed.

(** X7. Entries of the expected shape are read as they are.  A model
    output whose ["prompts"] are objects with a non-blank string text and
    a non-empty list of non-blank string answers yields one prompt per
    entry, in order, with the text stripped and the answers stripped and
    lower-cased. *)
Theorem accept_prompts_reads_entries (py_repr : JSON -> string)
    (entries : list (string * list string)) :
  Forall (fun e => Str.strip e.1 ≠ EmptyString /\ e.2 ≠ []
                   /\ Forall (fun a => Str.strip a ≠ EmptyString) e.2)
    entries ->
  accept_prompts py_repr
    (Some (JDict [("prompts",
                   JList (map (fun e => json_prompt e.1 e.2) entries))]))
  = Some (map (fun e => mkPrompt (Str.strip e.1)
                          (map (fun a => Str.lower (Str.strip a)) e.2))
            entries).
Proof.
  intros Hentries. unfold accept_prompts. cbn [dict_get].
  rewrite decide_True by done.
  assert (Hloop : forall acc,
    accept_loop py_repr (map (fun e => json_prompt e.1 e.2) entries) acc
    = Some (acc ++ map (fun e => mkPrompt (Str.strip e.1)
                               (map (fun a => Str.lower (Str.strip a)) e.2))
                     entries)%list).
  { induction Hentries as [|e entries (Ht & Hne & Ha) _ IH]; intros acc.
    - cbn [map accept_loop]. by rewrite app_nil_r.
    - cbn [map accept_loop].
      rewrite accept_candidate_json_prompt by done.
      by rewrite IH, <- app_assoc. }
  by rewrite Hloop.
Qed.

Lemma accept_prompts_reads_entries_witness :
  accept_prompts (fun _ => "")
    (Some (JDict [("prompts",
                   JList (map (fun e => json_prompt e.1 e.2)
                            [(" Name a Fruit ", ["Apple"; " KIWI"])]))]))
  = Some [mkPrompt "Name a Fruit" ["apple"; "kiwi"]].
Proof.
  apply (accept_prompts_reads_entries (fun _ => "")
           [(" Name a Fruit ", ["Apple"; " KIWI"])]).
  repeat constructor; vm_compute; discriminate.
Defined.

(** Answers given as one comma-separated string are split. *)
Example accept_prompts_comma_answers :
  accept_prompts (fun _ => "")
    (Some (JDict [("prompts",
                   JList [JDict [("text", JStr "Name a color");
                                 ("answers", JStr "Red, ,Blue")]])]))
  = Some [mkPrompt "Name a color" ["red"; "blue"]].
Proof. vm_compute. reflexivity. Qed.

(** X8. From the model output to the result: whenever the whole of
    [generate_room_prompts] returns, for a non-negative [num_prompts],
    it returns exactly [num_prompts] prompts, each with non-empty text and
    at least one answer, every answer non-empty and in lower case,
    whatever [json.loads] made of the output. *)
Theorem generate_from_text_ok (loads : string -> option JSON)
    (py_repr : JSON -> string) (fuel : nat) (chat_text : string) (n : Z)
    (final : list Prompt) :
  0 <= n ->
  generate_from_text loads py_repr fuel chat_text n = GenOk final ->
  length final = Z.to_nat n /\ Forall prompt_ok final.
Proof.
  intros Hn. unfold generate_from_text.
  destruct (accept_prompts py_repr _) as [prompts|] eqn:Hacc; [|done].
  destruct (generate_room_prompts fuel prompts n) as [final'|] eqn:Hgen;
    [|done].
  intros [= <-]. split; [by eapply generate_room_prompts_length|].
  eapply generate_room_prompts_shape; [|exact Hgen].
  eapply Forall_impl; [by eapply accept_prompts_ok|].
  intros q [(Hne & _) Hstrip]. by rewrite Hstrip.
Qed.

Lemma generate_from_text_ok_witness :
  let loads := fun _ : string =>
    Some (JDict [("prompts", JList [json_prompt "Name a Fruit" ["Apple"]])]) in
  let final := match generate_from_text loads (fun _ => "") 5 "{}" 3 with
               | GenOk ps => ps
               | _ => []
               end in
  length final = 3%nat /\ Forall prompt_ok final.
Proof.
  cbv zeta.
  apply (generate_from_text_ok
           (fun _ => Some (JDict [("prompts",
                                   JList [json_prompt "Name a Fruit"
                                            ["Apple"]])]))
           (fun _ => "") 5 "{}" 3); [lia|].
  vm_compute. reflexivity.
Defined.

(** ** Invariants of the room table *)

Lemma rooms_get_None room s : rooms_get room s = None <-> room ∉ map fst s.
Proof.
  induction s as [|[k r] s IH]; cbn [rooms_get map fst].
  - split; [intros _; apply not_elem_of_nil | done].
  - rewrite not_elem_of_cons. destruct (decide (k = room)) as [->|Hne].
    + split; [done | by intros [? _]].
    + rewrite IH. split; [by intros ?; split | by intros [_ ?]].
Qed.

Lemma rooms_set_keys room r s :
  map fst (rooms_set room r s) =
  match rooms_get room s with
  | Some _ => map fst s
  | None => (map fst s ++ [room])%list
  end.
Proof.
  induction s as [|[k r0] s IH]; cbn [rooms_set rooms_get map fst app];
    [done|].
  destruct (decide (k = room)) as [->|Hne]; cbn [map fst]; [done|].
  rewrite IH. by destruct (rooms_get room s).
Qed.

Lemma rooms_get_elem room r s : rooms_get room s = Some r -> (room, r) ∈ s.
Proof.
  induction s as [|[k r0] s IH]; cbn [rooms_get]; [done|].
  destruct (decide (k = room)) as [->|Hne].
  - intros [= <-]. by left.
  - intros H. right. by apply IH.
Qed.

Lemma table_inv_get room r s :
  table_inv s -> rooms_get room s = Some r -> code_valid room /\ room_inv r.
Proof.
  intros [_ Hall] Hr. rewrite Forall_forall in Hall.
  apply (Hall (room, r)). by apply rooms_get_elem.
Qed.

Lemma rooms_set_Forall (P : string * Room -> Prop) room r s :
  Forall P s -> P (room, r) -> Forall P (rooms_set room r s).
Proof.
  intros Hs Hr. induction Hs as [|[k r0] s Hk Hs IH]; cbn [rooms_set].
  - by constructor.
  - destruct (decide (k = room)) as [->|Hne]; by constructor.
Qed.

Lemma table_inv_set room r s :
  table_inv s -> code_valid room -> room_inv r ->
  table_inv (rooms_set room r s).
Proof.
  intros [Hnd Hall] Hcode Hr. split.
  - rewrite rooms_set_keys. destruct (rooms_get room s) eqn:Hget; [done|].
    apply NoDup_app. split; [done|]. split; [|apply NoDup_singleton].
    intros k Hk ->%list_elem_of_singleton. by apply rooms_get_None in Hget.
  - by apply rooms_set_Forall.
Qed.

(** Replacing the object of an existing room. *)
Lemma table_inv_update room r r' s :
  table_inv s -> rooms_get room s = Some r -> (room_inv r -> room_inv r') ->
  table_inv (rooms_set room r' s).
Proof.
  intros Hinv Hr Himp. destruct (table_inv_get _ _ _ Hinv Hr) as [Hcode Hri].
  apply table_inv_set; auto.
Qed.

Lemma room_inv_ext r r' :
  socketToPlayerId r' = socketToPlayerId r ->
  playerSockets r' = playerSockets r ->
  player_ids (players r') = player_ids (players r) ->
  host r' = host r ->
  1 <= numRounds r' <= MAX_ROUNDS ->
  room_inv r -> room_inv r'.
Proof.
  unfold room_inv, sockets_wf, host_listed.
  intros -> -> -> -> Hn (Hs & Hh & _). done.
Qed.

Lemma room_inv_range r : room_inv r -> 1 <= numRounds r <= MAX_ROUNDS.
Proof. by intros (_ & _ & ?). Qed.

Lemma room_inv_new now : room_inv (new_room now).
Proof.
  unfold room_inv, sockets_wf, host_listed, new_room, MAX_ROUNDS,
    DEFAULT_NUM_PROMPTS. cbn. split; [|split; [done | lia]].
  intros sid pid. by rewrite lookup_empty.
Qed.

(** The socket maps and the host after [join_room]. *)
Lemma join_body_sockets sid name pid flag now r :
  let r' := join_body sid name pid flag now r in
  let listed := existing_idx pid (players r) in
  let sockets :=
    <[pid := sid]> (match listed with
                    | Some _ => delete pid (playerSockets r)
                    | None => playerSockets r
                    end) in
  socketToPlayerId r' =
    <[sid := pid]> (match listed with
                    | Some _ => filter (fun kv => kv.2 ≠ pid)
                                  (socketToPlayerId r)
                    | None => socketToPlayerId r
                    end)
  /\ playerSockets r' = sockets
  /\ host r' =
       (if host_missing (set_playerSockets sockets r)
        then if flag then Some pid
             else if host_truthy r then host r else Some pid
        else host r).
Proof.
  unfold join_body. cbn [players set_lastActive].
  destruct (existing_idx pid (players r)) as [idx|]; cbv zeta;
    match goal with
    | |- context [socketToPlayerId (if host_missing ?r3 then _ else _)] =>
        change (host_missing (set_playerSockets _ r))
          with (host_missing r3);
        destruct (host_missing r3)
    end; done.
Qed.

Lemma join_body_inv sid name pid flag now r :
  NoDup (player_ids (players r)) -> room_inv r ->
  room_inv (join_body sid name pid flag now r).
Proof.
  intros Hnd (Hs & Hh & Hn).
  destruct (join_body_fields sid name pid flag now r)
    as (Hps & _ & _ & _ & _ & _ & _ & Hnum & _).
  destruct (join_body_sockets sid name pid flag now r) as (Hstp & Hpsk & Hhost).
  assert (Hids : forall x, x ∈ player_ids (players r) ->
            x ∈ player_ids (players (join_body sid name pid flag now r))).
  { intros x Hx. rewrite Hps. apply joined_players_ids; auto. }
  assert (Hpid : pid ∈ player_ids (players (join_body sid name pid flag now r))).
  { rewrite Hps. apply joined_players_ids; auto. }
  unfold room_inv. rewrite Hnum. split; [|split; [|done]].
  - intros sid0 pid0. rewrite Hstp, Hpsk.
    destruct (decide (sid0 = sid)) as [->|Hsid].
    + rewrite lookup_insert_eq. intros [= <-]. split; [done|].
      by rewrite lookup_insert_eq.
    + rewrite lookup_insert_ne by done.
      destruct (existing_idx pid (players r)) as [idx|] eqn:Hidx.
      * intros [Hold Hne]%map_lookup_filter_Some. cbn [snd] in Hne.
        destruct (Hs _ _ Hold) as [Hin Hsock]. split; [auto|].
        rewrite lookup_insert_ne by done. by rewrite lookup_delete_ne.
      * intros Hold. destruct (Hs _ _ Hold) as [Hin Hsock]. split; [auto|].
        assert (pid ≠ pid0).
        { intros ->. apply existing_idx_None, find_player_None in Hidx. done. }
        by rewrite lookup_insert_ne.
  - intros h. rewrite Hhost.
    destruct (host_missing _).
    + destruct flag; [by intros [= <-]|].
      destruct (host_truthy r); [|by intros [= <-]].
      intros Hhr. by apply Hids, Hh.
    + intros Hhr. by apply Hids, Hh.
Qed.

Lemma disconnect_room_sockets sid r r' :
  disconnect_room sid r = Some r' ->
  exists pid,
    socketToPlayerId r !! sid = Some pid /\ Str.truthy pid = true
    /\ socketToPlayerId r' = delete sid (socketToPlayerId r)
    /\ playerSockets r' = delete pid (playerSockets r)
    /\ numRounds r' = numRounds r
    /\ host r' =
         (if bool_decide (host r = Some pid)
          then p_playerId <$>
                 head (filter
                         (fun p => is_Some (delete pid (playerSockets r)
                                            !! p_playerId p))
                         (players r))
          else host r).
Proof.
  unfold disconnect_room.
  destruct (socketToPlayerId r !! sid) as [pid|]; [|done].
  destruct (Str.truthy pid) eqn:Hpid; [|done]. cbn [negb].
  intros [= <-]. exists pid. cbn [host set_socketToPlayerId set_playerSockets].
  by case_bool_decide.
Qed.

Lemma disconnect_room_inv sid r r' :
  disconnect_room sid r = Some r' -> room_inv r -> room_inv r'.
Proof.
  intros Hd (Hs & Hh & Hn).
  destruct (disconnect_room_fields _ _ _ Hd) as (Hps & _ & _).
  destruct (disconnect_room_sockets _ _ _ Hd)
    as (pid & Hsid & _ & Hstp & Hpsk & Hnum & Hhost).
  unfold room_inv, sockets_wf, host_listed.
  rewrite Hps, Hstp, Hpsk, Hnum, Hhost. split; [|split; [|done]].
  - intros sid0 pid0 [Hne Hold]%lookup_delete_Some.
    destruct (Hs _ _ Hold) as [Hin Hsock]. split; [done|].
    rewrite lookup_delete_ne; [done|]. intros ->.
    destruct (Hs _ _ Hsid) as [_ Hsock']. congruence.
  - intros h. case_bool_decide; [|apply Hh].
    destruct (head _) as [p|] eqn:Hhead; [|done]. cbn. intros [= <-].
    apply head_Some_elem_of, list_elem_of_filter in Hhead as [_ Hp].
    by apply list_elem_of_fmap_2.
Qed.

(** What [end_round] leaves alone. *)
Lemma end_round_room_frame room r :
  let r' := (end_round_room room r).1 in
  socketToPlayerId r' = socketToPlayerId r
  /\ playerSockets r' = playerSockets r
  /\ host r' = host r
  /\ numRounds r' = numRounds r
  /\ player_ids (players r') = player_ids (players r)
  /\ answers r' = answers r
  /\ answer_order r' = answer_order r
  /\ roundId r' = roundId r
  /\ currentRound r' = currentRound r
  /\ currentPrompt r' = currentPrompt r
  /\ prompts r' = prompts r
  /\ gameStarted r' = gameStarted r.
Proof.
  unfold end_round_room. destruct (roundEnded r); [done|].
  pose proof (apply_scoring_ids (set_roundEnded true r)) as Hids.
  unfold apply_scoring_from_order in *.
  destruct (scoring_loop 0 (take 3 (correct_order (set_roundEnded true r)))
              (players (set_roundEnded true r)) []) as [ps aw].
  cbn [fst numRounds currentRound set_players set_roundEnded] in *.
  by destruct (numRounds r <=? Z.of_nat (currentRound r))%Z.
Qed.

(** What [start_round] leaves alone. *)
Lemma start_round_room_frame room now r :
  let r' := (start_round_room room now r).1.1 in
  socketToPlayerId r' = socketToPlayerId r
  /\ playerSockets r' = playerSockets r
  /\ host r' = host r
  /\ numRounds r' = numRounds r
  /\ players r' = players r
  /\ prompts r' = prompts r
  /\ gameStarted r' = gameStarted r.
Proof.
  unfold start_round_room.
  destruct (numRounds r <=? Z.of_nat (currentRound r))%Z; [done|].
  by destruct (prompts _ !! currentRound _).
Qed.

Lemma end_round_inv room s : table_inv s -> table_inv (end_round room s).1.
Proof.
  intros Hinv. unfold end_round.
  destruct (rooms_get room s) as [r|] eqn:Hr; [|done].
  pose proof (end_round_room_frame room r) as (? & ? & ? & Hn & ? & _).
  destruct (end_round_room room r) as [r' eff]. cbn [fst] in *.
  eapply table_inv_update; [done | exact Hr|]. intros Hri.
  apply (room_inv_ext r); try done. rewrite Hn. by apply room_inv_range.
Qed.

Lemma start_round_inv room now s :
  table_inv s -> table_inv (start_round room now s).1.1.
Proof.
  intros Hinv. unfold start_round.
  destruct (rooms_get room s) as [r|] eqn:Hr; [|done].
  pose proof (start_round_room_frame room now r)
    as (? & ? & ? & Hn & Hps & _).
  destruct (start_round_room room now r) as [[r' eff] exn]. cbn [fst] in *.
  eapply table_inv_update; [done | exact Hr|]. intros Hri.
  apply (room_inv_ext r); try done; [by rewrite Hps|].
  rewrite Hn. by apply room_inv_range.
Qed.

Lemma join_room_inv sid data now s :
  rooms_wf s -> table_inv s -> table_inv (join_room sid data now s).1.1.
Proof.
  intros Hwf Hinv. unfold join_room.
  destruct (jd_room data) as [room|]; [|done].
  destruct (Str.truthy room) eqn:Ht; [|done].
  destruct (Str.startswith "shout-" room) eqn:Hp; [|done].
  cbn [negb orb fst]. apply table_inv_set; [done | done |].
  destruct (rooms_get room s) as [r|] eqn:Hr.
  - apply join_body_inv.
    + by destruct (rooms_wf_get _ _ _ Hwf Hr).
    + by destruct (table_inv_get _ _ _ Hinv Hr).
  - apply join_body_inv; [constructor | apply room_inv_new].
Qed.

Lemma generate_prompts_handler_inv sid data s :
  table_inv s -> table_inv (generate_prompts_handler sid data s).1.1.
Proof.
  intros Hinv. unfold generate_prompts_handler.
  destruct (gd_room data) as [room|]; [|done]. cbn [rooms_get_opt].
  destruct (rooms_get room s) as [r|] eqn:Hr; [|done].
  destruct (not_host sid r); [done|]. cbn [fst].
  eapply table_inv_update; [done | exact Hr|]. intros Hri.
  apply (room_inv_ext r); try done. apply clamp_num_prompts_range.
Qed.

Lemma generate_task_inv room n outcome s :
  table_inv s -> table_inv (generate_task room n outcome s).1.1.
Proof.
  intros Hinv. unfold generate_task. cbn [fst].
  destruct (rooms_get room s) as [r|] eqn:Hr; [|done].
  eapply table_inv_update; [done | exact Hr|]. intros Hri.
  apply (room_inv_ext r); try done. by apply room_inv_range.
Qed.

Lemma start_game_inv sid data gen s :
  table_inv s -> table_inv (start_game sid data gen s).1.1.
Proof.
  intros Hinv. unfold start_game.
  destruct (start_game_room data) as [room|]; [|done].
  destruct (negb (Str.truthy room)); [done|].
  destruct (rooms_get room s) as [r|] eqn:Hr; [|done].
  destruct (not_host sid r); [done|].
  destruct (negb (prompts_ready r)); cbn [gameStarted set_prompts_ready
    set_prompts set_numRounds];
    destruct (gameStarted r); cbn [fst];
    (eapply table_inv_update; [done | exact Hr|]); intros Hri;
    apply (room_inv_ext r); try done;
    first [ by apply room_inv_range
          | cbn; unfold DEFAULT_NUM_PROMPTS, MAX_ROUNDS; lia ].
Qed.

Lemma submit_answer_inv sid data ts s :
  table_inv s -> table_inv (submit_answer sid data ts s).1.1.
Proof.
  intros Hinv. unfold submit_answer.
  destruct (sd_room data) as [room|]; [|done]. cbn [rooms_get_opt].
  destruct (rooms_get room s) as [r|] eqn:Hr; [|done].
  destruct (currentPrompt r) as [prompt|]; [|done].
  destruct (roundEnded r); [done|].
  case_bool_decide as Hans; [done|].
  destruct (find_player (sd_playerId data) (players r)) as [pl|]; [|done].
  match goal with
  | |- context [rooms_set room ?r1 s] =>
      assert (Hs1 : table_inv (rooms_set room r1 s))
  end.
  { eapply table_inv_update; [done | exact Hr|]. intros Hri.
    apply (room_inv_ext r); try done. by apply room_inv_range. }
  match goal with |- context [if ?b then _ else _] => destruct b end;
    [|done].
  match goal with
  | |- context [end_round room ?s1] =>
      pose proof (end_round_inv room s1 Hs1) as Hend;
      destruct (end_round room s1) as [s2 eff]
  end.
  done.
Qed.

Lemma next_round_inv sid data now s :
  table_inv s -> table_inv (next_round sid data now s).1.1.
Proof.
  intros Hinv. unfold next_round.
  destruct (next_round_room data) as [room|]; [|done]. cbn [rooms_get_opt].
  destruct (rooms_get room s) as [r|]; [|done].
  destruct (not_host sid r); [done | by apply start_round_inv].
Qed.

Lemma disconnect_inv sid s : table_inv s -> table_inv (disconnect sid s).1.1.
Proof.
  intros [Hnd Hall]. unfold disconnect. cbn [fst]. split.
  - by rewrite map_map.
  - apply Forall_fmap. eapply Forall_impl; [exact Hall|].
    intros [k r] [Hcode Hr]. unfold compose. cbn [fst snd] in *.
    split; [done|].
    destruct (disconnect_room sid r) as [r'|] eqn:Hd; [|done].
    change (default r (Some r')) with r'. by eapply disconnect_room_inv.
Qed.

Lemma round_timer_inv room rid s :
  table_inv s -> table_inv (round_timer room rid s).1.1.
Proof.
  intros Hinv. unfold round_timer.
  destruct (rooms_get room s) as [r|]; [|done].
  destruct (bool_decide (roundId r = rid) && negb (roundEnded r)); [|done].
  pose proof (end_round_inv room s Hinv).
  by destruct (end_round room s).
Qed.

Lemma delayed_next_inv room now s :
  table_inv s -> table_inv (delayed_next room now s).1.1.
Proof.
  intros Hinv. unfold delayed_next.
  destruct (rooms_get room s) as [r|]; [|done].
  destruct (gameEnded r); [done | by apply start_round_inv].
Qed.

Lemma rooms_pop_sublist room s : rooms_pop room s `sublist_of` s.
Proof.
  induction s as [|[k r] s IH]; cbn [rooms_pop]; [done|].
  destruct (decide (k = room)); [by apply sublist_cons | by apply sublist_skip].
Qed.

Lemma cleanup_inv room s : table_inv s -> table_inv (cleanup room s).1.1.
Proof.
  intros [Hnd Hall]. unfold cleanup.
  destruct (rooms_get room s) as [r|]; [|done].
  case_bool_decide; [|done]. cbn [fst]. split.
  - eapply sublist_NoDup; [exact Hnd|].
    apply fmap_sublist, rooms_pop_sublist.
  - rewrite Forall_forall in Hall. apply Forall_forall. intros kr Hkr.
    apply Hall. eapply elem_of_sublist; [exact Hkr|].
    apply rooms_pop_sublist.
Qed.

Lemma step_inv e s :
  rooms_wf s -> table_inv s -> table_inv (step e s).1.1.
Proof.
  intros Hwf Hinv. destruct e; cbn [step];
    eauto using join_room_inv, generate_prompts_handler_inv,
      generate_task_inv, start_game_inv, start_round_inv, submit_answer_inv,
      next_round_inv, disconnect_inv, round_timer_inv, delayed_next_inv,
      cleanup_inv.
Qed.

Lemma run_inv es s :
  rooms_wf s -> table_inv s -> table_inv (run es s).1.
Proof.
  revert s. induction es as [|e es IH]; intros s Hwf Hinv; [done|].
  cbn [run]. pose proof (step_wf e s Hwf) as Hwf1.
  pose proof (step_inv e s Hwf Hinv) as Hinv1.
  destruct (step e s) as [[s1 eff1] rep]. cbn [fst] in *.
  specialize (IH s1 Hwf1 Hinv1). by destruct (run es s1).
Qed.

Lemma reachable_inv s : reachable s -> table_inv s.
Proof.
  intros [es <-]. apply run_inv; [constructor|].
  split; [constructor | constructor].
Qed.

(** X9. In every room of every reachable table: player ids are unique;
    the submissions of the round come from distinct players, who are
    exactly the keys of [answers] and are all listed players; so
    [answers] and [answer_order] have the same number of entries, and
    never more than there are players. *)
Theorem reachable_roster_invariant (s : Rooms) (room : string) (r : Room) :
  reachable s ->
  rooms_get room s = Some r ->
  NoDup (player_ids (players r))
  /\ NoDup (submitter_ids (answer_order r))
  /\ (forall pid, pid ∈ submitter_ids (answer_order r) <-> answered r pid)
  /\ (forall pid, answered r pid -> pid ∈ player_ids (players r))
  /\ size (answers r) = length (answer_order r)
  /\ (size (answers r) <= length (players r))%nat.
Proof.
  intros Hreach Hr.
  destruct (rooms_wf_get _ _ _ (reachable_wf _ Hreach) Hr)
    as (Hps & Hao & Hans & Hin).
  do 4 (split; [done|]).
  assert (Hdom : dom (answers r)
                 = (list_to_set (submitter_ids (answer_order r)) : gset string)).
  { apply set_eq. intros x.
    by rewrite elem_of_dom, elem_of_list_to_set, Hans. }
  split.
  - rewrite <- size_dom, Hdom, size_list_to_set by done.
    unfold submitter_ids. apply length_map.
  - rewrite <- size_dom.
    replace (length (players r))
      with (size (list_to_set (player_ids (players r)) : gset string)).
    + apply subseteq_size. intros x Hx%elem_of_dom.
      by apply elem_of_list_to_set, Hin.
    + rewrite size_list_to_set by done. unfold player_ids. apply length_map.
Qed.

Lemma reachable_roster_invariant_witness :
  size (answers (Scenario.the_room Scenario.round1_A))
  = length (answer_order (Scenario.the_room Scenario.round1_A)).
Proof.
  apply (reachable_roster_invariant Scenario.round1_A Scenario.room
           (Scenario.the_room Scenario.round1_A)).
  - exists (Scenario.setup ++ [Scenario.submitA])%list.
    unfold Scenario.round1_A. reflexivity.
  - vm_compute. reflexivity.
Defined.

(** X10. In every reachable table no room code occurs twice, every code
    is non-empty and starts with "shout-", and the number of rounds of
    every room lies between 1 and [MAX_ROUNDS]. *)
Theorem reachable_codes_and_rounds (s : Rooms) :
  reachable s ->
  NoDup (map fst s)
  /\ (forall room r, rooms_get room s = Some r ->
        code_valid room /\ 1 <= numRounds r <= MAX_ROUNDS).
Proof.
  intros Hreach. pose proof (reachable_inv _ Hreach) as Hinv.
  split; [by destruct Hinv|]. intros room r Hr.
  destruct (table_inv_get _ _ _ Hinv Hr) as [Hcode Hri].
  split; [done | by apply room_inv_range].
Qed.

Lemma reachable_codes_and_rounds_witness :
  NoDup (map fst Scenario.round1_done).
Proof.
  apply (reachable_codes_and_rounds Scenario.round1_done).
  exists (Scenario.setup ++ [Scenario.submitA; Scenario.submitB])%list.
  unfold Scenario.round1_done. reflexivity.
Defined.

(** X11. In every room of every reachable table, a socket bound to a
    player id belongs to a listed player and is that player's one live
    socket, so no two sockets are bound to the same player; and the host,
    when there is one, is a listed player. *)
Theorem reachable_sockets_and_host (s : Rooms) (room : string) (r : Room) :
  reachable s ->
  rooms_get room s = Some r ->
  (forall sid pid, socketToPlayerId r !! sid = Some pid ->
     pid ∈ player_ids (players r) /\ playerSockets r !! pid = Some sid)
  /\ (forall sid1 sid2 pid,
        socketToPlayerId r !! sid1 = Some pid ->
        socketToPlayerId r !! sid2 = Some pid -> sid1 = sid2)
  /\ (forall h, host r = Some h -> h ∈ player_ids (players r)).
Proof.
  intros Hreach Hr.
  destruct (table_inv_get _ _ _ (reachable_inv _ Hreach) Hr)
    as [_ (Hs & Hh & _)].
  split; [done|]. split; [|done].
  intros sid1 sid2 pid H1 H2.
  destruct (Hs _ _ H1) as [_ Hp1]. destruct (Hs _ _ H2) as [_ Hp2].
  congruence.
Qed.

Lemma reachable_sockets_and_host_witness :
  "A" ∈ player_ids (players (Scenario.the_room Scenario.round1_B_left))
  /\ playerSockets (Scenario.the_room Scenario.round1_B_left) !! "A"
     = Some "sidA".
Proof.
  destruct (reachable_sockets_and_host Scenario.round1_B_left Scenario.room
              (Scenario.the_room Scenario.round1_B_left))
    as (Hsock & _ & Hhost).
  - exists (Scenario.setup ++ [EvDisconnect "sidB"])%list.
    unfold Scenario.round1_B_left. reflexivity.
  - vm_compute. reflexivity.
  - split.
    + apply (Hhost "A"). vm_compute. reflexivity.
    + apply (Hsock "sidA" "A"). vm_compute. reflexivity.
Defined.

(** ** Joining a room *)

(** X12. A join whose room code is missing, empty or does not start with
    "shout-" is refused with "Invalid room code": no room is created,
    the table is unchanged and nothing is emitted. *)
Theorem join_invalid_code_rejected (sid : string) (data : JoinData) (now : Z)
    (s : Rooms) :
  (forall room, jd_room data = Some room -> ~ code_valid room) ->
  step (EvJoin sid data now) s = (s, [], RError "Invalid room code").
Proof.
  intros Hbad. cbn [step]. unfold join_room.
  destruct (jd_room data) as [room|]; [|done].
  destruct (Str.truthy room) eqn:Ht; [|done].
  destruct (Str.startswith "shout-" room) eqn:Hp; [|done].
  by destruct (Hbad room eq_refl).
Qed.

Lemma join_invalid_code_rejected_witness :
  step (EvJoin "sidC" (mkJoinData (Some "lobby-1") "Cy" "C" true) 95)
    Scenario.round1
  = (Scenario.round1, [], RError "Invalid room code").
Proof.
  apply (join_invalid_code_rejected "sidC"
           (mkJoinData (Some "lobby-1") "Cy" "C" true) 95 Scenario.round1).
  intros room [= <-] [_ Hp]. vm_compute in Hp. discriminate.
Defined.

(** X13. A join with a valid code, in a reachable table, answers with
    the room and the player id and binds the socket both ways: the socket
    maps to the player, the player to the socket, and no other socket
    maps to that player any more.  The player is listed exactly once, at
    the end of the list, under the new name and with the score held
    before (0 for a newcomer); every other player is listed as before. *)
Theorem join_binds_socket (sid : string) (data : JoinData) (now : Z)
    (room : string) (s : Rooms) :
  reachable s ->
  jd_room data = Some room ->
  code_valid room ->
  let pid := jd_playerId data in
  let old := default [] (players <$> rooms_get room s) in
  exists r',
    step (EvJoin sid data now) s
    = (rooms_set room r' s, join_effects sid room now r', RJoined room pid)
    /\ socketToPlayerId r' !! sid = Some pid
    /\ playerSockets r' !! pid = Some sid
    /\ (forall sid', socketToPlayerId r' !! sid' = Some pid -> sid' = sid)
    /\ last (players r')
       = Some (mkPlayer (jd_name data) pid
                 (default 0 (p_score <$> find_player pid old)))
    /\ NoDup (player_ids (players r'))
    /\ (forall pid', pid' ≠ pid ->
          find_player pid' (players r') = find_player pid' old).
Proof.
  intros Hreach Hroom [Ht Hp] pid old. cbn [step]. unfold join_room.
  rewrite Hroom, Ht, Hp. cbn [negb orb].
  set (r0 := match rooms_get room s with
             | Some r => r
             | None => new_room now
             end).
  assert (Hold : old = players r0).
  { unfold old, r0. by destruct (rooms_get room s). }
  assert (Hwf0 : NoDup (player_ids (players r0)) /\ room_inv r0).
  { unfold r0. destruct (rooms_get room s) as [r|] eqn:Hr.
    - split.
      + by destruct (rooms_wf_get _ _ _ (reachable_wf _ Hreach) Hr).
      + by destruct (table_inv_get _ _ _ (reachable_inv _ Hreach) Hr).
    - split; [constructor | apply room_inv_new]. }
  destruct Hwf0 as [Hnd0 Hinv0].
  exists (join_body sid (jd_name data) pid (jd_isHost data) now r0).
  split; [done|].
  destruct (join_body_sockets sid (jd_name data) pid (jd_isHost data) now r0)
    as (Hstp & Hpsk & _).
  destruct (join_body_fields sid (jd_name data) pid (jd_isHost data) now r0)
    as (Hps & _).
  pose proof (join_body_inv sid (jd_name data) pid (jd_isHost data) now r0
                Hnd0 Hinv0) as (Hs' & _).
  split; [by rewrite Hstp, lookup_insert_eq|].
  split; [by rewrite Hpsk, lookup_insert_eq|].
  split.
  { intros sid' Hsid'. destruct (Hs' _ _ Hsid') as [_ Hsock].
    rewrite Hpsk, lookup_insert_eq in Hsock. congruence. }
  rewrite Hps, Hold. split; [|split].
  - unfold joined_players.
    destruct (existing_idx pid (players r0)) as [idx|] eqn:Hidx.
    + destruct (existing_idx_Some _ _ _ Hidx) as (p & Hl & Hf & _).
      by rewrite last_snoc, Hl, Hf.
    + apply existing_idx_None in Hidx. by rewrite last_snoc, Hidx.
  - by apply joined_players_NoDup.
  - intros pid' Hne. unfold joined_players.
    destruct (existing_idx pid (players r0)) as [idx|] eqn:Hidx.
    + rewrite find_player_app, (find_player_delete_ne pid) by done.
      destruct (find_player pid' (players r0)); [done|].
      cbn [find_player p_playerId]. by rewrite decide_False.
    + rewrite find_player_app.
      destruct (find_player pid' (players r0)); [done|].
      cbn [find_player p_playerId]. by rewrite decide_False.
Qed.

Lemma join_binds_socket_witness :
  exists r',
    step (EvJoin "sidA2"
            (mkJoinData (Some Scenario.room) "Anna" "A" false) 120)
      Scenario.round1_done
    = (rooms_set Scenario.room r' Scenario.round1_done,
       join_effects "sidA2" Scenario.room 120 r',
       RJoined Scenario.room "A")
    /\ socketToPlayerId r' !! "sidA2" = Some "A"
    /\ playerSockets r' !! "A" = Some "sidA2".
Proof.
  destruct (join_binds_socket "sidA2"
              (mkJoinData (Some Scenario.room) "Anna" "A" false) 120
              Scenario.room Scenario.round1_done)
    as (r' & Hstep & Hs & Hp & _).
  - exists (Scenario.setup ++ [Scenario.submitA; Scenario.submitB])%list.
    unfold Scenario.round1_done. reflexivity.
  - reflexivity.
  - split; vm_compute; reflexivity.
  - exists r'. split; [exact Hstep|]. split; [exact Hs | exact Hp].
Defined.

(** A rejoin moves the player to the end of the list and keeps the
    score. *)
Example rejoin_keeps_score :
  players (Scenario.the_room
             (step (EvJoin "sidA2"
                      (mkJoinData (Some Scenario.room) "Anna" "A" false) 120)
                Scenario.round1_done).1.1)
  = [mkPlayer "Bob" "B" 0; mkPlayer "Anna" "A" 5].
Proof. vm_compute. reflexivity. Qed.

(** The time a late joiner is told.  Round 1 started at clock value
    100; a join two and a half seconds later is sent 7 seconds, a join
    eleven seconds later 0. *)
Example late_join_remaining_time :
  last (join_effects "sidC" Scenario.room (100 + 5 * TICKS / 2)
          (Scenario.the_room Scenario.round1))
  = Some (Emit (ToSid "sidC")
            (NewRound "Name a primary color" 1
               [mkPlayer "Ann" "A" 0; mkPlayer "Bob" "B" 0] 7))
  /\ last (join_effects "sidC" Scenario.room (100 + 11 * TICKS)
             (Scenario.the_room Scenario.round1))
     = Some (Emit (ToSid "sidC")
               (NewRound "Name a primary color" 1
                  [mkPlayer "Ann" "A" 0; mkPlayer "Bob" "B" 0] 0)).
Proof. vm_compute. split; reflexivity. Qed.



(** ** Host-only operations *)

(** X15. The host test compares the player id bound to the socket,
    [None] for a socket that never joined, with the host of the room,
    [None] when it has none.  When the two differ, [generate-prompts] and
    [start-game] are refused with an error and [next-round] is ignored,
    and in all three cases the table is unchanged and nothing is emitted
    or scheduled; a socket bound to a player who is not the host is such
    a case.  When the two are equal the request goes through, and they
    are equal also for a socket that never joined in a room that has no
    host: its [generate-prompts] is accepted and its [next-round] runs
    [start_round]. *)
Theorem host_only_operations (sid room : string) (s : Rooms) (r : Room) :
  rooms_get room s = Some r ->
  (socketToPlayerId r !! sid <> host r ->
     (forall data, gd_room data = Some room ->
        step (EvGeneratePrompts sid data) s
        = (s, [], RError "Only host can generate prompts"))
     /\ (forall data gen, start_game_room data = Some room ->
           Str.truthy room = true ->
           step (EvStartGame sid data gen) s
           = (s, [], RError "Only host can start"))
     /\ (forall data now, next_round_room data = Some room ->
           step (EvNextRound sid data now) s = (s, [], RNone)))
  /\ (forall pid, socketToPlayerId r !! sid = Some pid ->
        host r <> Some pid -> socketToPlayerId r !! sid <> host r)
  /\ (socketToPlayerId r !! sid = host r ->
      (forall data, gd_room data = Some room ->
         let n := clamp_num_prompts
                    (requested_num_prompts (gd_numPrompts data)) in
         step (EvGeneratePrompts sid data) s
         = (rooms_set room (set_numRounds n (set_prompts_ready false r)) s,
            [Emit (ToRoom room) (PromptsStatus "generating");
             Spawn (GenerateTask room
                      (str_or (gd_theme data) DEFAULT_THEME)
                      (str_or (gd_difficulty data) DEFAULT_DIFFICULTY) n)],
            RSuccess))
      /\ (forall data now, next_round_room data = Some room ->
            step (EvNextRound sid data now) s
            = step (EvStartRound room now) s)).
Proof.
  intros Hr. split; [|split].
  - intros Hne.
    assert (Hnot : not_host sid r = true).
    { unfold not_host. by rewrite bool_decide_eq_false_2. }
    split; [|split].
    + intros data Hroom. cbn [step]. unfold generate_prompts_handler.
      rewrite Hroom. cbn [rooms_get_opt]. by rewrite Hr, Hnot.
    + intros data gen Hroom Ht. cbn [step]. unfold start_game.
      rewrite Hroom, Ht. cbn [negb]. by rewrite Hr, Hnot.
    + intros data now Hroom. cbn [step]. unfold next_round.
      rewrite Hroom. cbn [rooms_get_opt]. by rewrite Hr, Hnot.
  - intros pid Hpid Hhost. rewrite Hpid. congruence.
  - intros Heq.
    assert (Hnot : not_host sid r = false).
    { unfold not_host. by rewrite bool_decide_eq_true_2. }
    split.
    + intros data Hroom. cbn [step]. unfold generate_prompts_handler.
      rewrite Hroom. cbn [rooms_get_opt]. by rewrite Hr, Hnot.
    + intros data now Hroom. cbn [step]. unfold next_round.
      rewrite Hroom. cbn [rooms_get_opt]. by rewrite Hr, Hnot.
Qed.

Lemma host_only_operations_witness :
  step (EvNextRound "sidB" (ArgStr Scenario.room) 105) Scenario.round1_A
  = (Scenario.round1_A, [], RNone)
  /\ (step (EvGeneratePrompts "sidZ"
              (mkGenData (Some "shout-1") None None (Some 3))) abandoned).2
     = RSuccess.
Proof.
  split.
  - apply (host_only_operations "sidB" Scenario.room Scenario.round1_A
             (Scenario.the_room Scenario.round1_A)).
    + vm_compute. reflexivity.
    + vm_compute. discriminate.
    + reflexivity.
  - destruct (host_only_operations "sidZ" "shout-1" abandoned
                (default (new_room 0) (rooms_get "shout-1" abandoned)))
      as (_ & _ & Hgo).
    + vm_compute. reflexivity.
    + destruct Hgo as [Hgen _]; [vm_compute; reflexivity|].
      by rewrite (Hgen (mkGenData (Some "shout-1") None None (Some 3))
                    eq_refl).
Defined.

(** A room whose only player has left has no host, and a socket that
    never joined it can generate prompts and start rounds in it. *)
Example stranger_in_abandoned_room :
  host <$> rooms_get "shout-1" abandoned = Some None
  /\ (run [EvGeneratePrompts "sidZ"
             (mkGenData (Some "shout-1") None None (Some 3));
           EvGenerateTask "shout-1" 3 GenRaised;
           EvNextRound "sidZ" (ArgStr "shout-1") 95] abandoned).2
     = [Emit (ToRoom "shout-1") (PromptsStatus "generating");
        Spawn (GenerateTask "shout-1" "general" "easy" 3);
        Emit (ToRoom "shout-1") (PromptsStatus "ready");
        Emit (ToRoom "shout-1")
          (NewRound "Name a fruit" 1 [mkPlayer "Ann" "A" 0] ROUND_TIME);
        Spawn (RoundTimer "shout-1" 1)].
Proof. vm_compute. split; reflexivity. Qed.

(** ** The life of a room *)

Lemma rooms_set_keys_same room r r' s :
  rooms_get room s = Some r -> map fst (rooms_set room r' s) = map fst s.
Proof. intros Hr. by rewrite rooms_set_keys, Hr. Qed.

Lemma end_round_keys room s : map fst (end_round room s).1 = map fst s.
Proof.
  unfold end_round. destruct (rooms_get room s) as [r|] eqn:Hr; [|done].
  destruct (end_round_room room r). by eapply rooms_set_keys_same.
Qed.

Lemma start_round_keys room now s :
  map fst (start_round room now s).1.1 = map fst s.
Proof.
  unfold start_round. destruct (rooms_get room s) as [r|] eqn:Hr; [|done].
  destruct (start_round_room room now r) as [[r' eff] exn].
  by eapply rooms_set_keys_same.
Qed.

Lemma step_keys e s :
  is_join e = false -> is_cleanup e = false ->
  map fst (step e s).1.1 = map fst s.
Proof.
  intros Hj Hc. destruct e; try done; cbn [step].
  - unfold generate_prompts_handler.
    destruct (gd_room data) as [room|]; [|done]. cbn [rooms_get_opt].
    destruct (rooms_get room s) as [r|] eqn:Hr; [|done].
    destruct (not_host sid r); [done|]. by eapply rooms_set_keys_same.
  - unfold generate_task. cbn [fst].
    destruct (rooms_get room s) as [r|] eqn:Hr; [|done].
    by eapply rooms_set_keys_same.
  - unfold start_game.
    destruct (start_game_room data) as [room|]; [|done].
    destruct (negb (Str.truthy room)); [done|].
    destruct (rooms_get room s) as [r|] eqn:Hr; [|done].
    destruct (not_host sid r); [done|].
    destruct (negb (prompts_ready r)); cbn [gameStarted set_prompts_ready
      set_prompts set_numRounds];
      destruct (gameStarted r); by eapply rooms_set_keys_same.
  - apply start_round_keys.
  - unfold submit_answer.
    destruct (sd_room data) as [room|]; [|done]. cbn [rooms_get_opt].
    destruct (rooms_get room s) as [r|] eqn:Hr; [|done].
    destruct (currentPrompt r) as [prompt|]; [|done].
    destruct (roundEnded r); [done|].
    case_bool_decide; [done|].
    destruct (find_player (sd_playerId data) (players r)); [|done].
    match goal with |- context [if ?b then _ else _] => destruct b end;
      [|by eapply rooms_set_keys_same].
    match goal with
    | |- context [end_round room ?s1] =>
        pose proof (end_round_keys room s1) as Hk;
        destruct (end_round room s1) as [s2 eff]
    end.
    cbn [fst] in *. rewrite Hk. by eapply rooms_set_keys_same.
  - unfold next_round.
    destruct (next_round_room data) as [room|]; [|done]. cbn [rooms_get_opt].
    destruct (rooms_get room s) as [r|]; [|done].
    destruct (not_host sid r); [done | apply start_round_keys].
  - unfold disconnect. cbn [fst]. by rewrite map_map.
  - unfold round_timer. destruct (rooms_get room s) as [r|]; [|done].
    destruct (bool_decide _ && negb _); [|done].
    pose proof (end_round_keys room s). by destruct (end_round room s).
  - unfold delayed_next. destruct (rooms_get room s) as [r|]; [|done].
    destruct (gameEnded r); [done | apply start_round_keys].
Qed.

(** X16. Rooms are created by joins only and removed by the cleanup
    task only.  Every other event leaves the room codes and their order
    as they are; a join adds at most the one code it names, at the end;
    a cleanup removes at most the one code it names. *)
Theorem room_codes_change_only_by_join_and_cleanup (e : Event) (s : Rooms) :
  (is_join e = false -> is_cleanup e = false ->
   map fst (step e s).1.1 = map fst s)
  /\ (forall sid data now, e = EvJoin sid data now ->
        map fst (step e s).1.1 = map fst s
        \/ exists room, jd_room data = Some room /\ code_valid room
             /\ rooms_get room s = None
             /\ map fst (step e s).1.1 = (map fst s ++ [room])%list)
  /\ (forall room, e = EvCleanup room ->
        map fst (step e s).1.1 = map fst s
        \/ map fst (step e s).1.1 = map fst (rooms_pop room s)).
Proof.
  split; [apply step_keys|]. split.
  - intros sid data now ->. cbn [step]. unfold join_room.
    destruct (jd_room data) as [room|]; [|by left].
    destruct (Str.truthy room) eqn:Ht; [|by left].
    destruct (Str.startswith "shout-" room) eqn:Hp; [|by left].
    cbn [negb orb fst]. rewrite rooms_set_keys.
    destruct (rooms_get room s) eqn:Hr; [by left|].
    right. by exists room.
  - intros room ->. cbn [step]. unfold cleanup.
    destruct (rooms_get room s) as [r|]; [|by left].
    case_bool_decide; [by right | by left].
Qed.

Lemma room_codes_change_only_by_join_and_cleanup_witness :
  map fst (step (EvDisconnect "sidA") Scenario.round1).1.1
  = map fst Scenario.round1.
Proof.
  apply (proj1 (room_codes_change_only_by_join_and_cleanup
                  (EvDisconnect "sidA") Scenario.round1)); reflexivity.
Defined.

(** ** Recording an answer *)




(** An answer with a trailing no-break space is stored without it and
    judged correct. *)
Example submit_strips_no_break_space :
  head (step (EvSubmitAnswer "sidA"
                (mkSubmitData (Some Scenario.room)
                   (Some (String.append "Red"
                            (String (ascii_of_nat 160) EmptyString)))
                   "A") 101)
          Scenario.round1).1.2
  = Some (Emit (ToRoom Scenario.room) (AnswerReceived "Ann" "Red" true)).
Proof. vm_compute. reflexivity. Qed.

(** X18. A submission is ignored, with the table unchanged and nothing
    sent, whenever its room does not exist or, in its room, no prompt has
    been set yet, the round has ended, the sender has already answered,
    or the sender is not a listed player. *)
Theorem submit_ignored (sid : string) (data : SubmitData) (ts : Z)
    (s : Rooms) :
  (forall room r, sd_room data = Some room -> rooms_get room s = Some r ->
     currentPrompt r = None \/ roundEnded r = true
     \/ answered r (sd_playerId data)
     \/ sd_playerId data ∉ player_ids (players r)) ->
  step (EvSubmitAnswer sid data ts) s = (s, [], RNone).
Proof.
  intros Hign. cbn [step]. unfold submit_answer.
  destruct (sd_room data) as [room|]; [|done]. cbn [rooms_get_opt].
  destruct (rooms_get room s) as [r|] eqn:Hr; [|done].
  destruct (Hign room r eq_refl Hr) as [Hp|[He|[Ha|Hl]]].
  - by rewrite Hp.
  - rewrite He. by destruct (currentPrompt r).
  - destruct (currentPrompt r); [|done]. destruct (roundEnded r); [done|].
    by rewrite bool_decide_eq_true_2.
  - destruct (currentPrompt r); [|done]. destruct (roundEnded r); [done|].
    case_bool_decide; [done|].
    apply find_player_None in Hl. by rewrite Hl.
Qed.

Lemma submit_ignored_witness :
  step (EvSubmitAnswer "sidZ"
          (mkSubmitData (Some Scenario.room) (Some "red") "Z") 101)
    Scenario.round1
  = (Scenario.round1, [], RNone).
Proof.
  apply (submit_ignored "sidZ"
           (mkSubmitData (Some Scenario.room) (Some "red") "Z") 101
           Scenario.round1).
  intros room r [= <-] Hr. right. right. right.
  assert (Heq : r = Scenario.the_room Scenario.round1)
    by (unfold Scenario.the_room; by rewrite Hr).
  rewrite Heq. apply (bool_decide_unpack _). vm_compute. exact I.
Defined.

(** ** The [awarded] list *)

Lemma awards_from_add_score i items pid pts ps :
  awards_from i items (add_score pid pts ps) = awards_from i items ps.
Proof.
  revert i. induction items as [|a items IH]; intros i; [done|].
  cbn [awards_from]. rewrite IH, find_player_add_score.
  by destruct (find_player (ae_playerId a) ps).
Qed.

Lemma scoring_loop_awards i items ps aw :
  (forall a, a ∈ items -> ae_playerId a ∈ player_ids ps) ->
  (i + length items <= 3)%nat ->
  (scoring_loop i items ps aw).2 = (aw ++ awards_from i items ps)%list.
Proof.
  revert i ps aw. induction items as [|a items IH]; intros i ps aw Hin Hlen.
  - cbn [scoring_loop awards_from snd]. by rewrite app_nil_r.
  - cbn [length] in Hlen. cbn [scoring_loop awards_from].
    destruct (find_player (ae_playerId a) ps) as [pl|] eqn:Hpl.
    2:{ apply find_player_None in Hpl. destruct Hpl. apply Hin. by left. }
    destruct (lookup_lt_is_Some_2 points i) as [pts Hpts].
    { unfold points. cbn [length]. lia. }
    rewrite Hpts. rewrite IH.
    + rewrite awards_from_add_score, <- app_assoc. done.
    + intros b Hb. rewrite add_score_ids. apply Hin. by right.
    + lia.
Qed.

Lemma awards_from_shape i items ps :
  (i + length items <= 3)%nat ->
  length (awards_from i items ps) = length items
  /\ map aw_playerId (awards_from i items ps) = submitter_ids items
  /\ map aw_points (awards_from i items ps)
     = take (length items) (drop i points)
  /\ map aw_position (awards_from i items ps) = seq (S i) (length items).
Proof.
  revert i. induction items as [|a items IH]; intros i Hlen; [done|].
  cbn [length] in Hlen. destruct (IH (S i)) as (Hl & Hid & Hpt & Hpos); [lia|].
  cbn [awards_from length map submitter_ids aw_playerId aw_points
       aw_position seq].
  rewrite Hl, Hpos. fold (submitter_ids items). unfold submitter_ids in Hid.
  rewrite Hid, Hpt. do 2 (split; [done|]). split; [|done].
  destruct (lookup_lt_is_Some_2 points i) as [pts Hpts].
  { unfold points. cbn [length]. lia. }
  rewrite Hpts. cbn [default].
  by rewrite (drop_S _ _ _ Hpts).
Qed.

(** X19. In every room of a reachable table the [awarded] list of a
    finalization names, in order, the first three submitters of the
    sorted correct answers (all of them when there are fewer), with the
    points 5, 3, 2 and the positions 1, 2, 3, each under the name the
    player is listed with. *)
Theorem scoring_awarded_list (s : Rooms) (room : string) (r : Room) :
  reachable s ->
  rooms_get room s = Some r ->
  let order := correct_order r in
  let awarded := (apply_scoring_from_order r).2 in
  awarded = awards_from 0 (take 3 order) (players r)
  /\ length awarded = Nat.min 3 (length order)
  /\ map aw_playerId awarded = submitter_ids (take 3 order)
  /\ map aw_points awarded = take (length awarded) points
  /\ map aw_position awarded = seq 1 (length awarded)
  /\ (forall a, a ∈ awarded ->
        exists p, p ∈ players r /\ p_playerId p = aw_playerId a
                  /\ p_name p = aw_name a).
Proof.
  intros Hreach Hr order awarded.
  destruct (rooms_wf_get _ _ _ (reachable_wf _ Hreach) Hr)
    as (Hps & Hao & Hans & Hin).
  assert (Hlisted : forall a, a ∈ take 3 order ->
                      ae_playerId a ∈ player_ids (players r)).
  { intros a Ha. apply Hin, Hans. unfold submitter_ids.
    apply (list_elem_of_fmap_2 ae_playerId).
    assert (Ha' : a ∈ order)
      by (eapply elem_of_sublist; [exact Ha | apply sublist_take]).
    unfold order in Ha'. rewrite (correct_order_perm r) in Ha'.
    by apply list_elem_of_filter in Ha' as [_ ?]. }
  assert (Hlen3 : (0 + length (take 3 order) <= 3)%nat)
    by (rewrite length_take; lia).
  assert (Hawarded : awarded = awards_from 0 (take 3 order) (players r)).
  { unfold awarded, apply_scoring_from_order. fold order.
    pose proof (scoring_loop_awards 0 (take 3 order) (players r) []
                  Hlisted Hlen3) as Hloop.
    by destruct (scoring_loop 0 (take 3 order) (players r) []). }
  destruct (awards_from_shape 0 (take 3 order) (players r) Hlen3)
    as (Hl & Hid & Hpt & Hpos).
  rewrite Hawarded. split; [done|].
  split; [rewrite Hl, length_take; lia|].
  split; [done|]. rewrite Hl. split; [done|]. split; [done|].
  intros a Ha. revert Hlisted Ha. generalize 0%nat (take 3 order).
  intros i items. revert i.
  induction items as [|b items IH]; intros i Hlisted; cbn [awards_from].
  - by intros ?%elem_of_nil.
  - intros [->|Ha]%elem_of_cons.
    + cbn [aw_playerId aw_name].
      assert (Hb : b ∈ b :: items) by by left.
      apply Hlisted, find_player_is_Some in Hb as [p Hp]. rewrite Hp.
      apply find_player_Some in Hp as [Hp1 Hp2]. by exists p.
    + apply (IH (S i)); [|done]. intros c Hc. apply Hlisted. by right.
Qed.

Lemma scoring_awarded_list_witness :
  let r := Scenario.the_room Scenario.round1_A in
  map aw_points (apply_scoring_from_order r).2
  = take (length (apply_scoring_from_order r).2) points.
Proof.
  apply (scoring_awarded_list Scenario.round1_A Scenario.room
           (Scenario.the_room Scenario.round1_A)).
  - exists (Scenario.setup ++ [Scenario.submitA])%list.
    unfold Scenario.round1_A. reflexivity.
  - vm_compute. reflexivity.
Defined.

(** ** The end of a round and what follows *)

Lemma apply_scoring_no_correct r :
  filter is_correct (answer_order r) = [] ->
  (apply_scoring_from_order r).2 = []
  /\ players (apply_scoring_from_order r).1 = players r.
Proof.
  intros Hnone. unfold apply_scoring_from_order, correct_order.
  change (filter (fun a => ae_isCorrect a = true) (answer_order r))
    with (filter is_correct (answer_order r)).
  by rewrite Hnone.
Qed.

(** X20. When the timer of an active round fires and no answer of the
    round is correct (in particular when nobody has answered), the round
    ends with a [round-ended] message whose [awarded] list is empty and
    whose scoreboard shows the scores as they were: no score changes. *)
Theorem timeout_without_correct_answers (room : string) (s : Rooms)
    (r : Room) :
  rooms_get room s = Some r ->
  roundEnded r = false ->
  filter is_correct (answer_order r) = [] ->
  exists r' rest,
    step (EvRoundTimer room (roundId r)) s
    = (rooms_set room r' s,
       Emit (ToRoom room) (RoundEndedMsg (scoreboard_of (players r)) [])
         :: rest,
       RNone)
    /\ players r' = players r
    /\ roundEnded r' = true.
Proof.
  intros Hr Hact Hnone. cbn [step]. unfold round_timer.
  rewrite Hr, Hact. rewrite bool_decide_eq_true_2 by done. cbn [andb negb].
  unfold end_round. rewrite Hr. unfold end_round_room. rewrite Hact.
  destruct (apply_scoring_no_correct (set_roundEnded true r) Hnone)
    as [Haw Hps].
  destruct (apply_scoring_from_order (set_roundEnded true r)) as [r2 aw]
    eqn:Hscore.
  cbn [fst snd] in Haw, Hps. subst aw. rewrite Hps.
  assert (Hend2 : roundEnded r2 = true).
  { pose proof (apply_scoring_fields (set_roundEnded true r))
      as (_ & _ & He & _). by rewrite Hscore in He. }
  cbn [players set_roundEnded].
  destruct (numRounds r2 <=? Z.of_nat (currentRound r2))%Z;
    eexists _, _; (split; [reflexivity|]); done.
Qed.

Lemma timeout_without_correct_answers_witness :
  exists r' rest,
    step (EvRoundTimer Scenario.room
            (roundId (Scenario.the_room Scenario.round1))) Scenario.round1
    = (rooms_set Scenario.room r' Scenario.round1,
       Emit (ToRoom Scenario.room)
         (RoundEndedMsg
            (scoreboard_of (players (Scenario.the_room Scenario.round1))) [])
         :: rest,
       RNone)
    /\ players r' = players (Scenario.the_room Scenario.round1)
    /\ roundEnded r' = true.
Proof.
  apply (timeout_without_correct_answers Scenario.room Scenario.round1
           (Scenario.the_room Scenario.round1)).
  - vm_compute. reflexivity.
  - vm_compute. reflexivity.
  - vm_compute. reflexivity.
Defined.

(** X21. Ending an active round ends the game exactly when the round
    counter has reached the number of rounds: then [gameEnded] is set,
    [game-over] follows [round-ended] and no next round is scheduled.
    Otherwise [gameEnded] is left as it is and the next round is
    scheduled after [round-ended]. *)
Theorem last_round_ends_game (room : string) (s : Rooms) (r : Room) :
  rooms_get room s = Some r ->
  roundEnded r = false ->
  exists r' scoreboard awarded,
    rooms_get room (end_round room s).1 = Some r'
    /\ (numRounds r <= Z.of_nat (currentRound r) ->
        gameEnded r' = true
        /\ (end_round room s).2
           = [Emit (ToRoom room) (RoundEndedMsg scoreboard awarded);
              Emit (ToRoom room) (GameOver (players r'))])
    /\ (Z.of_nat (currentRound r) < numRounds r ->
        gameEnded r' = gameEnded r
        /\ (end_round room s).2
           = [Emit (ToRoom room) (RoundEndedMsg scoreboard awarded);
              Spawn (DelayedNext room)]).
Proof.
  intros Hr Hact. unfold end_round. rewrite Hr. unfold end_round_room.
  rewrite Hact.
  pose proof (apply_scoring_fields (set_roundEnded true r))
    as (_ & _ & _ & _ & Hcr & Hnr).
  assert (Hge : gameEnded (apply_scoring_from_order (set_roundEnded true r)).1
                = gameEnded r).
  { unfold apply_scoring_from_order. by destruct (scoring_loop _ _ _ _). }
  destruct (apply_scoring_from_order (set_roundEnded true r)) as [r2 aw].
  cbn [fst snd numRounds currentRound set_roundEnded] in *.
  rewrite Hcr, Hnr.
  destruct (Z.leb_spec (numRounds r) (Z.of_nat (currentRound r)));
    cbn [fst snd]; rewrite rooms_get_set_eq;
    eexists _, _, _; (split; [reflexivity|]); split; intros; (lia || done).
Qed.

Lemma last_round_ends_game_witness :
  exists r' scoreboard awarded,
    rooms_get Scenario.room (end_round Scenario.room Scenario.round1).1
    = Some r'
    /\ (Z.of_nat (currentRound (Scenario.the_room Scenario.round1))
        < numRounds (Scenario.the_room Scenario.round1) ->
        gameEnded r' = gameEnded (Scenario.the_room Scenario.round1)
        /\ (end_round Scenario.room Scenario.round1).2
           = [Emit (ToRoom Scenario.room) (RoundEndedMsg scoreboard awarded);
              Spawn (DelayedNext Scenario.room)]).
Proof.
  destruct (last_round_ends_game Scenario.room Scenario.round1
              (Scenario.the_room Scenario.round1))
    as (r' & sb & aw & Hr' & _ & Hcont).
  - vm_compute. reflexivity.
  - vm_compute. reflexivity.
  - exists r', sb, aw. split; [exact Hr' | exact Hcont].
Defined.


(** What [start_round] does when a round can start. *)
Lemma start_round_room_starts room now r prompt :
  Z.of_nat (currentRound r) < numRounds r ->
  prompts r !! currentRound r = Some prompt ->
  exists r',
    start_round_room room now r
    = (r',
       [Emit (ToRoom room)
          (NewRound (pr_text prompt) (S (currentRound r)) (players r)
             ROUND_TIME);
        Spawn (RoundTimer room (S (roundId r)))],
       None)
    /\ roundId r' = S (roundId r)
    /\ currentRound r' = S (currentRound r)
    /\ currentPrompt r' = Some prompt
    /\ roundEnded r' = false
    /\ roundStartTime r' = Some now
    /\ answers r' = ∅ /\ answer_order r' = []
    /\ players r' = players r
    /\ gameStarted r' = gameStarted r /\ gameEnded r' = gameEnded r.
Proof.
  intros Hlt Hprompt. unfold start_round_room.
  destruct (Z.leb_spec (numRounds r) (Z.of_nat (currentRound r))); [lia|].
  cbn [prompts currentRound set_roundId set_roundEnded set_answer_order
       set_answers].
  rewrite Hprompt. by eexists.
Qed.



(** After the time-out of round 1 with A's correct answer in, round 2
    starts with A at 5 points. *)
Example timeout_then_next_round_example :
  let r2 := Scenario.the_room
              (run [EvRoundTimer Scenario.room 1;
                    EvDelayedNext Scenario.room 112] Scenario.round1_A).1 in
  (map p_score (players r2), roundId r2, currentRound r2, roundEnded r2)
  = ([5; 0], 2%nat, 2%nat, false).
Proof. vm_compute. reflexivity. Qed.

(** ** Starting the game *)

(** X23. The first start.  When the host starts a game that has not
    started, with prompts ready and rounds to play, and the scheduled
    [start_round] runs, the game is marked started, [game-start] and then
    [new-round] for round 1 with the first prompt are sent, the round id
    and the round counter are 1, and the players keep the scores they
    had: a start does not reset scores. *)
Theorem first_round_after_start (sid : string) (data : RoomArg)
    (gen : GenOutcome) (now : Z) (room : string) (s : Rooms) (r : Room)
    (prompt : Prompt) :
  start_game_room data = Some room ->
  Str.truthy room = true ->
  rooms_get room s = Some r ->
  not_host sid r = false ->
  prompts_ready r = true ->
  gameStarted r = false ->
  0 < numRounds r ->
  prompts r !! 0%nat = Some prompt ->
  exists r2,
    run [EvStartGame sid data gen; EvStartRound room now] s
    = (rooms_set room r2 s,
       [Emit (ToRoom room) GameStart;
        Spawn (StartRound room);
        Emit (ToRoom room)
          (NewRound (pr_text prompt) 1 (players r) ROUND_TIME);
        Spawn (RoundTimer room 1)])
    /\ gameStarted r2 = true /\ gameEnded r2 = false
    /\ roundId r2 = 1%nat /\ currentRound r2 = 1%nat
    /\ currentPrompt r2 = Some prompt
    /\ roundEnded r2 = false
    /\ answers r2 = ∅ /\ answer_order r2 = []
    /\ players r2 = players r.
Proof.
  intros Hroom Ht Hr Hhost Hready Hstarted Hn Hprompt.
  cbn [run step]. unfold start_game.
  rewrite Hroom, Ht. cbn [negb]. rewrite Hr, Hhost, Hready. cbn [negb].
  rewrite Hstarted. cbn [app].
  unfold start_round. rewrite rooms_get_set_eq.
  match goal with
  | |- context [start_round_room room now ?r1] =>
      destruct (start_round_room_starts room now r1 prompt)
        as (r2 & Hstart & Hid & Hcr & Hcp & He & _ & Ha & Ho & Hps & Hgs & Hge);
        [done | done |]
  end.
  rewrite Hstart, rooms_set_set. exists r2. split; [done|]. done.
Qed.

Lemma first_round_after_start_witness :
  let s := (run (firstn 4 Scenario.setup) []).1 in
  exists r2,
    run [EvStartGame "sidA" (ArgStr Scenario.room) GenRaised;
         EvStartRound Scenario.room 100] s
    = (rooms_set Scenario.room r2 s,
       [Emit (ToRoom Scenario.room) GameStart;
        Spawn (StartRound Scenario.room);
        Emit (ToRoom Scenario.room)
          (NewRound (pr_text Scenario.color_prompt) 1
             (players (Scenario.the_room s)) ROUND_TIME);
        Spawn (RoundTimer Scenario.room 1)])
    /\ roundId r2 = 1%nat.
Proof.
  cbv zeta.
  destruct (first_round_after_start "sidA" (ArgStr Scenario.room) GenRaised
              100 Scenario.room (run (firstn 4 Scenario.setup) []).1
              (Scenario.the_room (run (firstn 4 Scenario.setup) []).1)
              Scenario.color_prompt)
    as (r2 & Hrun & _ & _ & Hid & _).
  - reflexivity.
  - reflexivity.
  - vm_compute. reflexivity.
  - vm_compute. reflexivity.
  - vm_compute. reflexivity.
  - vm_compute. reflexivity.
  - vm_compute. reflexivity.
  - vm_compute. reflexivity.
  - exists r2. split; [exact Hrun | exact Hid].
Defined.

(** X24. A [start-game] from the host of a game that has already
    started, sent while the prompts are not ready, generates default
    prompts before it looks at [gameStarted].  The call
    [generate_room_prompts(.., DEFAULT_NUM_PROMPTS)] it awaits may never
    return (see [generate_room_prompts_diverges]), and then the handler
    does not answer at all.  When the call returns or raises, the request
    is refused with "Game already started", yet it has replaced the
    prompts by [DEFAULT_NUM_PROMPTS] new ones, set the number of rounds to
    [DEFAULT_NUM_PROMPTS] and announced [generating] and [ready]; the
    round in progress, the answers and the scores are untouched. *)
Theorem refused_start_still_regenerates (sid : string) (data : RoomArg)
    (gen : GenOutcome) (room : string) (s : Rooms) (r : Room) :
  start_game_room data = Some room ->
  Str.truthy room = true ->
  rooms_get room s = Some r ->
  not_host sid r = false ->
  gameStarted r = true ->
  prompts_ready r = false ->
  (gen = GenRaised
   \/ exists fuel parsed ps,
        generate_room_prompts fuel parsed DEFAULT_NUM_PROMPTS = Some ps
        /\ gen = GenReturned ps) ->
  exists r',
    step (EvStartGame sid data gen) s
    = (rooms_set room r' s,
       [Emit (ToRoom room) (PromptsStatus "generating");
        Emit (ToRoom room) (PromptsStatus "ready")],
       RError "Game already started")
    /\ prompts_ready r' = true
    /\ numRounds r' = DEFAULT_NUM_PROMPTS
    /\ prompts r'
       = match gen with
         | GenReturned ps => ps
         | GenRaised => replicate 10 fruit_prompt
         end
    /\ length (prompts r') = 10%nat
    /\ roundId r' = roundId r /\ currentRound r' = currentRound r
    /\ roundEnded r' = roundEnded r /\ currentPrompt r' = currentPrompt r
    /\ answers r' = answers r /\ answer_order r' = answer_order r
    /\ players r' = players r.
Proof.
  intros Hroom Ht Hr Hhost Hstarted Hready Hgen. cbn [step].
  unfold start_game.
  rewrite Hroom, Ht. cbn [negb]. rewrite Hr, Hhost, Hready. cbn [negb].
  cbn [gameStarted set_prompts_ready set_prompts set_numRounds].
  rewrite Hstarted. eexists. split; [reflexivity|].
  assert (Hlen : length (match gen with
                         | GenReturned ps => ps
                         | GenRaised => replicate 10 fruit_prompt
                         end) = 10%nat).
  { destruct Hgen as [->|(fuel & parsed & ps & Hps & ->)]; [done|].
    by apply (generate_room_prompts_length fuel parsed DEFAULT_NUM_PROMPTS). }
  by destruct gen.
Qed.

Lemma refused_start_still_regenerates_witness :
  let s := (step (EvGeneratePrompts "sidA"
                    (mkGenData (Some Scenario.room) None None (Some 3)))
              Scenario.round1_A).1.1 in
  exists r',
    step (EvStartGame "sidA" (ArgStr Scenario.room) GenRaised) s
    = (rooms_set Scenario.room r' s,
       [Emit (ToRoom Scenario.room) (PromptsStatus "generating");
        Emit (ToRoom Scenario.room) (PromptsStatus "ready")],
       RError "Game already started")
    /\ numRounds r' = DEFAULT_NUM_PROMPTS.
Proof.
  cbv zeta.
  destruct (refused_start_still_regenerates "sidA" (ArgStr Scenario.room)
              GenRaised Scenario.room
              (step (EvGeneratePrompts "sidA"
                       (mkGenData (Some Scenario.room) None None (Some 3)))
                 Scenario.round1_A).1.1
              (Scenario.the_room
                 (step (EvGeneratePrompts "sidA"
                          (mkGenData (Some Scenario.room) None None (Some 3)))
                    Scenario.round1_A).1.1))
    as (r' & Hstep & _ & Hn & _).
  - reflexivity.
  - reflexivity.
  - vm_compute. reflexivity.
  - vm_compute. reflexivity.
  - vm_compute. reflexivity.
  - vm_compute. reflexivity.
  - by left.
  - exists r'. split; [exact Hstep | exact Hn].
Defined.

(** ** Starting a round: the edge cases *)

(** X25. [start_round] on a room that does not exist raises [KeyError]
    and changes nothing.  When the round counter has reached the number
    of rounds it starts no round: it sets [gameEnded], sends [game-over]
    and leaves everything else as it is.  When rounds remain but the
    prompt list has no entry for the next round it raises [IndexError]
    and sends nothing, having already cleared the answers, reset
    [roundEnded] and raised the round id; round counter, prompt and
    players are as before. *)
Theorem start_round_edge_cases (room : string) (now : Z) (s : Rooms) :
  (rooms_get room s = None ->
   step (EvStartRound room now) s = (s, [], RRaised "KeyError"))
  /\ (forall r, rooms_get room s = Some r ->
        numRounds r <= Z.of_nat (currentRound r) ->
        step (EvStartRound room now) s
        = (rooms_set room (set_gameEnded true r) s,
           [Emit (ToRoom room) (GameOver (players r))], RNone))
  /\ (forall r, rooms_get room s = Some r ->
        Z.of_nat (currentRound r) < numRounds r ->
        prompts r !! currentRound r = None ->
        exists r',
          step (EvStartRound room now) s
          = (rooms_set room r' s, [], RRaised "IndexError")
          /\ roundId r' = S (roundId r)
          /\ answers r' = ∅ /\ answer_order r' = []
          /\ roundEnded r' = false
          /\ currentRound r' = currentRound r
          /\ currentPrompt r' = currentPrompt r
          /\ players r' = players r).
Proof.
  cbn [step]. unfold start_round. split; [by intros ->|]. split.
  - intros r -> Hover. unfold start_round_room.
    by destruct (Z.leb_spec (numRounds r) (Z.of_nat (currentRound r)));
      [|lia].
  - intros r -> Hleft Hnone. unfold start_round_room.
    destruct (Z.leb_spec (numRounds r) (Z.of_nat (currentRound r))); [lia|].
    cbn [prompts currentRound set_roundId set_roundEnded set_answer_order
         set_answers].
    rewrite Hnone. by eexists.
Qed.

Lemma start_round_edge_cases_witness :
  exists r',
    step (EvStartRound Scenario.room 95) (run (firstn 2 Scenario.setup) []).1
    = (rooms_set Scenario.room r' (run (firstn 2 Scenario.setup) []).1, [],
       RRaised "IndexError")
    /\ roundId r' = 1%nat.
Proof.
  destruct (start_round_edge_cases Scenario.room 95
              (run (firstn 2 Scenario.setup) []).1) as (_ & _ & Hmiss).
  destruct (Hmiss (Scenario.the_room (run (firstn 2 Scenario.setup) []).1))
    as (r' & Hstep & Hid & _).
  - vm_compute. reflexivity.
  - vm_compute. reflexivity.
  - vm_compute. reflexivity.
  - exists r'. split; [exact Hstep|]. rewrite Hid. vm_compute. reflexivity.
Defined.

(** A [next-round] in the lobby, before any prompt exists. *)
Example next_round_without_prompts :
  let s := (run (firstn 2 Scenario.setup) []).1 in
  let res := step (EvNextRound "sidA" (ArgStr Scenario.room) 95) s in
  res.1.2 = [] /\ res.2 = RRaised "IndexError"
  /\ roundId (Scenario.the_room res.1.1) = 1%nat
  /\ currentRound (Scenario.the_room res.1.1) = 0%nat.
Proof. vm_compute. repeat split; reflexivity. Qed.

(** ** Generated prompts and the number of rounds *)

(** X26. After a [generate-prompts] request by the host and the end of
    its background task, whether [generate_room_prompts] returned or
    raised, the prompts are ready and there is exactly one prompt per
    round, so every round up to [numRounds] has its prompt. *)
Theorem prompts_match_rounds (sid : string) (data : GenData)
    (outcome : GenOutcome) (room : string) (s : Rooms) (r : Room) :
  gd_room data = Some room ->
  rooms_get room s = Some r ->
  not_host sid r = false ->
  let n := clamp_num_prompts (requested_num_prompts (gd_numPrompts data)) in
  (outcome = GenRaised
   \/ exists fuel parsed ps,
        generate_room_prompts fuel parsed n = Some ps
        /\ outcome = GenReturned ps) ->
  exists r',
    (run [EvGeneratePrompts sid data; EvGenerateTask room n outcome] s).1
    = rooms_set room r' s
    /\ prompts_ready r' = true
    /\ numRounds r' = n
    /\ length (prompts r') = Z.to_nat n
    /\ (forall k, Z.of_nat k < numRounds r' -> is_Some (prompts r' !! k)).
Proof.
  intros Hroom Hr Hhost n Hout. cbn [run step].
  unfold generate_prompts_handler.
  rewrite Hroom. cbn [rooms_get_opt]. rewrite Hr, Hhost. fold n.
  unfold generate_task. rewrite rooms_get_set_eq, rooms_set_set.
  cbn [fst]. eexists. split; [reflexivity|].
  cbn [prompts_ready numRounds prompts set_prompts_ready set_prompts
       set_numRounds].
  pose proof (clamp_num_prompts_range
                (requested_num_prompts (gd_numPrompts data))) as Hn.
  fold n in Hn.
  assert (Hlen : length (match outcome with
                         | GenReturned ps => ps
                         | GenRaised => replicate (Z.to_nat n) fruit_prompt
                         end) = Z.to_nat n).
  { destruct Hout as [->|(fuel & parsed & ps & Hgen & ->)].
    - apply length_replicate.
    - eapply generate_room_prompts_length; [lia | exact Hgen]. }
  do 2 (split; [done|]). split; [done|].
  intros k Hk. apply lookup_lt_is_Some. rewrite Hlen. lia.
Qed.

Lemma prompts_match_rounds_witness :
  exists r',
    (run [EvGeneratePrompts "sidA"
            (mkGenData (Some Scenario.room) None None (Some 40));
          EvGenerateTask Scenario.room
            (clamp_num_prompts (requested_num_prompts (Some 40)))
            GenRaised] Scenario.round1).1
    = rooms_set Scenario.room r' Scenario.round1
    /\ length (prompts r') = 15%nat.
Proof.
  destruct (prompts_match_rounds "sidA"
              (mkGenData (Some Scenario.room) None None (Some 40))
              GenRaised Scenario.room Scenario.round1
              (Scenario.the_room Scenario.round1))
    as (r' & Hrun & _ & _ & Hlen & _).
  - reflexivity.
  - vm_compute. reflexivity.
  - vm_compute. reflexivity.
  - by left.
  - exists r'. split; [exact Hrun | exact Hlen].
Defined.

(** ** Leaving: [disconnect] and [cleanup] *)

Lemma head_filter_first {A} (P : A -> Prop) `{!forall x, Decision (P x)}
    (l : list A) (x : A) :
  head (filter P l) = Some x ->
  exists l1 l2, l = (l1 ++ x :: l2)%list /\ P x /\ Forall (fun y => ~ P y) l1.
Proof.
  induction l as [|a l IH]; [done|]. rewrite filter_cons.
  destruct (decide (P a)) as [Ha|Ha].
  - intros [= ->]. by exists [], l.
  - intros (l1 & l2 & -> & Hx & Hl1)%IH.
    exists (a :: l1), l2. split; [done|]. split; [done|]. by constructor.
Qed.

Lemma head_filter_none {A} (P : A -> Prop) `{!forall x, Decision (P x)}
    (l : list A) :
  head (filter P l) = None -> Forall (fun y => ~ P y) l.
Proof.
  induction l as [|a l IH]; [done|]. rewrite filter_cons.
  destruct (decide (P a)) as [Ha|Ha]; [done|]. intros Hhd.
  constructor; [done | by apply IH].
Qed.

Lemma rooms_get_pop_eq room s :
  NoDup (map fst s) -> rooms_get room (rooms_pop room s) = None.
Proof.
  induction s as [|[k r] s IH]; cbn [rooms_pop rooms_get map fst]; [done|].
  intros [Hk Hnd]%NoDup_cons. destruct (decide (k = room)) as [->|Hne].
  - by apply rooms_get_None.
  - cbn [rooms_get]. rewrite decide_False by done. by apply IH.
Qed.

Lemma rooms_get_pop_ne room k s :
  k <> room -> rooms_get k (rooms_pop room s) = rooms_get k s.
Proof.
  intros Hk. induction s as [|[k0 r] s IH]; cbn [rooms_pop rooms_get]; [done|].
  destruct (decide (k0 = room)) as [->|Hne].
  - by rewrite decide_False by done.
  - cbn [rooms_get]. by rewrite IH.
Qed.

Lemma disconnect_spawns sid s t :
  Spawn t ∈ (disconnect sid s).1.2 ->
  t = Cleanup (default "" (last (map fst s))).
Proof.
  unfold disconnect. cbn [fst snd].
  generalize (default "" (last (map fst s))). intros k0.
  intros (kr & _ & Hin)%list_elem_of_In%in_flat_map.
  destruct (disconnect_room sid kr.2); [|by cbn in Hin].
  cbn [In] in Hin. destruct Hin as [Hin|[Hin|Hin]]; [done| |done].
  by injection Hin as <-.
Qed.

(** X27. A [disconnect] of a socket that no room has bound to a player
    (no entry in [socketToPlayerId], or an empty player id) changes no
    room, sends nothing and starts no task. *)
Theorem disconnect_unknown_socket (sid : string) (s : Rooms) :
  (forall room r pid,
     (room, r) ∈ s -> socketToPlayerId r !! sid = Some pid ->
     Str.truthy pid = false) ->
  step (EvDisconnect sid) s = (s, [], RNone).
Proof.
  intros Hun. cbn [step]. unfold disconnect.
  generalize (default "" (last (map fst s))). intros k0.
  assert (Hnone : forall kr, kr ∈ s -> disconnect_room sid kr.2 = None).
  { intros [k r] Hin. cbn [snd]. unfold disconnect_room.
    destruct (socketToPlayerId r !! sid) as [pid|] eqn:Hpid; [|done].
    by rewrite (Hun _ _ _ Hin Hpid). }
  clear Hun. induction s as [|[k r] s IH]; [done|].
  cbn [map flat_map fst snd].
  pose proof (Hnone (k, r) (list_elem_of_here _ _)) as Hkr.
  cbn [snd] in Hkr. rewrite Hkr. cbn [default app].
  assert (IH' := IH (fun kr H => Hnone kr (list_elem_of_further _ _ _ H))).
  by injection IH' as -> ->.
Qed.

Lemma disconnect_unknown_socket_witness :
  step (EvDisconnect "sidZ") Scenario.round1 = (Scenario.round1, [], RNone).
Proof.
  apply (disconnect_unknown_socket "sidZ" Scenario.round1).
  assert (Hall : forallb
                   (fun kr => bool_decide
                                (socketToPlayerId kr.2 !! "sidZ" = None))
                   Scenario.round1 = true)
    by (vm_compute; reflexivity).
  intros room r pid Hin%list_elem_of_In Hpid.
  rewrite forallb_forall in Hall.
  apply Hall, bool_decide_eq_true in Hin. cbn [snd] in Hin. congruence.
Defined.

(** X28. A [disconnect] of a socket bound to player [pid] of a room
    removes the two bindings of that player and nothing else: players,
    scores and answers stay.  If [pid] was the host, the new host is the
    first player of the list who is still connected, or nobody when none
    is; it is never [pid].  The room is sent the player list with the
    new host. *)
Theorem disconnect_unbinds_player (sid room : string) (s : Rooms) (r : Room)
    (pid : string) :
  rooms_get room s = Some r ->
  socketToPlayerId r !! sid = Some pid ->
  Str.truthy pid = true ->
  exists r',
    rooms_get room (step (EvDisconnect sid) s).1.1 = Some r'
    /\ socketToPlayerId r' = delete sid (socketToPlayerId r)
    /\ playerSockets r' = delete pid (playerSockets r)
    /\ players r' = players r /\ answers r' = answers r
    /\ (host r <> Some pid -> host r' = host r)
    /\ (host r = Some pid ->
        host r' <> Some pid
        /\ (forall h, host r' = Some h ->
              exists l1 p l2,
                players r = (l1 ++ p :: l2)%list /\ p_playerId p = h
                /\ connected r' h
                /\ Forall (fun q => ~ connected r' (p_playerId q)) l1)
        /\ (host r' = None ->
              Forall (fun q => ~ connected r' (p_playerId q)) (players r)))
    /\ Emit (ToRoom room) (PlayerList (players r') (host r'))
       ∈ (step (EvDisconnect sid) s).1.2.
Proof.
  intros Hr Hsid Ht.
  destruct (disconnect_room sid r) as [r'|] eqn:Hd;
    [|unfold disconnect_room in Hd; by rewrite Hsid, Ht in Hd].
  destruct (disconnect_room_fields _ _ _ Hd) as (Hps & Hans & _).
  destruct (disconnect_room_sockets _ _ _ Hd)
    as (pid' & Hsid' & _ & Hstp & Hpsk & _ & Hhost).
  assert (pid' = pid) as -> by congruence.
  exists r'. cbn [step]. unfold disconnect. cbn [fst snd].
  split.
  { rewrite (rooms_get_map (fun r0 => default r0 (disconnect_room sid r0))).
    by rewrite Hr; cbn; rewrite Hd. }
  do 4 (split; [done|]). split; [|split].
  - intros Hne. by rewrite Hhost, bool_decide_eq_false_2.
  - intros Hh. rewrite bool_decide_eq_true_2 in Hhost by done.
    rewrite <- Hpsk in Hhost. unfold connected.
    destruct (head _) as [p|] eqn:Hhead; cbn in Hhost.
    + apply head_filter_first in Hhead as (l1 & l2 & Hl & Hp & Hl1).
      split; [|split; [|by rewrite Hhost]].
      * rewrite Hhost. intros [= Heq]. rewrite Heq, Hpsk in Hp.
        rewrite lookup_delete_eq in Hp. by destruct Hp.
      * intros h. rewrite Hhost. intros [= <-]. by exists l1, p, l2.
    + apply head_filter_none in Hhead.
      split; [by rewrite Hhost|]. split; [by rewrite Hhost|]. done.
  - apply list_elem_of_In, in_flat_map. exists (room, r). split.
    + by apply list_elem_of_In, rooms_get_elem.
    + cbn [fst snd]. rewrite Hd. by left.
Qed.

Lemma disconnect_unbinds_player_witness :
  exists r',
    rooms_get Scenario.room (step (EvDisconnect "sidA") Scenario.round1).1.1
    = Some r'
    /\ playerSockets r' = delete "A" (playerSockets
                                        (Scenario.the_room Scenario.round1))
    /\ players r' = players (Scenario.the_room Scenario.round1).
Proof.
  destruct (disconnect_unbinds_player "sidA" Scenario.room Scenario.round1
              (Scenario.the_room Scenario.round1) "A")
    as (r' & Hget & _ & Hps & Hpl & _).
  - vm_compute. reflexivity.
  - vm_compute. reflexivity.
  - reflexivity.
  - exists r'. split; [exact Hget|]. split; [exact Hps | exact Hpl].
Defined.

(** The host leaves in round 1: the next listed player takes over. *)
Example host_leaves_example :
  host (Scenario.the_room (step (EvDisconnect "sidA") Scenario.round1).1.1)
  = Some "B"
  /\ (step (EvDisconnect "sidA") Scenario.round1).1.2
     = [Emit (ToRoom Scenario.room)
          (PlayerList [mkPlayer "Ann" "A" 0; mkPlayer "Bob" "B" 0] (Some "B"));
        Spawn (Cleanup Scenario.room)].
Proof. vm_compute. split; reflexivity. Qed.

Lemma step_keeps_key e s k :
  is_cleanup e = false -> k ∈ map fst s -> k ∈ map fst (step e s).1.1.
Proof.
  intros Hc Hk. destruct (is_join e) eqn:Hj; [|by rewrite step_keys].
  destruct e; try done. cbn [step]. unfold join_room.
  destruct (jd_room data) as [room|]; [|done].
  destruct (Str.truthy room); [|done].
  destruct (Str.startswith "shout-" room); [|done].
  cbn [negb orb fst]. rewrite rooms_set_keys.
  destruct (rooms_get room s); [done|]. apply elem_of_app. by left.
Qed.

Lemma run_keeps_key es s k :
  existsb is_cleanup es = false ->
  k ∈ map fst s -> k ∈ map fst (run es s).1.
Proof.
  revert s. induction es as [|e es IH]; intros s Hes Hk; [done|].
  cbn [existsb] in Hes. apply orb_false_iff in Hes as [He Hes].
  cbn [run]. pose proof (step_keeps_key e s k He Hk) as Hk1.
  destruct (step e s) as [[s1 eff1] rep]. cbn [fst] in Hk1.
  specialize (IH s1 Hes Hk1). by destruct (run es s1).
Qed.

Lemma disconnect_spawn_last sid s k :
  Spawn (Cleanup k) ∈ (disconnect sid s).1.2 -> last (map fst s) = Some k.
Proof.
  intros Hin. pose proof (disconnect_spawns _ _ _ Hin) as Heq.
  destruct (last (map fst s)) as [k0|] eqn:Hlast.
  - cbn in Heq. by injection Heq as ->.
  - apply last_None in Hlast. apply fmap_nil_inv in Hlast. subst s.
    unfold disconnect in Hin. cbn in Hin. by apply elem_of_nil in Hin.
Qed.

(** X29. The [cleanup] task of a [disconnect], when no other [cleanup]
    task runs between the two.  Whatever else happens in between (joins,
    answers, rounds, other disconnects), the room it was started for is
    still in the table when it runs.  If a player is connected to that
    room by then, as after a rejoin within the delay, the task does
    nothing.  If nobody is, it removes that room and no other, and sends
    nothing. *)
Theorem cleanup_after_disconnect (sid : string) (es : list Event)
    (room : string) (s : Rooms) :
  reachable s ->
  Spawn (Cleanup room) ∈ (step (EvDisconnect sid) s).1.2 ->
  existsb is_cleanup es = false ->
  let s1 := (run (EvDisconnect sid :: es) s).1 in
  exists r1,
    rooms_get room s1 = Some r1
    /\ (playerSockets r1 <> ∅ ->
        step (EvCleanup room) s1 = (s1, [], RNone))
    /\ (playerSockets r1 = ∅ ->
        rooms_get room (step (EvCleanup room) s1).1.1 = None
        /\ (forall k, k <> room ->
              rooms_get k (step (EvCleanup room) s1).1.1 = rooms_get k s1)
        /\ (step (EvCleanup room) s1).1.2 = []).
Proof.
  intros Hreach Hspawn Hes s1.
  assert (Hinv : table_inv s1).
  { apply run_inv; [by apply reachable_wf | by apply reachable_inv]. }
  destruct Hinv as [Hnd _].
  assert (Hk : room ∈ map fst s1).
  { apply run_keeps_key.
    - cbn [existsb is_cleanup orb]. exact Hes.
    - cbn [step] in Hspawn. apply disconnect_spawn_last in Hspawn.
      apply last_Some in Hspawn as [l ->]. apply elem_of_app. right.
      apply list_elem_of_here. }
  destruct (rooms_get room s1) as [r1|] eqn:Hr1;
    [|by apply rooms_get_None in Hr1].
  exists r1. split; [done|]. cbn [step]. unfold cleanup. rewrite Hr1. split.
  - intros Hne. by rewrite bool_decide_eq_false_2.
  - intros He. rewrite bool_decide_eq_true_2 by done. cbn [fst snd].
    split; [by apply rooms_get_pop_eq|]. split; [|done].
    intros k Hne. by apply rooms_get_pop_ne.
Qed.

Lemma cleanup_after_disconnect_witness :
  step (EvCleanup "shout-2")
    (run [EvDisconnect "sidC";
          EvJoin "sidC2" (mkJoinData (Some "shout-2") "Cy" "C" false) 95]
       two_rooms).1
  = ((run [EvDisconnect "sidC";
           EvJoin "sidC2" (mkJoinData (Some "shout-2") "Cy" "C" false) 95]
        two_rooms).1, [], RNone)
  /\ rooms_get "shout-2"
       (step (EvCleanup "shout-2")
          (run [EvDisconnect "sidC"] two_rooms).1).1.1 = None.
Proof.
  split.
  - destruct (cleanup_after_disconnect "sidC"
                [EvJoin "sidC2" (mkJoinData (Some "shout-2") "Cy" "C" false)
                   95]
                "shout-2" two_rooms) as (r1 & Hr1 & Hkeep & _).
    + eexists. unfold two_rooms. reflexivity.
    + apply (bool_decide_unpack _). vm_compute. exact I.
    + reflexivity.
    + apply Hkeep. intros He. vm_compute in Hr1.
      injection Hr1 as <-. vm_compute in He. discriminate.
  - destruct (cleanup_after_disconnect "sidC" [] "shout-2" two_rooms)
      as (r1 & Hr1 & _ & Hrm).
    + eexists. unfold two_rooms. reflexivity.
    + apply (bool_decide_unpack _). vm_compute. exact I.
    + reflexivity.
    + apply Hrm. vm_compute in Hr1. injection Hr1 as <-.
      vm_compute. reflexivity.
Defined.

(** X30. Every [cleanup] task started by a [disconnect] looks at the
    last room of the table, whichever room the player left.  So a room
    that is not the last one stays in the table after a [disconnect] and
    the [cleanup] it started, even when its last player has left. *)
Theorem disconnect_cleanup_checks_last_room (sid room last_room : string)
    (s : Rooms) :
  last (map fst s) = Some last_room ->
  room <> last_room ->
  (forall t, Spawn t ∈ (step (EvDisconnect sid) s).1.2 ->
             t = Cleanup last_room)
  /\ rooms_get room
       (run [EvDisconnect sid; EvCleanup last_room] s).1
     = rooms_get room (step (EvDisconnect sid) s).1.1.
Proof.
  intros Hlast Hne. split.
  - intros t Ht. apply disconnect_spawns in Ht. by rewrite Hlast in Ht.
  - cbn [run step]. destruct (disconnect sid s) as [[s1 eff1] rep1].
    cbn [fst]. unfold cleanup.
    destruct (rooms_get last_room s1) as [rl|]; [|done].
    case_bool_decide; [|done]. cbn [fst]. by apply rooms_get_pop_ne.
Qed.

Lemma disconnect_cleanup_checks_last_room_witness :
  (forall t, Spawn t ∈ (step (EvDisconnect "sidA") two_rooms).1.2 ->
             t = Cleanup "shout-2")
  /\ rooms_get "shout-1"
       (run [EvDisconnect "sidA"; EvCleanup "shout-2"] two_rooms).1
     = rooms_get "shout-1" (step (EvDisconnect "sidA") two_rooms).1.1.
Proof.
  apply (disconnect_cleanup_checks_last_room "sidA" "shout-1" "shout-2"
           two_rooms).
  - vm_compute. reflexivity.
  - done.
Defined.

(** Ann, the only player of the first room, leaves: the room is empty
    and stays. *)
Example emptied_room_stays :
  playerSockets
    (Scenario.the_room
       (run [EvDisconnect "sidA"; EvCleanup "shout-2"] two_rooms).1) = ∅
  /\ map fst (run [EvDisconnect "sidA"; EvCleanup "shout-2"] two_rooms).1
     = ["shout-1"; "shout-2"].
Proof. vm_compute. split; reflexivity. Qed.
